(** * cofounder/api/utils/parsers.js : extraction and rewriting helpers

    A shallow embedding of the five functions exported by [parsers.js]
    ([extract.backticks], [extract.backticksMultiple], [extract.decorators],
    [parse.yaml], [edit.genUi]) and the properties established about them.

    Conventions of the embedding.
    - A JavaScript string is a [string]: a sequence of code units, here the
      code units below 256.  Array indices and the results of [findIndex]
      are integers ([Z]), with [-1] for "not found" as in the source.
    - A JavaScript value that reaches a function argument is a [value]: a
      primitive, a [String] object, an array or a plain object whose
      properties hold such values.  Functions are not values of the
      embedding, so the values with a method [split] are the strings and
      the [String] objects ([has_split]).
    - A function body runs in the monad [M]: it appends to the console and
      either completes normally or throws; [try_catch] is [try { } catch].
      The functions are [async]: what is modelled is the value their promise
      resolves to.
    - The built-in methods the source calls are modelled by what the
      language standard says they do on the arguments the source gives them:
      [split], [join], [includes], [trim], [findIndex], [slice], [reverse],
      [replaceAll] with a string pattern and a string replacement (whose
      dollar patterns are interpreted, [getSubstitution]), and the regular
      expression of the decorators by its leftmost greedy match.
    - The object [found] of [extractBackticksMultiple] is a [gmap] of its own
      properties; [obj_set] is the assignment [found[key] = v].
    - [yaml.parse] belongs to an imported package and is a parameter.

    The file has three parts: the functions of the source, the vocabulary of
    the statements, and the lemmas and theorems. *)

From Stdlib Require Import ZArith List String Ascii Bool Lia Sorted.
From stdpp Require Import base option list gmap strings.
Import ListNotations.
Local Open Scope Z_scope.

(** ** JavaScript strings and arrays *)

Module Js.

Definition LF : ascii := "010"%char.
Definition SPACE : ascii := "032"%char.
Definition DQUOTE : ascii := "034"%char.
Definition nl : string := String LF EmptyString.

(** [WhiteSpace] and [LineTerminator] code units below 256: TAB, LF, VT, FF,
    CR, SP and NBSP.  These are what [String.prototype.trim] strips. *)
Definition is_ws (c : ascii) : bool :=
  let n := nat_of_ascii c in
  (Nat.leb 9 n && Nat.leb n 13) || Nat.eqb n 32 || Nat.eqb n 160.

(** [LineTerminator] code units below 256: what [.] of a regular expression
    does not match. *)
Definition is_line_terminator (c : ascii) : bool :=
  let n := nat_of_ascii c in Nat.eqb n 10 || Nat.eqb n 13.

Definition is_empty (s : string) : bool :=
  match s with EmptyString => true | String _ _ => false end.

(** [s.split(sep)] for a one-character separator. *)
Fixpoint split (sep : ascii) (s : string) : list string :=
  match s with
  | EmptyString => [EmptyString]
  | String c s' =>
      if Ascii.eqb c sep then EmptyString :: split sep s'
      else match split sep s' with
           | [] => [String c EmptyString]
           | w :: ws => String c w :: ws
           end
  end.

(** [l.join(sep)]. *)
Fixpoint join (sep : string) (l : list string) : string :=
  match l with
  | [] => EmptyString
  | [x] => x
  | x :: rest => x +:+ sep +:+ join sep rest
  end.

(** [hay.includes(needle)]. *)
Fixpoint includes (needle hay : string) : bool :=
  String.prefix needle hay ||
  match hay with
  | EmptyString => false
  | String _ hay' => includes needle hay'
  end.

Fixpoint trimStart (s : string) : string :=
  match s with
  | EmptyString => EmptyString
  | String c s' => if is_ws c then trimStart s' else s
  end.

Fixpoint trimEnd (s : string) : string :=
  match s with
  | EmptyString => EmptyString
  | String c s' =>
      match trimEnd s' with
      | EmptyString => if is_ws c then EmptyString else String c EmptyString
      | t => String c t
      end
  end.

(** [s.trim()]. *)
Definition trim (s : string) : string := trimEnd (trimStart s).

(** [l.findIndex(p)]: the index of the first element satisfying [p], [-1]
    when there is none. *)
Fixpoint findIndex_from {A} (p : A -> bool) (i : Z) (l : list A) : Z :=
  match l with
  | [] => -1
  | x :: xs => if p x then i else findIndex_from p (i + 1) xs
  end.

Definition findIndex {A} (p : A -> bool) (l : list A) : Z :=
  findIndex_from p 0 l.

(** Relative index of [Array.prototype.slice]: negative arguments count from
    the end, everything is clamped to [0 .. len]. *)
Definition rel_index (len k : Z) : Z :=
  if k <? 0 then Z.max (len + k) 0 else Z.min k len.

Definition len {A} (l : list A) : Z := Z.of_nat (length l).

(** [l.slice(start, stop)]. *)
Definition slice {A} (l : list A) (start stop : Z) : list A :=
  let from := rel_index (len l) start in
  let to := rel_index (len l) stop in
  firstn (Z.to_nat (to - from)) (skipn (Z.to_nat from) l).

(** [l.slice(start)]. *)
Definition slice_from {A} (l : list A) (start : Z) : list A :=
  slice l start (len l).

(** [l[i]], [None] standing for [undefined]. *)
Definition at_index {A} (l : list A) (i : Z) : option A :=
  if i <? 0 then None else l !! Z.to_nat i.

(** *** Values, truthiness *)

#[warnings="-register-all"]
Inductive value : Type :=
| VUndefined
| VNull
| VBool (b : bool)
| VNum (n : Z)
| VNaN
| VStr (s : string)
| VStrObj (s : string)
| VArr (elems : list value)
| VObj (fields : list (string * value)).

Definition truthy (v : value) : bool :=
  match v with
  | VUndefined | VNull | VNaN => false
  | VBool b => b
  | VNum n => negb (n =? 0)
  | VStr s => negb (is_empty s)
  | VStrObj _ | VArr _ | VObj _ => true
  end.

Definition falsy (v : value) : bool := negb (truthy v).

(** [typeof v === 'string']: a [String] object ([new String(s)]) has type
    ['object']. *)
Definition is_string (v : value) : bool :=
  match v with VStr _ => true | _ => false end.

(** [v.split] is callable: [String.prototype.split], on a string and on a
    [String] object.  An array has no such method, and a property [split]
    of a plain object holds a value that is not a function. *)
Definition has_split (v : value) : bool :=
  match v with VStr _ | VStrObj _ => true | _ => false end.

(** [v.name] on a value that is neither [null] nor [undefined]. *)
Fixpoint assoc (name : string) (fields : list (string * value)) : value :=
  match fields with
  | [] => VUndefined
  | (k, v) :: rest => if String.eqb k name then v else assoc name rest
  end.

Definition get_field (v : value) (name : string) : value :=
  match v with
  | VObj fields => assoc name fields
  | _ => VUndefined
  end.

(** *** Console, exceptions *)

Inductive error : Type :=
| Error (msg : string)
| TypeError (msg : string).

Inductive event : Type :=
| ConsoleError (tag : string) (e : error)
| ConsoleWarn (msg : string) (args : list value).

Inductive completion (A : Type) : Type :=
| Normal (a : A)
| Throw (e : error).
Arguments Normal {A} a.
Arguments Throw {A} e.

(** A computation: what it wrote to the console, and how it completed. *)
Definition M (A : Type) : Type := (list event * completion A)%type.

Definition ret {A} (a : A) : M A := ([], Normal a).
Definition throw {A} (e : error) : M A := ([], Throw e).
Definition log (ev : event) : M unit := ([ev], Normal tt).

Definition bind {A B} (m : M A) (k : A -> M B) : M B :=
  match m with
  | (out, Normal a) => let '(out', r) := k a in (out ++ out', r)
  | (out, Throw e) => (out, Throw e)
  end.

Definition try_catch {A} (m : M A) (handler : error -> M A) : M A :=
  match m with
  | (out, Throw e) => let '(out', r) := handler e in (out ++ out', r)
  | (out, Normal a) => (out, Normal a)
  end.

Definition output {A} (m : M A) : list event := fst m.
Definition outcome {A} (m : M A) : completion A := snd m.

(** [name.split(sep)], [name] being the variable that holds [v]: a method
    call.  On a string or a [String] object it splits the string; on any
    other value [v.split] is not callable and the call throws. *)
Definition call_split (name : string) (v : value) (sep : ascii) : M (list string) :=
  match v with
  | VStr s | VStrObj s => ret (split sep s)
  | _ => throw (TypeError (name +:+ ".split is not a function"))
  end.

End Js.

Import Js.

Notation "'let!' x ':=' m 'in' k" := (bind m (fun x => k))
  (at level 10, x name, m at level 100, k at level 200).

(** ** The functions of parsers.js *)

Definition fence : string := "```".
Definition tag_extract : string := "utils/parsers:extractAndParse:error".

Record extraction : Type := { text : string }.

Definition extractBackticks_try (input : value) : M (option extraction) :=
  let! lines := call_split "text" input LF in
  let firstLineWithBackticksIndex := findIndex (includes fence) lines in
  let lastBackticksIndex :=
    len lines - 1 - findIndex (includes fence) (reverse lines) in
  if firstLineWithBackticksIndex =? -1 then
    throw (Error "> invalid : no opening backticks found")
  else if lastBackticksIndex =? -1 then
    throw (Error "> invalid : no closing backticks found")
  else if lastBackticksIndex <=? firstLineWithBackticksIndex then
    throw (Error "> invalid : malformed backtick structure")
  else
    let extractedContent :=
      trim (join nl (slice lines (firstLineWithBackticksIndex + 1) lastBackticksIndex)) in
    if is_empty extractedContent then
      throw (Error "> invalid : empty content between backticks")
    else ret (Some {| text := extractedContent |}).

Definition extractBackticks (input : value) : M (option extraction) :=
  if falsy input || negb (is_string input) then
    let! _ := log (ConsoleError tag_extract (Error "> invalid : null or non-string input")) in
    ret None
  else
    try_catch (extractBackticks_try input)
      (fun e => let! _ := log (ConsoleError tag_extract e) in ret None).


(** *** extract.backticksMultiple *)

(** The [delimiters] argument: an array of labels, or anything else. *)
Inductive delimiters_value : Type :=
| NotAnArray (v : value)
| Labels (labels : list string).

Definition isArray (d : delimiters_value) : bool :=
  match d with Labels _ => true | NotAnArray _ => false end.

Definition elements (d : delimiters_value) : list string :=
  match d with Labels l => l | NotAnArray _ => [] end.

(** [o[key] = v] on an object created by [{}].  Its prototype is
    [Object.prototype], whose accessor [__proto__] receives an assignment to
    that key and ignores a string: no own property is created. *)
Definition obj_set (key v : string) (o : gmap string string) : gmap string string :=
  if String.eqb key "__proto__" then o else <[key := v]> o.

(** [Object.keys(o).length]. *)
Definition keys_length (o : gmap string string) : Z := Z.of_nat (size o).

Record scan_state : Type := { found : gmap string string; cursor : Z }.

Definition quoted (x : string) : string :=
  String DQUOTE (x +:+ String DQUOTE EmptyString).

Definition warn_no_opening (delim : string) : event :=
  ConsoleWarn ("Warning: No opening backticks found for delimiter " +:+ quoted delim) [].

Definition warn_no_closing (delim : string) : event :=
  ConsoleWarn ("Warning: No closing backticks found for delimiter " +:+ quoted delim) [].

(** The loop [for (let delim of delimiters) { ... }]; [break] leaves it,
    [continue] goes on with the remaining labels and the state as it is. *)
Fixpoint for_delimiters (lines : list string) (delimiters : list string)
    (st : scan_state) : M scan_state :=
  match delimiters with
  | [] => ret st
  | delim :: rest =>
      if len lines <=? cursor st then ret st
      else
        let firstLine :=
          findIndex (includes (fence +:+ delim)) (slice_from lines (cursor st)) in
        if firstLine =? -1 then
          let! _ := log (warn_no_opening delim) in
          for_delimiters lines rest st
        else
          let textFromFirstLine :=
            slice_from (slice_from lines (cursor st)) firstLine in
          let lastLine :=
            findIndex (includes fence) (slice_from textFromFirstLine 1) in
          if lastLine =? -1 then
            let! _ := log (warn_no_closing delim) in
            for_delimiters lines rest st
          else
            for_delimiters lines rest
              {| found :=
                   obj_set delim
                     (join nl (slice textFromFirstLine 1 (lastLine + 1)))
                     (found st);
                 cursor := cursor st + firstLine + lastLine + 2 |}
  end.

Definition extractBackticksMultiple_try (input : value) (delimiters : list string)
    : M (option (gmap string string)) :=
  let! lines := call_split "text" input LF in
  let! st := for_delimiters lines delimiters {| found := ∅; cursor := 0 |} in
  ret (if 0 <? keys_length (found st) then Some (found st) else None).

Definition extractBackticksMultiple (input : value) (delimiters : delimiters_value)
    : M (option (gmap string string)) :=
  if falsy input || negb (isArray delimiters) || (len (elements delimiters) =? 0) then
    let! _ := log (ConsoleError tag_extract (Error "> invalid : missing text or delimiters")) in
    ret None
  else
    try_catch (extractBackticksMultiple_try input (elements delimiters))
      (fun e => let! _ := log (ConsoleError tag_extract e) in ret None).

(** *** parse.yaml *)

Definition tag_yaml : string := "utils/parsers:parseYaml:error".

Definition is_nullish (v : value) : bool :=
  match v with VNull | VUndefined => true | _ => false end.

Section ParseYaml.

(** The decoder [yaml.parse] of the imported package [yaml]: on a text it
    returns a value tree or throws. *)
Variable yaml_parse : value -> completion value.

Definition parseYaml_try (generated : value) : M value :=
  let text := get_field generated "text" in
  let! parsed := ([], yaml_parse text) in
  if is_nullish parsed then
    throw (Error "> invalid : YAML parsing resulted in null or undefined")
  else ret parsed.

Definition parseYaml (generated : value) : M value :=
  if falsy generated || falsy (get_field generated "text") then
    let! _ := log (ConsoleError tag_yaml
                     (Error "> invalid : null or missing text in generated content")) in
    ret VNull
  else
    try_catch (parseYaml_try generated)
      (fun e => let! _ := log (ConsoleError tag_yaml e) in ret VNull).

End ParseYaml.

(** *** edit.genUi *)

Definition tag_genui : string := "utils/parsers:editGenUi:error".

Inductive category : Type := Sections | Views.

(** The path-prefix token that marks a reference line of a category. *)
Definition token (c : category) : string :=
  match c with
  | Sections => "@/components/sections/"
  | Views => "@/components/views/"
  end.

Definition wrapper (c : category) : string :=
  match c with
  | Sections => "GenUiSection"
  | Views => "GenUiView"
  end.

Definition import_line (c : category) : string :=
  match c with
  | Sections => "import GenUiSection from '@/p0/genui/GenUiSection';"
  | Views => "import GenUiView from '@/p0/genui/GenUiView';"
  end.

(** The object [genUi]: each field is [false] ([None]) or an array. *)
Record genUi_ids : Type :=
  { sections : option (list string); views : option (list string) }.

Record genUi_result : Type := { tsx : value; ids : genUi_ids }.

Definition no_ids : genUi_ids := {| sections := None; views := None |}.

Definition get_ids (c : category) (g : genUi_ids) : option (list string) :=
  match c with Sections => sections g | Views => views g end.

Definition set_ids (c : category) (v : option (list string)) (g : genUi_ids) : genUi_ids :=
  match c with
  | Sections => {| sections := v; views := views g |}
  | Views => {| sections := sections g; views := v |}
  end.

(** [[...new Set(l)]]: the elements of [l] in order of first occurrence. *)
Definition new_Set (l : list string) : list string :=
  fold_left (fun acc x => if existsb (String.eqb x) acc then acc else acc ++ [x]) l [].

(** The branch of the filter callback for a line that contains the token of
    category [c]: the field is initialised, the second element of
    [line.split(" ")] is collected when it is truthy, the line is dropped. *)
Definition collect (c : category) (line : string) (genUi : genUi_ids) : genUi_ids :=
  let genUi :=
    match get_ids c genUi with
    | None => set_ids c (Some []) genUi
    | Some _ => genUi
    end in
  match at_index (split SPACE line) 1, get_ids c genUi with
  | Some id, Some collected =>
      if is_empty id then genUi
      else set_ids c (Some (new_Set (collected ++ [id]))) genUi
  | _, _ => genUi
  end.

(** The callback of [.filter]: the updated [genUi] and whether the line is
    kept. *)
Definition filter_line (genUi : genUi_ids) (line : string) : genUi_ids * bool :=
  if is_empty line then (genUi, true)
  else if includes (token Sections) line then (collect Sections line genUi, false)
  else if includes (token Views) line then (collect Views line genUi, false)
  else (genUi, true).

Fixpoint filter_lines (genUi : genUi_ids) (lines : list string)
    : genUi_ids * list string :=
  match lines with
  | [] => (genUi, [])
  | line :: rest =>
      let '(genUi, keep) := filter_line genUi line in
      let '(genUi, kept) := filter_lines genUi rest in
      (genUi, if keep then line :: kept else kept)
  end.

Definition is_char (c : ascii) (d : ascii) : bool := Ascii.eqb c d.

(** [GetSubstitution] for a string pattern (no captures): in the replacement
    text [$$] is a dollar sign, [$&] the matched text, [$`] the text before
    the match and [$'] the text after it; any other [$] stands for itself. *)
Fixpoint getSubstitution (matched before after template : string) : string :=
  match template with
  | EmptyString => EmptyString
  | String c t =>
      if is_char c "$" then
        match t with
        | String d t' =>
            if is_char d "$" then String "$" (getSubstitution matched before after t')
            else if is_char d "&" then matched +:+ getSubstitution matched before after t'
            else if is_char d "`" then before +:+ getSubstitution matched before after t'
            else if is_char d "'" then after +:+ getSubstitution matched before after t'
            else String "$" (getSubstitution matched before after t)
        | EmptyString => String "$" EmptyString
        end
      else String c (getSubstitution matched before after t)
  end.

Fixpoint drop_chars (n : nat) (str : string) : string :=
  match n, str with
  | O, _ => str
  | S n', String _ str' => drop_chars n' str'
  | S _, EmptyString => EmptyString
  end.

(** [str.replaceAll(pat, template)] for a non-empty string [pat]: the
    occurrences of [pat] are found from left to right without overlap, and
    each is replaced by the substitution computed on the original string.
    [before] is the part of the string already passed, [skip] the number of
    characters of the current match still to be passed. *)
Fixpoint replaceAll_from (pat template before : string) (skip : nat) (rest : string)
    : string :=
  match rest with
  | EmptyString => EmptyString
  | String c rest' =>
      let before' := before +:+ String c EmptyString in
      match skip with
      | S k => replaceAll_from pat template before' k rest'
      | O =>
          if String.prefix pat rest then
            getSubstitution pat before (drop_chars (String.length pat) rest) template
            +:+ replaceAll_from pat template before' (String.length pat - 1) rest'
          else String c (replaceAll_from pat template before' 0 rest')
      end
  end.

Definition replaceAll (pat template str : string) : string :=
  replaceAll_from pat template EmptyString 0 str.

(** One round of the loop over the collected identifiers. *)
Definition substitute (c : category) (newTsx id : string) : string :=
  replaceAll ("<" +:+ id) ("<" +:+ wrapper c +:+ " id=" +:+ quoted id) newTsx.

(** [if (genUi.c) { newTsx = import + newTsx; for (id of genUi.c) ... }]. *)
Definition rewrite_category (c : category) (genUi : genUi_ids) (newTsx : string) : string :=
  match get_ids c genUi with
  | None => newTsx
  | Some collected =>
      fold_left (substitute c) collected (import_line c +:+ nl +:+ newTsx)
  end.

Definition editGenUi_try (input : value) : M genUi_result :=
  let! lines := call_split "tsx" input LF in
  let '(genUi, kept) := filter_lines no_ids lines in
  let newTsx := join nl kept in
  let newTsx := rewrite_category Sections genUi newTsx in
  let newTsx := rewrite_category Views genUi newTsx in
  ret {| tsx := VStr newTsx; ids := genUi |}.

Definition editGenUi (input : value) : M genUi_result :=
  if falsy input then
    let! _ := log (ConsoleError tag_genui (Error "> invalid : null or missing tsx input")) in
    ret {| tsx := VStr EmptyString; ids := no_ids |}
  else
    try_catch (editGenUi_try input)
      (fun e =>
         let! _ := log (ConsoleError tag_genui e) in
         ret {| tsx := input; ids := no_ids |}).

(** *** extract.decorators *)

Definition tag_decorators : string := "utils/parsers:extractCodeDecorators:error".

Record decorator : Type :=
  { type : string; description : string; snippet : string; lineNumber : Z }.

(** Longest prefix whose characters satisfy [p], and what follows it. *)
Fixpoint span (p : ascii -> bool) (str : string) : string * string :=
  match str with
  | EmptyString => (EmptyString, EmptyString)
  | String c str' =>
      if p c then let '(run, rest) := span p str' in (String c run, rest)
      else (EmptyString, str)
  end.

(** The groups of [([^:]+):(.+)] matched at the start of [str].  The first
    group is greedy and cannot cross a colon, so it is the longest run
    without one (a shorter run is followed by a character that is not the
    colon the pattern wants next); the second is the longest run without a
    line terminator.  Both must be non-empty. *)
Definition groups_at (str : string) : option (string * string) :=
  let '(g1, rest) := span (fun c => negb (is_char c ":")) str in
  if is_empty g1 then None
  else match rest with
       | String c rest' =>
           if is_char c ":" then
             let '(g2, _) := span (fun c => negb (is_line_terminator c)) rest' in
             if is_empty g2 then None else Some (g1, g2)
           else None
       | EmptyString => None
       end.

(** [line.match(/@need:([^:]+):(.+)/)]: the groups of the leftmost match. *)
Fixpoint match_need (line : string) : option (string * string) :=
  let here :=
    if String.prefix "@need:" line then groups_at (drop_chars 6 line) else None in
  match here with
  | Some groups => Some groups
  | None =>
      match line with
      | EmptyString => None
      | String _ line' => match_need line'
      end
  end.

Definition pre : Z := 5.
Definition post : Z := 15.
Definition elision : string := "{/*...*/}".

Definition warn_invalid_decorator (index : Z) : event :=
  ConsoleWarn "Invalid decorator format at line:" [VNum (index + 1)].

(** The callback of [lines.forEach((line, index) => ...)], [decorators]
    being the array it pushes to. *)
Definition visit_line (lines : list string) (decorators : list decorator)
    (line : string) (index : Z) : M (list decorator) :=
  match match_need line with
  | Some (g1, g2) =>
      let type := trim g1 in
      let description := trim g2 in
      if is_empty type || is_empty description then
        let! _ := log (warn_invalid_decorator index) in
        ret decorators
      else
        let startLine := Z.max 0 (index - pre) in
        let endLine := Z.min (len lines) (index + post + 1) in
        let snippet :=
          elision +:+ nl +:+ join nl (slice lines startLine endLine)
          +:+ nl +:+ elision in
        ret (decorators ++
             [{| type := type; description := description;
                 snippet := snippet; lineNumber := index + 1 |}])
  | None => ret decorators
  end.

Fixpoint forEach_from (lines : list string) (decorators : list decorator)
    (index : Z) (rest : list string) : M (list decorator) :=
  match rest with
  | [] => ret decorators
  | line :: rest' =>
      let! decorators := visit_line lines decorators line index in
      forEach_from lines decorators (index + 1) rest'
  end.

Definition extractCodeDecorators_try (code : value) : M (list decorator) :=
  let! lines := call_split "code" code LF in
  forEach_from lines [] 0 lines.

Definition extractCodeDecorators (code : value) : M (list decorator) :=
  if falsy code then
    let! _ := log (ConsoleError tag_decorators (Error "> invalid : null or missing code input")) in
    ret []
  else
    try_catch (extractCodeDecorators_try code)
      (fun e => let! _ := log (ConsoleError tag_decorators e) in ret []).

(** ** Vocabulary of the statements *)

Definition text_of (l : list string) : string := join nl l.

(** A string made of white space only. *)
Fixpoint all_ws str : bool :=
  match str with
  | EmptyString => true
  | String c str' => is_ws c && all_ws str'
  end.

Definition marker_line : string -> bool := includes fence.

Definition count_if {A} (p : A -> bool) (l : list A) : nat :=
  length (List.filter p l).

(** One fenced region: the marker lines of [lines] are exactly the lines at
    [i] and [j], with [i] before [j]. *)
Definition fenced_region (lines : list string) (i j : Z) : Prop :=
  0 <= i < j /\ j < len lines /\
  forall k line, at_index lines k = Some line ->
                 (marker_line line = true <-> k = i \/ k = j).

(** The statement that one content line different from the empty string is
    enough for the region to be extracted. *)
Definition nonempty_line_suffices : Prop :=
  forall input i j,
    let lines := split LF input in
    fenced_region lines i j ->
    (exists k line, i < k < j /\ at_index lines k = Some line /\ line <> EmptyString) ->
    outcome (extractBackticks (VStr input))
    = Normal (Some {| text := trim (join nl (slice lines (i + 1) j)) |}).

(** The statement that a falsy input comes back as it was given. *)
Definition falsy_input_returned : Prop :=
  forall input,
    input = VNull \/ input = VUndefined \/ input = VStr EmptyString ->
    outcome (editGenUi input) = Normal {| tsx := input; ids := no_ids |}.

(** [idx] is the first index from [from] on whose line satisfies [p]. *)
Definition first_from (p : string -> bool) (lines : list string) (from idx : Z) : Prop :=
  from <= idx /\
  (exists line, at_index lines idx = Some line /\ p line = true) /\
  forall k line, from <= k < idx -> at_index lines k = Some line -> p line = false.

(** No line from [from] on satisfies [p]. *)
Definition none_from (p : string -> bool) (lines : list string) (from : Z) : Prop :=
  forall k line, from <= k -> at_index lines k = Some line -> p line = false.

Definition start : scan_state := {| found := ∅; cursor := 0 |}.

Definition final_state (lines : list string) (delims : list string) (st : scan_state)
    : scan_state :=
  match outcome (for_delimiters lines delims st) with
  | Normal st' => st'
  | Throw _ => start
  end.

(** Every character of the string satisfies [p]. *)
Fixpoint all_chars (p : ascii -> bool) (str : string) : bool :=
  match str with
  | EmptyString => true
  | String y str' => p y && all_chars p str'
  end.

(** The line reads [@need:], a type without colon, a colon and, up to its
    end, a description. *)
Definition marker_with (line ty desc : string) : Prop :=
  exists before,
    line = before +:+ "@need:" +:+ ty +:+ ":" +:+ desc /\
    all_chars (fun c => negb (is_char c ":")) ty = true.

(** The statement that a marker whose type or description trims to the empty
    string gets a warning. *)
Definition blank_marker_warned : Prop :=
  forall code i line ty desc,
    at_index (split LF code) i = Some line ->
    marker_with line ty desc ->
    trim ty = EmptyString \/ trim desc = EmptyString ->
    In (warn_invalid_decorator i) (output (extractCodeDecorators (VStr code))).

(** Nothing that [.] matches comes next: the string is at its end or goes
    on with a line terminator. *)
Definition line_end (after : string) : Prop :=
  match after with
  | EmptyString => True
  | String x _ => is_line_terminator x = true
  end.

(** The pattern [@need:([^:]+):(.+)] matches at the start of [str], its
    groups being [ty] and [desc]: [str] reads [@need:], then [ty], one
    character or more and none of them a colon, then a colon, then [desc],
    one character or more and none of them a line terminator, as far as
    such characters go. *)
Definition need_here (str ty desc : string) : Prop :=
  exists after,
    str = "@need:" +:+ ty +:+ ":" +:+ desc +:+ after /\
    ty <> EmptyString /\ all_chars (fun c => negb (is_char c ":")) ty = true /\
    desc <> EmptyString /\
    all_chars (fun c => negb (is_line_terminator c)) desc = true /\
    line_end after.

(** [line.match(/@need:([^:]+):(.+)/)] finds the groups [ty] and [desc]: the
    pattern matches somewhere in the line with these groups, and nowhere
    further to the left. *)
Definition need_match (line ty desc : string) : Prop :=
  exists before rest,
    line = before +:+ rest /\ need_here rest ty desc /\
    forall before' rest' ty' desc',
      line = before' +:+ rest' -> need_here rest' ty' desc' ->
      (String.length before <= String.length before')%nat.

(** The string has no white space at its start and none at its end. *)
Definition edges_bare (t : string) : Prop :=
  (forall c t', t = String c t' -> is_ws c = false) /\
  (forall c t', t = t' +:+ String c EmptyString -> is_ws c = false).

(** [t] is [str] without the white space at its two ends. *)
Definition trimmed_of (str t : string) : Prop :=
  exists l r,
    str = l +:+ t +:+ r /\ all_ws l = true /\ all_ws r = true /\ edges_bare t.

(** [@need:] stands between [before] and [rest], and occurs in neither. *)
Definition sole_marker (line before rest : string) : Prop :=
  line = before +:+ "@need:" +:+ rest /\
  includes "@need:" before = false /\ includes "@need:" rest = false.

(** What follows [@need:] is no type, colon and description: after the
    characters up to the first colon ([ty]) the line ends (no second colon),
    or there are no such characters (no type), or nothing that [.] matches
    follows the colon (no description). *)
Definition incomplete_marker (rest : string) : Prop :=
  exists ty tail,
    rest = ty +:+ tail /\
    all_chars (fun c => negb (is_char c ":")) ty = true /\
    (tail = EmptyString \/
     (ty = EmptyString /\ exists t, tail = String ":" t) \/
     (exists after, tail = String ":" after /\ line_end after)).

(** The pattern matches on the line. *)
Definition has_marker (line : string) : bool :=
  match match_need line with Some _ => true | None => false end.

(** The pattern matches on the line and the type or the description it
    finds trims to the empty string. *)
Definition malformed (line : string) : bool :=
  match match_need line with
  | Some (g1, g2) => is_empty (trim g1) || is_empty (trim g2)
  | None => false
  end.

(** The context window of the line at [index]. *)
Definition window (lines : list string) (index : Z) : string :=
  elision +:+ nl
  +:+ join nl (slice lines (Z.max 0 (index - 5)) (Z.min (len lines) (index + 15 + 1)))
  +:+ nl +:+ elision.

(** The record of a line, if it gives one. *)
Definition decorator_at (lines : list string) (index : Z) (line : string)
    : option decorator :=
  match match_need line with
  | Some (g1, g2) =>
      if is_empty (trim g1) || is_empty (trim g2) then None
      else Some {| type := trim g1; description := trim g2;
                   snippet := window lines index; lineNumber := index + 1 |}
  | None => None
  end.

(** The scan as the specification words it, one line after the other: a
    line gives its record or nothing, and a malformed line a warning.  The
    loop of the source, which pushes to an array, is shown to compute these
    ([forEach_from_records]). *)
Fixpoint records_of (lines : list string) (index : Z) (rest : list string)
    : list decorator :=
  match rest with
  | [] => []
  | line :: rest' =>
      match decorator_at lines index line with
      | Some d => d :: records_of lines (index + 1) rest'
      | None => records_of lines (index + 1) rest'
      end
  end.

Fixpoint warnings_of (index : Z) (rest : list string) : list event :=
  match rest with
  | [] => []
  | line :: rest' =>
      if malformed line then warn_invalid_decorator index :: warnings_of (index + 1) rest'
      else warnings_of (index + 1) rest'
  end.

Definition sample_source : string :=
  text_of (repeat "a"%string 9 ++ ["// @need:api:fetch user data"%string]
           ++ repeat "b"%string 20).

(** The same text with white space around the type and the description. *)
Definition spaced_source : string :=
  text_of (repeat "a"%string 9 ++ ["// @need: api :  fetch user data "%string]
           ++ repeat "b"%string 20).

(** The branch of the filter callback a line takes: the sections check comes
    first, an empty line is kept before any check. *)
Definition category_of (line : string) : option category :=
  if is_empty line then None
  else if includes (token Sections) line then Some Sections
  else if includes (token Views) line then Some Views
  else None.

(** The identifier of a reference line: the second element of
    [line.split(" ")] when there is one and it is not the empty string. *)
Definition second_token (line : string) : option string :=
  match at_index (split SPACE line) 1 with
  | Some id => if is_empty id then None else Some id
  | None => None
  end.

Definition is_kept (line : string) : bool :=
  match category_of line with None => true | Some _ => false end.

(** The lines that pass the filter. *)
Definition kept_lines (input : string) : list string :=
  snd (filter_lines no_ids (split LF input)).

(** The object [genUi] after the filter. *)
Definition collected_ids (input : string) : genUi_ids :=
  fst (filter_lines no_ids (split LF input)).

(** No character of the string is [x]. *)
Fixpoint no_char (x : ascii) (str : string) : bool :=
  match str with
  | EmptyString => true
  | String y str' => negb (Ascii.eqb y x) && no_char x str'
  end.

Definition LT : ascii := "<"%char.

(** The statement that a reference line without identifier leaves the
    field of every category whose token it contains as an empty array. *)
Definition reference_without_identifier_gives_empty : Prop :=
  forall input line c,
    In line (split LF input) ->
    includes (token c) line = true ->
    second_token line = None ->
    exists result,
      outcome (editGenUi (VStr input)) = Normal result /\
      get_ids c (ids result) = Some [].

(** A reference line without identifier (two spaces after its first
    word), which reads as a tag that has been rewritten. *)
Definition copied_line : string :=
  "a  <GenUiSection id=" +:+ quoted "@/components/sections/" +:+ "ections/".

(** A text that holds a reference line naming the identifier
    [@/components/s$'], then [copied_line], then a line that opens a tag of
    that name. *)
Definition copied_source : string :=
  text_of ["x @/components/s$' @/components/sections/"%string;
           copied_line;
           "a  <@/components/s$'ections/"%string].

(** A text whose reference line names the identifier [@/components/s$'],
    followed by a line that opens a tag of that name. *)
Definition dollar_source : string :=
  text_of ["x @/components/s$' @/components/sections/";
           "<@/components/s$'ections/"]%string.

Definition dollar_output : string :=
  text_of [import_line Sections;
           "<GenUiSection id=" +:+ quoted "@/components/sections/" +:+ "ections/"].

Definition DOLLAR : ascii := "$"%char.

(** The string up to its first [x], that [x] included. *)
Fixpoint upto (x : ascii) (str : string) : string :=
  match str with
  | EmptyString => EmptyString
  | String y str' =>
      if Ascii.eqb y x then String x EmptyString else String y (upto x str')
  end.

(** Neither token occurs in the text. *)
Definition reference_free (str : string) : Prop :=
  forall c, includes (token c) str = false.

(** The mapping [extract.backticksMultiple] returns for a text and labels,
    [null] being read as the mapping without entry. *)
Definition blocks (input : string) (delims : list string) : gmap string string :=
  match outcome (extractBackticksMultiple (VStr input) (Labels delims)) with
  | Normal (Some m) => m
  | _ => ∅
  end.

(** A warning of the loop of [extractBackticksMultiple] about one of the
    labels. *)
Definition label_warning (labels : list string) (ev : event) : Prop :=
  exists delim, In delim labels /\
                (ev = warn_no_opening delim \/ ev = warn_no_closing delim).

(** The line takes the branch of category [c] in the filter callback. *)
Definition in_category (c : category) (line : string) : bool :=
  match category_of line, c with
  | Some Sections, Sections | Some Views, Views => true
  | _, _ => false
  end.

(** The identifiers named by the reference lines of category [c], in the
    order of the lines. *)
Definition reference_ids (c : category) (lines : list string) : list string :=
  flat_map (fun line =>
              if in_category c line then
                match second_token line with Some id => [id] | None => [] end
              else []) lines.

(** The import line of category [c] with its line feed when some line takes
    the branch of [c], nothing otherwise. *)
Definition import_head (c : category) (lines : list string) : string :=
  if existsb (in_category c) lines then import_line c +:+ nl else EmptyString.

(** ** Sample runs *)

Example extractBackticks_hello :
  outcome (extractBackticks (VStr (text_of ["```"; "hello"; "```"])))
  = Normal (Some {| text := "hello" |}).
Proof. reflexivity. Qed.

Example extractBackticks_no_content :
  outcome (extractBackticks (VStr (text_of ["```"; "```"]))) = Normal None.
Proof. reflexivity. Qed.

(** ** Facts about the string and array operations *)

Section ArrayFacts.
Context {A : Type}.
Implicit Types (p : A -> bool) (l : list A).

Lemma len_nonneg l : 0 <= len l.
Proof. unfold len. lia. Qed.

Lemma len_app l1 l2 : len (l1 ++ l2) = len l1 + len l2.
Proof. unfold len. rewrite length_app. lia. Qed.

Lemma len_cons x l : len (x :: l) = len l + 1.
Proof. unfold len. simpl. lia. Qed.

Lemma findIndex_from_none p i l :
  Forall (fun y => p y = false) l -> findIndex_from p i l = -1.
Proof.
  intros H. revert i. induction H as [|y l Hy _ IH]; intros i; simpl.
  - reflexivity.
  - rewrite Hy. apply IH.
Qed.

Lemma findIndex_from_first p i l1 x l2 :
  Forall (fun y => p y = false) l1 -> p x = true ->
  findIndex_from p i (l1 ++ x :: l2) = i + len l1.
Proof.
  intros H Hx. revert i. induction H as [|y l Hy _ IH]; intros i; simpl.
  - rewrite Hx. unfold len. simpl. lia.
  - rewrite Hy, IH, len_cons. lia.
Qed.

(** What [findIndex] reports: nothing satisfies [p], or the array splits
    around the first element that does. *)
Lemma findIndex_from_inv p i l :
  (findIndex_from p i l = -1 /\ Forall (fun y => p y = false) l) \/
  (exists l1 x l2, l = l1 ++ x :: l2 /\ Forall (fun y => p y = false) l1 /\
                   p x = true /\ findIndex_from p i l = i + len l1).
Proof.
  revert i. induction l as [|y l IH]; intros i; simpl.
  - left. split; [reflexivity | constructor].
  - destruct (p y) eqn:Hy.
    + right. exists [], y, l. repeat split; auto. unfold len. simpl. lia.
    + destruct (IH (i + 1)) as [[E F] | (l1 & x & l2 & -> & F & Hx & E)].
      * left. split; [exact E | constructor; assumption].
      * right. exists (y :: l1), x, l2. repeat split; auto.
        rewrite E, len_cons. lia.
Qed.

Lemma findIndex_inv p l :
  (findIndex p l = -1 /\ Forall (fun y => p y = false) l) \/
  (exists l1 x l2, l = l1 ++ x :: l2 /\ Forall (fun y => p y = false) l1 /\
                   p x = true /\ findIndex p l = len l1).
Proof.
  unfold findIndex.
  destruct (findIndex_from_inv p 0 l) as [H | (l1 & x & l2 & H1 & H2 & H3 & H4)].
  - left. exact H.
  - right. exists l1, x, l2. rewrite H4. repeat split; auto.
Qed.

Lemma findIndex_first p l1 x l2 :
  Forall (fun y => p y = false) l1 -> p x = true ->
  findIndex p (l1 ++ x :: l2) = len l1.
Proof. intros. unfold findIndex. rewrite findIndex_from_first by assumption. lia. Qed.

Lemma findIndex_none p l :
  Forall (fun y => p y = false) l -> findIndex p l = -1.
Proof. apply findIndex_from_none. Qed.

Lemma findIndex_range p l : findIndex p l = -1 \/ 0 <= findIndex p l < len l.
Proof.
  destruct (findIndex_inv p l) as [[E _] | (l1 & x & l2 & -> & _ & _ & E)].
  - now left.
  - right. rewrite E, len_app, len_cons.
    pose proof (len_nonneg l1). pose proof (len_nonneg l2). lia.
Qed.

Lemma slice_take_drop l a b :
  0 <= a <= len l -> 0 <= b <= len l ->
  slice l a b = take (Z.to_nat (b - a)) (drop (Z.to_nat a) l).
Proof.
  intros Ha Hb. unfold slice, rel_index.
  destruct (Z.ltb_spec a 0); [lia|]. destruct (Z.ltb_spec b 0); [lia|].
  rewrite !Z.min_l by lia. reflexivity.
Qed.

Lemma slice_from_drop l a :
  0 <= a <= len l -> slice_from l a = drop (Z.to_nat a) l.
Proof.
  intros Ha. unfold slice_from. rewrite slice_take_drop by (pose proof (len_nonneg l); lia).
  apply take_ge. rewrite length_drop. unfold len in *. lia.
Qed.

Lemma at_index_Some l k x :
  at_index l k = Some x <-> 0 <= k /\ l !! Z.to_nat k = Some x.
Proof.
  unfold at_index. destruct (Z.ltb_spec k 0); split; intros H'.
  - discriminate.
  - lia.
  - split; [lia | exact H'].
  - apply H'.
Qed.

Lemma at_index_lt_len l k x : at_index l k = Some x -> 0 <= k < len l.
Proof.
  intros [H0 H]%at_index_Some. apply lookup_lt_Some in H. unfold len. lia.
Qed.

End ArrayFacts.

Section StringFacts.
Implicit Types (str : string) (c : ascii).

Lemma is_empty_false str : is_empty str = false <-> str <> EmptyString.
Proof. destruct str; simpl; split; intros H; congruence. Qed.

Lemma all_ws_app str1 str2 : all_ws (str1 +:+ str2) = all_ws str1 && all_ws str2.
Proof.
  induction str1 as [|c str1 IH]; simpl; [reflexivity|].
  rewrite IH. apply andb_assoc.
Qed.

Lemma all_ws_trimStart str : all_ws (trimStart str) = all_ws str.
Proof.
  induction str as [|c str IH]; simpl; [reflexivity|].
  destruct (is_ws c) eqn:Hc; simpl; [exact IH | now rewrite Hc].
Qed.

Lemma trimEnd_empty str : is_empty (trimEnd str) = all_ws str.
Proof.
  induction str as [|c str IH]; simpl; [reflexivity|].
  destruct (trimEnd str) eqn:E; simpl in *.
  - rewrite <- IH, andb_true_r. now destruct (is_ws c).
  - rewrite <- IH. now rewrite andb_false_r.
Qed.

(** [trim] gives the empty string exactly on white space. *)
Lemma trim_empty str : is_empty (trim str) = all_ws str.
Proof. unfold trim. now rewrite trimEnd_empty, all_ws_trimStart. Qed.

Lemma all_ws_join (l : list string) : all_ws (join nl l) = forallb all_ws l.
Proof.
  induction l as [|x l IH]; [reflexivity|].
  destruct l as [|y l].
  - simpl. now rewrite andb_true_r.
  - change (join nl (x :: y :: l)) with (x +:+ nl +:+ join nl (y :: l)).
    rewrite !all_ws_app, IH. reflexivity.
Qed.

Lemma split_nonempty sep str : split sep str <> [].
Proof.
  destruct str as [|c str]; simpl; [discriminate|].
  destruct (Ascii.eqb c sep); [discriminate|].
  destruct (split sep str); discriminate.
Qed.

(** Splitting on line feeds and joining with line feeds gives the text back. *)
Lemma join_split str : join nl (split LF str) = str.
Proof.
  induction str as [|c str IH]; [reflexivity|].
  simpl split. destruct (Ascii.eqb_spec c LF) as [->|Hc].
  - pose proof (split_nonempty LF str) as Hne.
    destruct (split LF str) as [|w ws]; [congruence|].
    change (join nl (EmptyString :: w :: ws)) with (nl +:+ join nl (w :: ws)).
    rewrite IH. reflexivity.
  - pose proof (split_nonempty LF str) as Hne.
    destruct (split LF str) as [|w ws]; [congruence|].
    destruct ws as [|w' ws].
    + simpl in *. now rewrite IH.
    + change (join nl (String c w :: w' :: ws))
        with (String c (w +:+ nl +:+ join nl (w' :: ws))).
      change (join nl (w :: w' :: ws)) with (w +:+ nl +:+ join nl (w' :: ws)) in IH.
      now rewrite IH.
Qed.

End StringFacts.

(** ** extract.backticks *)

Lemma count_if_app {A} (p : A -> bool) (l1 l2 : list A) :
  count_if p (l1 ++ l2) = (count_if p l1 + count_if p l2)%nat.
Proof. unfold count_if. now rewrite List.filter_app, length_app. Qed.

Lemma count_if_zero {A} (p : A -> bool) (l : list A) :
  count_if p l = 0%nat <-> Forall (fun y => p y = false) l.
Proof.
  unfold count_if. induction l as [|x l IH]; simpl.
  - split; [constructor | reflexivity].
  - destruct (p x) eqn:Hx; simpl; split; intros H.
    + discriminate.
    + inversion H; congruence.
    + constructor; [assumption | now apply IH].
    + inversion H; now apply IH.
Qed.

Lemma Forall_false_reverse {A} (p : A -> bool) (l : list A) :
  Forall (fun y => p y = false) l -> Forall (fun y => p y = false) (reverse l).
Proof. intros H. now apply Forall_reverse. Qed.

(** The two indices the function computes, when the first marker line is at
    [i] and the last at [j]. *)
Lemma first_last_marker (p : string -> bool) (lines : list string) (i j : nat) li lj :
  lines !! i = Some li -> lines !! j = Some lj ->
  p li = true -> p lj = true ->
  (forall k x, lines !! k = Some x -> p x = true -> (i <= k <= j)%nat) ->
  findIndex p lines = Z.of_nat i /\
  len lines - 1 - findIndex p (reverse lines) = Z.of_nat j.
Proof.
  intros Hi Hj Pi Pj Hrange. split.
  - rewrite <- (take_drop_middle lines i li Hi).
    rewrite findIndex_first; auto.
    + unfold len. rewrite length_take. apply lookup_lt_Some in Hi. lia.
    + apply Forall_lookup. intros k x Hk.
      destruct (p x) eqn:Px; [|reflexivity].
      pose proof (lookup_lt_Some _ _ _ Hk) as Hlt. rewrite length_take in Hlt.
      rewrite lookup_take_lt in Hk by lia.
      specialize (Hrange k x Hk Px). lia.
  - pose proof (lookup_lt_Some _ _ _ Hj) as Hlt.
    rewrite <- (take_drop_middle lines j lj Hj) at 2.
    rewrite reverse_app, reverse_cons, <- app_assoc. simpl.
    rewrite findIndex_first; auto.
    + unfold len. rewrite length_reverse, length_drop. lia.
    + apply Forall_reverse, Forall_lookup. intros k x Hk.
      destruct (p x) eqn:Px; [|reflexivity].
      rewrite lookup_drop in Hk. specialize (Hrange _ x Hk Px). lia.
Qed.

Lemma at_index_of_nat {A} (l : list A) (k : nat) : at_index l (Z.of_nat k) = l !! k.
Proof.
  unfold at_index. destruct (Z.ltb_spec (Z.of_nat k) 0); [lia|].
  now rewrite Nat2Z.id.
Qed.

Lemma fenced_region_indices lines i j :
  fenced_region lines i j ->
  exists li lj,
    lines !! Z.to_nat i = Some li /\ lines !! Z.to_nat j = Some lj /\
    marker_line li = true /\ marker_line lj = true /\
    (forall k x, lines !! k = Some x -> marker_line x = true ->
                 (Z.to_nat i <= k <= Z.to_nat j)%nat).
Proof.
  intros (Hij & Hj & Hiff).
  assert (Hi' : (Z.to_nat i < length lines)%nat) by (unfold len in Hj; lia).
  assert (Hj' : (Z.to_nat j < length lines)%nat) by (unfold len in Hj; lia).
  destruct (lookup_lt_is_Some_2 _ _ Hi') as [li Hli].
  destruct (lookup_lt_is_Some_2 _ _ Hj') as [lj Hlj].
  exists li, lj. repeat split; auto.
  - apply (Hiff i); [apply at_index_Some; split; [lia | exact Hli] | now left].
  - apply (Hiff j); [apply at_index_Some; split; [lia | exact Hlj] | now right].
  - assert (Hk : at_index lines (Z.of_nat k) = Some x) by now rewrite at_index_of_nat.
    apply (Hiff _ _ Hk) in H0. lia.
  - assert (Hk : at_index lines (Z.of_nat k) = Some x) by now rewrite at_index_of_nat.
    apply (Hiff _ _ Hk) in H0. lia.
Qed.

Lemma extractBackticks_try_string input :
  extractBackticks_try (VStr input) =
  let lines := split LF input in
  let first := findIndex (includes fence) lines in
  let last := len lines - 1 - findIndex (includes fence) (reverse lines) in
  if first =? -1 then throw (Error "> invalid : no opening backticks found")
  else if last =? -1 then throw (Error "> invalid : no closing backticks found")
  else if last <=? first then throw (Error "> invalid : malformed backtick structure")
  else
    let extractedContent := trim (join nl (slice lines (first + 1) last)) in
    if is_empty extractedContent then
      throw (Error "> invalid : empty content between backticks")
    else ret (Some {| text := extractedContent |}).
Proof.
  unfold extractBackticks_try, call_split, bind, ret, throw. cbv zeta.
  repeat match goal with |- context [if ?b then _ else _] => destruct b end;
    reflexivity.
Qed.

(** Between two marker lines [i < j] that are the first and the last one, the
    function returns the trimmed content, or [null] when it is blank. *)
Lemma extractBackticks_between input (i j : nat) li lj :
  let lines := split LF input in
  lines !! i = Some li -> lines !! j = Some lj ->
  marker_line li = true -> marker_line lj = true ->
  (forall k x, lines !! k = Some x -> marker_line x = true -> (i <= k <= j)%nat) ->
  (i < j)%nat ->
  outcome (extractBackticks (VStr input)) =
  let content := trim (join nl (slice lines (Z.of_nat i + 1) (Z.of_nat j))) in
  Normal (if is_empty content then None else Some {| text := content |}).
Proof.
  intros lines Hi Hj Pi Pj Hrange Hlt.
  destruct (first_last_marker marker_line lines i j li lj Hi Hj Pi Pj Hrange)
    as [Hfirst Hlast].
  assert (Hne : is_empty input = false).
  { destruct input; [|reflexivity]. subst lines. simpl in Hj.
    destruct j; [lia | discriminate]. }
  unfold extractBackticks. simpl falsy. unfold falsy. simpl truthy.
  rewrite Hne. simpl orb. cbv iota.
  rewrite extractBackticks_try_string. cbv zeta.
  fold lines. unfold marker_line in Hfirst, Hlast. rewrite Hfirst, Hlast.
  destruct (Z.eqb_spec (Z.of_nat i) (-1)); [lia|].
  destruct (Z.eqb_spec (Z.of_nat j) (-1)); [lia|].
  destruct (Z.leb_spec (Z.of_nat j) (Z.of_nat i)); [lia|].
  destruct (is_empty (trim (join nl (slice lines (Z.of_nat i + 1) (Z.of_nat j)))));
    reflexivity.
Qed.

(** With at most one marker line the first and the last marker coincide (or
    there is none) and the function gives up. *)
Lemma extractBackticks_few_markers input :
  (count_if marker_line (split LF input) <= 1)%nat ->
  outcome (extractBackticks (VStr input)) = Normal None.
Proof.
  intros Hcount. destruct input as [|c input]; [reflexivity|].
  unfold extractBackticks. unfold falsy. simpl truthy. simpl orb. cbv iota.
  rewrite extractBackticks_try_string. cbv zeta.
  set (lines := split LF (String c input)) in *.
  destruct (findIndex_inv (includes fence) lines)
    as [[E _] | (l1 & x & l2 & Hl & F1 & Px & E)].
  - rewrite E. reflexivity.
  - rewrite E. pose proof (len_nonneg l1) as H1.
    destruct (Z.eqb_spec (len l1) (-1)); [lia|].
    assert (F2 : Forall (fun y => includes fence y = false) l2).
    { apply count_if_zero. rewrite Hl in Hcount.
      rewrite count_if_app in Hcount. unfold count_if in Hcount at 2.
      simpl in Hcount. unfold marker_line in Hcount at 2. rewrite Px in Hcount.
      simpl in Hcount. fold (count_if marker_line l2) in Hcount.
      change (includes fence) with marker_line. lia. }
    assert (Hlast : len lines - 1 - findIndex (includes fence) (reverse lines) = len l1).
    { rewrite Hl, reverse_app, reverse_cons, <- app_assoc. simpl.
      rewrite findIndex_first by (auto using Forall_false_reverse).
      rewrite len_app, len_cons. unfold len. rewrite length_reverse. lia. }
    rewrite Hlast.
    destruct (Z.eqb_spec (len l1) (-1)); [lia|].
    rewrite Z.leb_refl. reflexivity.
Qed.

Lemma blank_between lines (i j k : Z) line :
  i < k < j -> j <= len lines -> 0 <= i ->
  at_index lines k = Some line -> all_ws line = false ->
  all_ws (join nl (slice lines (i + 1) j)) = false.
Proof.
  intros Hk Hj Hi Hline Hws.
  rewrite all_ws_join. apply not_true_is_false. intros Hall.
  rewrite forallb_forall in Hall.
  rewrite (Hall line) in Hws; [discriminate|].
  rewrite slice_take_drop by lia.
  apply at_index_Some in Hline as [_ Hline].
  apply list_elem_of_In, list_elem_of_lookup.
  exists (Z.to_nat (k - (i + 1))).
  rewrite lookup_take_lt by lia. rewrite lookup_drop.
  replace (Z.to_nat (i + 1) + Z.to_nat (k - (i + 1)))%nat with (Z.to_nat k) by lia.
  exact Hline.
Qed.

(** C1, as amended.  When the marker lines of a text are exactly two, and some
    line strictly between them is not blank (it does not trim to the empty
    string), [extract.backticks] returns the lines strictly between the two,
    joined with line feeds and trimmed.  When the text has at most one marker
    line it returns [null].  The two sample texts give ["hello"] and [null]. *)
Theorem extractBackticks_fenced_region :
  (forall input i j,
     let lines := split LF input in
     fenced_region lines i j ->
     (exists k line, i < k < j /\ at_index lines k = Some line /\
                     trim line <> EmptyString) ->
     outcome (extractBackticks (VStr input))
     = Normal (Some {| text := trim (join nl (slice lines (i + 1) j)) |})) /\
  (forall input,
     (count_if marker_line (split LF input) <= 1)%nat ->
     outcome (extractBackticks (VStr input)) = Normal None) /\
  outcome (extractBackticks (VStr (text_of ["```"; "hello"; "```"])))
  = Normal (Some {| text := "hello" |}) /\
  outcome (extractBackticks (VStr (text_of ["```"; "```"]))) = Normal None.
Proof.
  split; [|split; [exact extractBackticks_few_markers | split; reflexivity]].
  intros input i j lines Hregion (k & line & Hk & Hline & Htrim).
  destruct (fenced_region_indices _ _ _ Hregion)
    as (li & lj & Hi & Hj & Pi & Pj & Hrange).
  destruct Hregion as (Hij & Hjlen & _).
  pose proof (extractBackticks_between input _ _ li lj Hi Hj Pi Pj Hrange) as H.
  cbv zeta in H. rewrite !Z2Nat.id in H by lia. rewrite H by lia.
  fold lines. rewrite trim_empty.
  rewrite (blank_between lines i j k line); auto; try lia.
  rewrite <- trim_empty. now apply is_empty_false.
Qed.

Lemma region_of_three (a b c : string) :
  marker_line a = true -> marker_line b = false -> marker_line c = true ->
  fenced_region [a; b; c] 0 2.
Proof.
  intros Ha Hb Hc. split; [lia|]. split; [reflexivity|].
  intros k line Hk.
  pose proof (at_index_lt_len _ _ _ Hk) as Hr. unfold len in Hr. simpl in Hr.
  assert (Hcases : k = 0 \/ k = 1 \/ k = 2) by lia.
  destruct Hcases as [-> | [-> | ->]]; simpl in Hk; inversion Hk; subst line;
    split; intros H; try lia; auto; congruence.
Qed.

Lemma extractBackticks_fenced_region_witness :
  outcome (extractBackticks (VStr (text_of ["```js"; " let x "; "```"])))
  = Normal (Some {| text := "let x" |}).
Proof.
  apply (proj1 extractBackticks_fenced_region (text_of ["```js"; " let x "; "```"]) 0 2).
  - apply region_of_three; reflexivity.
  - exists 1, " let x "%string. split; [lia|]. split; [reflexivity | discriminate].
Defined.

(** A content line that is not the empty string is not enough: a region
    whose only content line is one space is rejected. *)
Lemma nonempty_line_suffices_fails : ~ nonempty_line_suffices.
Proof.
  intros H.
  specialize (H (text_of ["```"; " "; "```"]) 0 2).
  assert (Hregion : fenced_region (split LF (text_of ["```"; " "; "```"])) 0 2)
    by (apply region_of_three; reflexivity).
  specialize (H Hregion).
  assert (Hline : exists k line, 0 < k < 2 /\
            at_index (split LF (text_of ["```"; " "; "```"])) k = Some line /\
            line <> EmptyString).
  { exists 1, " "%string. split; [lia|]. split; [reflexivity | discriminate]. }
  specialize (H Hline). vm_compute in H. discriminate.
Qed.

(** ** edit.genUi: inputs that are not rewritten *)

(** It fails for [null] (and [undefined]): the text that comes back is the
    empty string. *)
Lemma falsy_input_returned_fails : ~ falsy_input_returned.
Proof.
  intros H. specialize (H VNull (or_introl eq_refl)).
  vm_compute in H. discriminate.
Qed.

(** C2, as amended.  On every falsy input [edit.genUi] completes normally
    and returns the empty string as text, with [ids.sections] and [ids.views]
    both [false]; the text is the input itself only when the input is the
    empty string. *)
Theorem editGenUi_falsy input :
  falsy input = true ->
  outcome (editGenUi input)
  = Normal {| tsx := VStr EmptyString;
              ids := {| sections := None; views := None |} |}.
Proof.
  intros H. unfold editGenUi. rewrite H. reflexivity.
Qed.

Lemma editGenUi_falsy_witness :
  outcome (editGenUi VNull)
  = Normal {| tsx := VStr EmptyString; ids := {| sections := None; views := None |} |}
  /\ outcome (editGenUi VUndefined)
  = Normal {| tsx := VStr EmptyString; ids := {| sections := None; views := None |} |}
  /\ outcome (editGenUi (VStr EmptyString))
  = Normal {| tsx := VStr EmptyString; ids := {| sections := None; views := None |} |}.
Proof.
  split; [|split]; apply editGenUi_falsy; reflexivity.
Defined.

(** On a string or a [String] object the transform runs to its end; on
    anything else the call of [split] throws. *)
Lemma editGenUi_try_throws input :
  (exists e, outcome (editGenUi_try input) = Throw e) <-> has_split input = false.
Proof.
  unfold editGenUi_try. destruct input; simpl;
    try (split; [reflexivity | intros _; eexists; reflexivity]);
    (split; [|discriminate]); intros [e He]; unfold bind, ret in He;
    destruct (filter_lines no_ids (split LF s)) as [g kept]; discriminate.
Qed.

(** C7.  When the transform of [edit.genUi] is entered (the input is truthy)
    and throws, the exception is caught: the function completes normally and
    returns the input it was given, with [ids.sections] and [ids.views] both
    [false]. *)
Theorem editGenUi_exception_caught input e :
  falsy input = false ->
  outcome (editGenUi_try input) = Throw e ->
  outcome (editGenUi input)
  = Normal {| tsx := input; ids := {| sections := None; views := None |} |}.
Proof.
  intros Hin He. unfold editGenUi. rewrite Hin.
  destruct (editGenUi_try input) as [out r]. simpl in He. subst r.
  reflexivity.
Qed.

Lemma editGenUi_exception_caught_witness :
  outcome (editGenUi (VNum 5))
  = Normal {| tsx := VNum 5; ids := {| sections := None; views := None |} |}.
Proof.
  apply (editGenUi_exception_caught (VNum 5) (TypeError "tsx.split is not a function"));
    reflexivity.
Defined.

(** ** parse.yaml *)

(** C9.  Whatever the decoder does, [parse.yaml] completes normally.  It
    returns [null] exactly when [generated] or its [text] is falsy, or the
    decoder throws on the text, or the decoder returns [null] or [undefined];
    in every other case it returns the value the decoder returned. *)
Theorem parseYaml_null_cases (yaml_parse : value -> completion value) generated :
  let text := get_field generated "text" in
  let missing := falsy generated || falsy text in
  (exists v, outcome (parseYaml yaml_parse generated) = Normal v) /\
  (outcome (parseYaml yaml_parse generated) = Normal VNull <->
     missing = true \/
     (exists e, yaml_parse text = Throw e) \/
     yaml_parse text = Normal VNull \/ yaml_parse text = Normal VUndefined) /\
  (forall v,
     missing = false -> yaml_parse text = Normal v -> is_nullish v = false ->
     outcome (parseYaml yaml_parse generated) = Normal v).
Proof.
  intros text missing. unfold parseYaml. fold text. fold missing.
  destruct missing eqn:Hm.
  - split; [eexists; reflexivity|]. split; [|discriminate].
    split; [now left | reflexivity].
  - unfold parseYaml_try. fold text.
    destruct (yaml_parse text) as [v|e] eqn:Hd; simpl.
    + destruct (is_nullish v) eqn:Hv; simpl.
      * split; [eexists; reflexivity|]. split.
        -- split; [|reflexivity]. intros _. right. right.
           destruct v; try discriminate; auto.
        -- intros v' _ [= <-] Hv'. congruence.
      * split; [eexists; reflexivity|]. split.
        -- split.
           ++ intros [= ->]. discriminate.
           ++ intros [H | [[e He] | [H | H]]]; try discriminate;
                injection H as ->; discriminate.
        -- intros v' _ [= <-] _. reflexivity.
    + split; [eexists; reflexivity|]. split.
      * split; [|reflexivity]. intros _. right. left. now exists e.
      * intros v' _ [=].
Qed.

Lemma parseYaml_null_cases_witness :
  outcome (parseYaml (fun _ => Normal (VNum 7)) (VObj [("text"%string, VStr "7")]))
  = Normal (VNum 7).
Proof.
  apply (proj2 (proj2 (parseYaml_null_cases
                         (fun _ => Normal (VNum 7)) (VObj [("text"%string, VStr "7")]))));
    reflexivity.
Defined.

(** ** extract.backticksMultiple *)

Section SliceFacts.
Context {A : Type}.
Implicit Types (l : list A).

Lemma len_slice_from l a : 0 <= a <= len l -> len (slice_from l a) = len l - a.
Proof.
  intros Ha. rewrite slice_from_drop by lia. unfold len in *.
  rewrite length_drop. lia.
Qed.

Lemma slice_from_slice_from l a b :
  0 <= a -> 0 <= b -> a + b <= len l ->
  slice_from (slice_from l a) b = slice_from l (a + b).
Proof.
  intros Ha Hb Hab.
  rewrite (slice_from_drop (slice_from l a)) by (rewrite len_slice_from; lia).
  rewrite !slice_from_drop by lia. rewrite drop_drop. f_equal. lia.
Qed.

Lemma slice_slice_from l a x y :
  0 <= a -> 0 <= x <= y -> a + y <= len l ->
  slice (slice_from l a) x y = slice l (a + x) (a + y).
Proof.
  intros Ha Hx Hy.
  rewrite (slice_take_drop (slice_from l a)) by (rewrite len_slice_from; lia).
  rewrite slice_take_drop by lia. rewrite slice_from_drop by lia.
  rewrite drop_drop. f_equal; [lia | f_equal; lia].
Qed.

End SliceFacts.

Lemma findIndex_first_from p lines from idx :
  0 <= from -> first_from p lines from idx ->
  findIndex p (slice_from lines from) = idx - from.
Proof.
  intros H0 (Hle & (line & Hline & Hp) & Hbefore).
  pose proof (at_index_lt_len _ _ _ Hline) as Hidx.
  apply at_index_Some in Hline as [_ Hline].
  rewrite slice_from_drop by lia.
  assert (Hl : drop (Z.to_nat from) lines !! Z.to_nat (idx - from) = Some line).
  { rewrite lookup_drop. rewrite <- Hline. f_equal. lia. }
  rewrite <- (take_drop_middle _ _ _ Hl).
  rewrite findIndex_first; auto.
  - unfold len. rewrite length_take, length_drop. unfold len in Hidx. lia.
  - apply Forall_lookup. intros k x Hk.
    pose proof (lookup_lt_Some _ _ _ Hk) as Hlt. rewrite length_take in Hlt.
    rewrite lookup_take_lt in Hk by lia. rewrite lookup_drop in Hk.
    apply (Hbefore (from + Z.of_nat k)); [lia|].
    apply at_index_Some. split; [lia|]. rewrite <- Hk. f_equal. lia.
Qed.

Lemma findIndex_none_from p lines from :
  0 <= from <= len lines -> none_from p lines from ->
  findIndex p (slice_from lines from) = -1.
Proof.
  intros H0 Hnone. rewrite slice_from_drop by lia.
  apply findIndex_none, Forall_lookup. intros k x Hk.
  rewrite lookup_drop in Hk.
  apply (Hnone (from + Z.of_nat k)); [lia|].
  apply at_index_Some. split; [lia|]. rewrite <- Hk. f_equal. lia.
Qed.

(** One turn of the loop. *)
Lemma for_delimiters_cons lines delim rest st :
  for_delimiters lines (delim :: rest) st
  = if len lines <=? cursor st then ret st
    else
      let firstLine :=
        findIndex (includes (fence +:+ delim)) (slice_from lines (cursor st)) in
      if firstLine =? -1 then
        let! _ := log (warn_no_opening delim) in
        for_delimiters lines rest st
      else
        let textFromFirstLine :=
          slice_from (slice_from lines (cursor st)) firstLine in
        let lastLine :=
          findIndex (includes fence) (slice_from textFromFirstLine 1) in
        if lastLine =? -1 then
          let! _ := log (warn_no_closing delim) in
          for_delimiters lines rest st
        else
          for_delimiters lines rest
            {| found :=
                 obj_set delim
                   (join nl (slice textFromFirstLine 1 (lastLine + 1)))
                   (found st);
               cursor := cursor st + firstLine + lastLine + 2 |}.
Proof. reflexivity. Qed.

(** A label whose opening fence is not found from the cursor on. *)
Lemma for_delimiters_miss lines delim rest st :
  0 <= cursor st < len lines ->
  none_from (includes (fence +:+ delim)) lines (cursor st) ->
  for_delimiters lines (delim :: rest) st
  = (let! _ := log (warn_no_opening delim) in for_delimiters lines rest st).
Proof.
  intros Hc Hnone. rewrite for_delimiters_cons. cbv zeta.
  destruct (Z.leb_spec (len lines) (cursor st)); [lia|].
  rewrite findIndex_none_from by (auto; lia). reflexivity.
Qed.

(** A label whose block is found: opening fence at [o], closing fence at
    [c]. *)
Lemma for_delimiters_hit lines delim rest st o c :
  0 <= cursor st ->
  first_from (includes (fence +:+ delim)) lines (cursor st) o ->
  first_from (includes fence) lines (o + 1) c ->
  for_delimiters lines (delim :: rest) st
  = for_delimiters lines rest
      {| found := obj_set delim (join nl (slice lines (o + 1) c)) (found st);
         cursor := c + 1 |}.
Proof.
  intros Hc Hopen Hclose. rewrite for_delimiters_cons. cbv zeta.
  pose proof Hopen as (Ho & (lo & Hlo & _) & _).
  pose proof Hclose as (Hoc & (lc & Hlc & _) & _).
  apply at_index_lt_len in Hlo. apply at_index_lt_len in Hlc.
  destruct (Z.leb_spec (len lines) (cursor st)); [lia|].
  rewrite (findIndex_first_from _ _ _ _ Hc Hopen).
  destruct (Z.eqb_spec (o - cursor st) (-1)); [lia|].
  rewrite (slice_from_slice_from lines (cursor st) (o - cursor st)) by lia.
  replace (cursor st + (o - cursor st)) with o by lia.
  rewrite (slice_from_slice_from lines o 1) by lia.
  assert (Ho1 : 0 <= o + 1) by lia.
  rewrite (findIndex_first_from _ _ _ _ Ho1 Hclose).
  destruct (Z.eqb_spec (c - (o + 1)) (-1)); [lia|].
  rewrite slice_slice_from by lia.
  f_equal. f_equal; [f_equal; f_equal; f_equal; lia | lia].
Qed.

(** The loop looks at the lines from the cursor on, and at nothing else. *)
Lemma for_delimiters_remaining delims : forall lines lines' st,
  0 <= cursor st ->
  drop (Z.to_nat (cursor st)) lines = drop (Z.to_nat (cursor st)) lines' ->
  len lines = len lines' ->
  for_delimiters lines delims st = for_delimiters lines' delims st.
Proof.
  induction delims as [|delim rest IH]; intros lines lines' st Hc Hdrop Hlen;
    [reflexivity|].
  rewrite !for_delimiters_cons. cbv zeta. rewrite <- Hlen.
  destruct (Z.leb_spec (len lines) (cursor st)); [reflexivity|].
  assert (Hs : slice_from lines (cursor st) = slice_from lines' (cursor st)).
  { rewrite !slice_from_drop by lia. exact Hdrop. }
  rewrite <- Hs.
  set (firstLine := findIndex _ (slice_from lines (cursor st))).
  destruct (Z.eqb_spec firstLine (-1)).
  - rewrite (IH lines lines' st); auto.
  - set (lastLine := findIndex _ _).
    destruct (Z.eqb_spec lastLine (-1)).
    + rewrite (IH lines lines' st); auto.
    + pose proof (findIndex_range (includes (fence +:+ delim))
                    (slice_from lines (cursor st))) as Hf.
      pose proof (findIndex_range (includes fence)
                    (slice_from (slice_from (slice_from lines (cursor st)) firstLine) 1))
        as Hl.
      fold firstLine in Hf. fold lastLine in Hl.
      apply IH; simpl; auto; [lia|].
      replace (Z.to_nat (cursor st + firstLine + lastLine + 2))
        with (Z.to_nat (cursor st) + Z.to_nat (firstLine + lastLine + 2))%nat by lia.
      rewrite <- !drop_drop. now rewrite Hdrop.
Qed.

(** What stands before the cursor is not looked at. *)
Lemma for_delimiters_before_cursor delims (before before' remaining : list string) found0 :
  length before = length before' ->
  for_delimiters (before ++ remaining) delims {| found := found0; cursor := len before |}
  = for_delimiters (before' ++ remaining) delims {| found := found0; cursor := len before |}.
Proof.
  intros Hlen. apply for_delimiters_remaining; simpl.
  - apply len_nonneg.
  - unfold len. rewrite Nat2Z.id. rewrite drop_app_length.
    rewrite Hlen. now rewrite drop_app_length.
  - rewrite !len_app. unfold len. lia.
Qed.

(** With the cursor past the last line the loop is left. *)
Lemma for_delimiters_past_end lines delims st :
  len lines <= cursor st -> for_delimiters lines delims st = ret st.
Proof.
  intros H. destruct delims as [|delim rest]; [reflexivity|].
  rewrite for_delimiters_cons.
  destruct (Z.leb_spec (len lines) (cursor st)); [reflexivity | lia].
Qed.

(** Checking [none_from] and [first_from] on given lines by evaluation. *)
Lemma none_from_check p lines from :
  0 <= from ->
  forallb (fun line => negb (p line)) (drop (Z.to_nat from) lines) = true ->
  none_from p lines from.
Proof.
  intros H0 Hall k line Hk [_ Hline]%at_index_Some.
  rewrite forallb_forall in Hall.
  apply negb_true_iff, Hall, list_elem_of_In, list_elem_of_lookup.
  exists (Z.to_nat k - Z.to_nat from)%nat. rewrite lookup_drop.
  rewrite <- Hline. f_equal. lia.
Qed.

Lemma first_from_check p lines from idx line :
  0 <= from <= idx ->
  at_index lines idx = Some line -> p line = true ->
  forallb (fun line => negb (p line))
          (take (Z.to_nat (idx - from)) (drop (Z.to_nat from) lines)) = true ->
  first_from p lines from idx.
Proof.
  intros H0 Hline Hp Hall. split; [lia|]. split; [now exists line|].
  intros k x Hk [_ Hx]%at_index_Some.
  rewrite forallb_forall in Hall.
  apply negb_true_iff, Hall, list_elem_of_In, list_elem_of_lookup.
  exists (Z.to_nat k - Z.to_nat from)%nat.
  rewrite lookup_take_lt by lia. rewrite lookup_drop.
  rewrite <- Hx. f_equal. lia.
Qed.

(** The steps of the loop of [extract.backticksMultiple], which takes the
    labels in the given order and moves a line cursor forward.
    - A label whose opening fence is on no line from the cursor on is
      skipped (with a warning): the loop goes on with the next label and the
      same state, cursor included.
    - A label whose opening fence is first found at line [o] from the cursor
      on, the next line after [o] with a fence being [c], is assigned the
      lines strictly between [o] and [c] joined with line feeds, untrimmed,
      and the loop goes on with the next label and the cursor at [c + 1].
    - The loop does not depend on the lines before the cursor: a block that
      stands there is not found by a later label.
    - With the cursor past the last line no label is looked for any more:
      the loop ends with the state as it is. *)
Theorem for_delimiters_forward_cursor :
  (forall lines delim rest st,
     0 <= cursor st < len lines ->
     none_from (includes (fence +:+ delim)) lines (cursor st) ->
     for_delimiters lines (delim :: rest) st
     = (let! _ := log (warn_no_opening delim) in for_delimiters lines rest st)) /\
  (forall lines delim rest st o c,
     0 <= cursor st ->
     first_from (includes (fence +:+ delim)) lines (cursor st) o ->
     first_from (includes fence) lines (o + 1) c ->
     for_delimiters lines (delim :: rest) st
     = for_delimiters lines rest
         {| found := obj_set delim (join nl (slice lines (o + 1) c)) (found st);
            cursor := c + 1 |}) /\
  (forall delims (before before' remaining : list string) found0,
     length before = length before' ->
     for_delimiters (before ++ remaining) delims
       {| found := found0; cursor := len before |}
     = for_delimiters (before' ++ remaining) delims
         {| found := found0; cursor := len before |}) /\
  (forall lines delims st,
     len lines <= cursor st -> for_delimiters lines delims st = ret st).
Proof.
  split; [exact for_delimiters_miss|].
  split; [exact for_delimiters_hit|].
  split; [exact for_delimiters_before_cursor | exact for_delimiters_past_end].
Qed.

(** The block labelled [b] stands before the block labelled [a]: asked for
    [a] then [b], the loop finds [a] and, past it, no [b]. *)
Lemma for_delimiters_forward_cursor_witness :
  for_delimiters ["```b"; "2"; "```"; "```a"; " 1"; "```"; "end"]%string
    ["a"; "b"]%string start
  = ([warn_no_opening "b"],
     Normal {| found := obj_set "a" " 1" ∅; cursor := 6 |}).
Proof.
  destruct for_delimiters_forward_cursor as (Hmiss & Hhit & _ & _).
  rewrite (Hhit _ "a"%string ["b"%string] start 3 5).
  - rewrite Hmiss; [reflexivity | simpl; unfold len; simpl; lia |].
    apply none_from_check; [simpl; lia | reflexivity].
  - simpl; lia.
  - eapply first_from_check; [simpl; lia | reflexivity | reflexivity | reflexivity].
  - eapply first_from_check; [simpl; lia | reflexivity | reflexivity | reflexivity].
Defined.

(** For a label other than [__proto__] the assignment creates or replaces
    the property of that name. *)
Lemma obj_set_lookup key v (o : gmap string string) :
  key <> "__proto__"%string -> obj_set key v o !! key = Some v.
Proof.
  intros Hkey. unfold obj_set.
  destruct (String.eqb_spec key "__proto__"); [contradiction|].
  apply lookup_insert_eq.
Qed.

Lemma obj_set_proto v (o : gmap string string) : obj_set "__proto__" v o = o.
Proof. reflexivity. Qed.

(** Blocks in the order of the labels: both are returned. *)
Example extractBackticksMultiple_in_order :
  outcome (extractBackticksMultiple
             (VStr (text_of ["```a"; "1"; "```"; "text"; "```b"; "2"; " 3"; "```"]%string))
             (Labels ["a"; "b"]%string))
  = Normal (Some (obj_set "b" (text_of ["2"; " 3"]%string) (obj_set "a" "1" ∅))).
Proof. vm_compute. reflexivity. Qed.

(** The block of the second label before the block of the first: only the
    first is returned. *)
Example extractBackticksMultiple_out_of_order :
  outcome (extractBackticksMultiple
             (VStr (text_of ["```b"; "2"; "```"; "```a"; "1"; "```"]%string))
             (Labels ["a"; "b"]%string))
  = Normal (Some (obj_set "a" "1" ∅)).
Proof. vm_compute. reflexivity. Qed.

(** The loop never throws. *)
Lemma for_delimiters_normal delims : forall lines st,
  exists st', outcome (for_delimiters lines delims st) = Normal st'.
Proof.
  induction delims as [|delim rest IH]; intros lines st.
  - exists st. reflexivity.
  - rewrite for_delimiters_cons. cbv zeta.
    destruct (len lines <=? cursor st); [exists st; reflexivity|].
    assert (Hskip : forall ev, exists st',
              outcome (let! _ := log ev in for_delimiters lines rest st) = Normal st').
    { intros ev. destruct (IH lines st) as [st' Hst']. exists st'.
      unfold bind, log. destruct (for_delimiters lines rest st). exact Hst'. }
    destruct (_ =? -1); [apply Hskip|].
    destruct (_ =? -1); [apply Hskip | apply IH].
Qed.

Lemma outcome_log_bind {A} (ev : event) (m : M A) :
  outcome (let! _ := log ev in m) = outcome m.
Proof. unfold bind, log. destruct m. reflexivity. Qed.

Lemma obj_set_keeps key delim v (o : gmap string string) :
  is_Some (o !! key) -> is_Some (obj_set delim v o !! key).
Proof.
  intros Hkey. unfold obj_set.
  destruct (String.eqb delim "__proto__"); [exact Hkey|].
  destruct (decide (delim = key)) as [->|Hne].
  - rewrite lookup_insert_eq. eauto.
  - now rewrite lookup_insert_ne.
Qed.

(** Properties are never removed from [found]. *)
Lemma for_delimiters_keeps delims : forall lines st key,
  is_Some (found st !! key) ->
  is_Some (found (final_state lines delims st) !! key).
Proof.
  unfold final_state.
  induction delims as [|delim rest IH]; intros lines st key Hkey.
  - exact Hkey.
  - rewrite for_delimiters_cons. cbv zeta.
    destruct (len lines <=? cursor st); [exact Hkey|].
    pose proof (IH lines st key Hkey) as Hskip.
    destruct (for_delimiters_normal rest lines st) as [st' Hst'].
    rewrite Hst' in Hskip.
    destruct (_ =? -1); [now rewrite outcome_log_bind, Hst'|].
    destruct (_ =? -1); [now rewrite outcome_log_bind, Hst'|].
    match goal with
    | |- context [for_delimiters lines rest ?st1] =>
        specialize (IH lines st1 key);
        destruct (for_delimiters_normal rest lines st1) as [st1' Hst1']
    end.
    rewrite Hst1' in *. apply IH. cbn [found]. now apply obj_set_keeps.
Qed.

(** A label other than [__proto__] whose block is found at its turn is a key
    of the final mapping. *)
Lemma for_delimiters_hit_kept lines delim rest st o c :
  delim <> "__proto__"%string ->
  0 <= cursor st ->
  first_from (includes (fence +:+ delim)) lines (cursor st) o ->
  first_from (includes fence) lines (o + 1) c ->
  is_Some (found (final_state lines (delim :: rest) st) !! delim).
Proof.
  intros Hd Hc Ho Hcl. unfold final_state.
  rewrite (for_delimiters_hit lines delim rest st o c Hc Ho Hcl).
  apply for_delimiters_keeps. simpl. rewrite obj_set_lookup by assumption. eauto.
Qed.

(** On a non-empty text and a non-empty array of labels the function returns
    the final mapping, or [null] when that mapping has no key. *)
Lemma extractBackticksMultiple_result input delims :
  input <> EmptyString -> delims <> [] ->
  outcome (extractBackticksMultiple (VStr input) (Labels delims))
  = let m := found (final_state (split LF input) delims start) in
    Normal (if 0 <? keys_length m then Some m else None).
Proof.
  intros Hin Hd. unfold extractBackticksMultiple.
  assert (E1 : falsy (VStr input) = false) by (destruct input; [congruence | reflexivity]).
  assert (E2 : (len (elements (Labels delims)) =? 0) = false).
  { destruct delims; [congruence|]. reflexivity. }
  rewrite E1, E2. simpl orb. cbv iota.
  unfold extractBackticksMultiple_try, call_split, final_state. simpl elements.
  destruct (for_delimiters_normal delims (split LF input) start) as [st' Hst'].
  fold start. unfold bind at 1. unfold ret at 1.
  destruct (for_delimiters (split LF input) delims start) as [out r].
  simpl in Hst'. subst r. reflexivity.
Qed.

Lemma keys_length_zero (m : gmap string string) :
  (0 <? keys_length m) = false <-> m = ∅.
Proof.
  unfold keys_length. rewrite Z.ltb_ge. rewrite <- map_size_empty_iff. lia.
Qed.

(** [null] is returned exactly on invalid arguments and on an empty final
    mapping; an empty object is never returned. *)
Lemma extractBackticksMultiple_null input delims :
  let invalid :=
    falsy (VStr input) || negb (isArray delims) || (len (elements delims) =? 0) in
  (outcome (extractBackticksMultiple (VStr input) delims) = Normal None <->
   invalid = true \/
   found (final_state (split LF input) (elements delims) start) = ∅) /\
  outcome (extractBackticksMultiple (VStr input) delims) <> Normal (Some ∅).
Proof.
  intros invalid. destruct invalid eqn:Hinv.
  - unfold extractBackticksMultiple. fold invalid. rewrite Hinv.
    split; [split; [now left | reflexivity] | discriminate].
  - subst invalid. apply orb_false_iff in Hinv as [Hinv Hlen].
    apply orb_false_iff in Hinv as [Hfalsy Harr].
    destruct delims as [v|delims]; [discriminate|]. simpl elements in *.
    rewrite extractBackticksMultiple_result.
    + cbv zeta. destruct (0 <? keys_length _) eqn:Hk.
      * split; [|intros [= H]; rewrite H in Hk; discriminate].
        split; [discriminate|]. intros [H|H]; [discriminate|].
        apply keys_length_zero in H. congruence.
      * split; [|discriminate]. split; [|reflexivity].
        intros _. right. now apply keys_length_zero.
    + destruct input; [discriminate | congruence].
    + destruct delims; [discriminate | congruence].
Qed.

(** A label other than [__proto__] that is found first gives a result that
    is not [null] and has that label as a key. *)
Lemma extractBackticksMultiple_first_label input delim rest o c :
  let lines := split LF input in
  delim <> "__proto__"%string ->
  first_from (includes (fence +:+ delim)) lines 0 o ->
  first_from (includes fence) lines (o + 1) c ->
  exists m, outcome (extractBackticksMultiple (VStr input) (Labels (delim :: rest)))
            = Normal (Some m) /\ is_Some (m !! delim).
Proof.
  intros lines Hd Ho Hc.
  assert (Hin : input <> EmptyString).
  { intros ->. destruct Hc as (Hle & (line & Hline & _) & _).
    destruct Ho as (Hle' & _). apply at_index_lt_len in Hline.
    unfold len in Hline. simpl in Hline. lia. }
  rewrite extractBackticksMultiple_result by (auto; discriminate). cbv zeta.
  pose proof (for_delimiters_hit_kept lines delim rest start o c Hd
                ltac:(simpl; lia) Ho Hc) as Hkept.
  fold lines. set (m := found _) in *. exists m. split; [|exact Hkept].
  destruct (0 <? keys_length m) eqn:Hk; [reflexivity|].
  apply keys_length_zero in Hk. rewrite Hk, lookup_empty in Hkept.
  now destruct Hkept.
Qed.

(** C6, at the label [__proto__].  The block of the label is found (opening
    fence on line 0, closing fence on line 2, cursor moved to 3), the
    assignment to [found] creates no property, and the function returns
    [null]. *)
Theorem extractBackticksMultiple_proto_label :
  let lines := ["```__proto__"; "body"; "```"]%string in
  first_from (includes (fence +:+ "__proto__")) lines 0 0 /\
  first_from (includes fence) lines 1 2 /\
  outcome (for_delimiters lines ["__proto__"%string] start)
  = Normal {| found := ∅; cursor := 3 |} /\
  outcome (extractBackticksMultiple (VStr (text_of lines)) (Labels ["__proto__"%string]))
  = Normal None.
Proof.
  cbv zeta. split; [|split; [|split; reflexivity]].
  - eapply first_from_check; [lia | reflexivity | reflexivity | reflexivity].
  - eapply first_from_check; [lia | reflexivity | reflexivity | reflexivity].
Qed.

(** C3, at the label [__proto__].  With the labels [__proto__] and [b], the
    block of the first label is found (opening fence on line 0, closing
    fence on line 2) and the cursor moves past it, the block of [b] being
    found after it; but the body of the first block is not stored: the
    mapping returned has no entry for [__proto__].  The defect is the one of
    C6: the assignment [found[delim] = body] on a plain object. *)
Theorem extractBackticksMultiple_proto_block_not_stored :
  let lines := ["```__proto__"; "body"; "```"; "```b"; "x"; "```"]%string in
  first_from (includes (fence +:+ "__proto__")) lines 0 0 /\
  first_from (includes fence) lines 1 2 /\
  join nl (slice lines 1 2) = "body"%string /\
  exists m,
    outcome (extractBackticksMultiple (VStr (text_of lines))
               (Labels ["__proto__"; "b"]%string))
    = Normal (Some m) /\
    m !! "__proto__"%string = None /\ m !! "b"%string = Some "x"%string.
Proof.
  intros lines.
  split; [eapply first_from_check; [cbn; lia | reflexivity | reflexivity | reflexivity]|].
  split; [eapply first_from_check; [cbn; lia | reflexivity | reflexivity | reflexivity]|].
  split; [reflexivity|].
  exists (obj_set "b" "x" ∅). split; [vm_compute; reflexivity|].
  split; [reflexivity|]. now apply obj_set_lookup.
Qed.

(** ** extract.decorators *)

Lemma visit_line_cases lines decorators line index :
  visit_line lines decorators line index
  = (if malformed line then [warn_invalid_decorator index] else [],
     Normal (decorators ++ match decorator_at lines index line with
                           | Some d => [d]
                           | None => []
                           end)).
Proof.
  unfold visit_line, malformed, decorator_at, window, pre, post.
  destruct (match_need line) as [[g1 g2]|].
  - destruct (is_empty (trim g1) || is_empty (trim g2)).
    + cbv beta iota delta [bind log ret]. now rewrite !app_nil_r.
    + reflexivity.
  - unfold ret. now rewrite app_nil_r.
Qed.

(** The loop with its accumulator computes [records_of] and [warnings_of]. *)
Lemma forEach_from_records lines rest : forall decorators index,
  forEach_from lines decorators index rest
  = (warnings_of index rest, Normal (decorators ++ records_of lines index rest)).
Proof.
  induction rest as [|line rest IH]; intros decorators index.
  - unfold forEach_from, ret. now rewrite app_nil_r.
  - cbn [forEach_from records_of warnings_of].
    rewrite visit_line_cases. unfold bind. rewrite IH.
    destruct (malformed line), (decorator_at lines index line);
      cbn [app]; rewrite <- ?app_assoc; reflexivity.
Qed.

Lemma extractCodeDecorators_string code :
  extractCodeDecorators (VStr code)
  = if is_empty code then
      ([ConsoleError tag_decorators (Error "> invalid : null or missing code input")],
       Normal [])
    else (warnings_of 0 (split LF code),
          Normal (records_of (split LF code) 0 (split LF code))).
Proof.
  unfold extractCodeDecorators. unfold falsy. cbn [truthy]. rewrite negb_involutive.
  destruct (is_empty code); [reflexivity|].
  unfold extractCodeDecorators_try, call_split, bind, ret.
  rewrite forEach_from_records. reflexivity.
Qed.

Lemma decorator_at_lineNumber lines index line d :
  decorator_at lines index line = Some d ->
  lineNumber d = index + 1 /\ malformed line = false /\ has_marker line = true.
Proof.
  unfold decorator_at, malformed, has_marker.
  destruct (match_need line) as [[g1 g2]|]; [|discriminate].
  destruct (is_empty (trim g1) || is_empty (trim g2)); [discriminate|].
  intros [= <-]. auto.
Qed.

Lemma records_of_In lines rest : forall index k line d,
  rest !! k = Some line -> decorator_at lines (index + Z.of_nat k) line = Some d ->
  In d (records_of lines index rest).
Proof.
  induction rest as [|x rest IH]; intros index k line d Hk Hd; [discriminate|].
  cbn [records_of]. destruct k as [|k].
  - injection Hk as ->. rewrite Z.add_0_r in Hd. rewrite Hd. now left.
  - cbn in Hk.
    assert (Hin : In d (records_of lines (index + 1) rest)).
    { apply (IH (index + 1) k line d Hk). rewrite <- Hd. f_equal. lia. }
    destruct (decorator_at lines index x); [now right | exact Hin].
Qed.

Lemma records_of_origin lines rest : forall index d,
  In d (records_of lines index rest) ->
  exists k line, rest !! k = Some line /\
                 decorator_at lines (index + Z.of_nat k) line = Some d.
Proof.
  induction rest as [|x rest IH]; intros index d Hin; [destruct Hin|].
  cbn [records_of] in Hin.
  assert (Hrest : In d (records_of lines (index + 1) rest) ->
                  exists k line, (x :: rest) !! k = Some line /\
                                 decorator_at lines (index + Z.of_nat k) line = Some d).
  { intros H. destruct (IH _ _ H) as (k & line & Hk & Hd).
    exists (S k), line. split; [exact Hk|]. rewrite <- Hd. f_equal. lia. }
  destruct (decorator_at lines index x) as [d'|] eqn:Hx; [|auto].
  destruct Hin as [<- | Hin]; [|auto].
  exists 0%nat, x. split; [reflexivity|]. now rewrite Z.add_0_r.
Qed.

Lemma records_of_after lines rest index d :
  In d (records_of lines index rest) -> index < lineNumber d.
Proof.
  intros (k & line & _ & Hd)%records_of_origin.
  apply decorator_at_lineNumber in Hd as [-> _]. lia.
Qed.

Lemma records_of_sorted lines rest : forall index,
  StronglySorted Z.lt (map lineNumber (records_of lines index rest)).
Proof.
  induction rest as [|x rest IH]; intros index; cbn [records_of]; [constructor|].
  destruct (decorator_at lines index x) as [d|] eqn:Hx; [|apply IH].
  cbn [map]. constructor; [apply IH|].
  apply List.Forall_forall. intros n Hn. apply in_map_iff in Hn as (d' & <- & Hd').
  apply records_of_after in Hd'.
  apply decorator_at_lineNumber in Hx as [-> _]. exact Hd'.
Qed.

Lemma records_of_length lines rest : forall index,
  length (records_of lines index rest)
  = (count_if has_marker rest - count_if malformed rest)%nat.
Proof.
  assert (Hle : forall l, (count_if malformed l <= count_if has_marker l)%nat).
  { induction l as [|x l IHl]; [reflexivity|]. unfold count_if in *. cbn [List.filter].
    unfold malformed at 1, has_marker at 1.
    destruct (match_need x) as [[g1 g2]|]; [|exact IHl].
    destruct (is_empty (trim g1) || is_empty (trim g2)); cbn [length]; lia. }
  induction rest as [|x rest IH]; intros index; [reflexivity|].
  cbn [records_of]. specialize (IH (index + 1)). specialize (Hle rest).
  unfold count_if in *. cbn [List.filter].
  unfold decorator_at, malformed at 1, has_marker at 1.
  destruct (match_need x) as [[g1 g2]|]; [|exact IH].
  destruct (is_empty (trim g1) || is_empty (trim g2)); cbn [length]; lia.
Qed.

Lemma warnings_of_In rest : forall index k line,
  rest !! k = Some line -> malformed line = true ->
  In (warn_invalid_decorator (index + Z.of_nat k)) (warnings_of index rest).
Proof.
  induction rest as [|x rest IH]; intros index k line Hk Hm; [discriminate|].
  cbn [warnings_of]. destruct k as [|k].
  - injection Hk as ->. rewrite Hm, Z.add_0_r. now left.
  - cbn in Hk.
    assert (Hin : In (warn_invalid_decorator (index + Z.of_nat (S k)))
                     (warnings_of (index + 1) rest)).
    { replace (index + Z.of_nat (S k)) with (index + 1 + Z.of_nat k) by lia.
      now apply (IH _ _ line). }
    destruct (malformed x); [now right | exact Hin].
Qed.

Lemma warnings_of_origin rest : forall index j,
  In (warn_invalid_decorator j) (warnings_of index rest) ->
  exists k line, rest !! k = Some line /\ j = index + Z.of_nat k /\
                 malformed line = true.
Proof.
  induction rest as [|x rest IH]; intros index j Hin; [destruct Hin|].
  cbn [warnings_of] in Hin.
  assert (Hrest : In (warn_invalid_decorator j) (warnings_of (index + 1) rest) ->
                  exists k line, (x :: rest) !! k = Some line /\
                                 j = index + Z.of_nat k /\ malformed line = true).
  { intros H. destruct (IH _ _ H) as (k & line & Hk & -> & Hm).
    exists (S k), line. repeat split; auto. lia. }
  destruct (malformed x) eqn:Hx; [|auto].
  destruct Hin as [Heq | Hin]; [|auto].
  exists 0%nat, x. repeat split; auto.
  unfold warn_invalid_decorator in Heq. injection Heq as Heq. lia.
Qed.

(** A marker without description: the pattern does not match, nothing is
    logged, nothing is recorded. *)
Example extractCodeDecorators_no_description :
  extractCodeDecorators (VStr "@need:api:") = ([], Normal []).
Proof. reflexivity. Qed.

(** The warning fails to come for a marker whose description is missing
    altogether. *)
Lemma blank_marker_warned_fails : ~ blank_marker_warned.
Proof.
  intros H.
  specialize (H "@need:api:"%string 0 "@need:api:"%string "api"%string EmptyString).
  destruct H; [reflexivity | | now right].
  exists EmptyString. split; reflexivity.
Qed.

(** ** edit.genUi: the filter *)

Lemma filter_line_category genUi line :
  filter_line genUi line
  = match category_of line with
    | Some c => (collect c line genUi, false)
    | None => (genUi, true)
    end.
Proof.
  unfold filter_line, category_of.
  destruct (is_empty line); [reflexivity|].
  destruct (includes (token Sections) line); [reflexivity|].
  destruct (includes (token Views) line); reflexivity.
Qed.

Lemma get_set_ids c v genUi : get_ids c (set_ids c v genUi) = v.
Proof. now destruct c. Qed.

Lemma get_set_ids_other c c' v genUi :
  c <> c' -> get_ids c' (set_ids c v genUi) = get_ids c' genUi.
Proof. destruct c, c'; intros H; try reflexivity; now destruct H. Qed.

Lemma collect_cases c line genUi :
  collect c line genUi
  = match get_ids c genUi, second_token line with
    | None, None => set_ids c (Some []) genUi
    | None, Some id => set_ids c (Some (new_Set [id])) (set_ids c (Some []) genUi)
    | Some collected, None => genUi
    | Some collected, Some id => set_ids c (Some (new_Set (collected ++ [id]))) genUi
    end.
Proof.
  unfold collect, second_token.
  destruct (get_ids c genUi) as [collected|] eqn:Hg.
  - rewrite Hg. destruct (at_index (split SPACE line) 1) as [id|]; [|reflexivity].
    destruct (is_empty id); reflexivity.
  - rewrite get_set_ids.
    destruct (at_index (split SPACE line) 1) as [id|]; [|reflexivity].
    destruct (is_empty id); reflexivity.
Qed.

Lemma collect_is_Some c line genUi : is_Some (get_ids c (collect c line genUi)).
Proof.
  rewrite collect_cases.
  destruct (get_ids c genUi) eqn:Hg, (second_token line);
    rewrite ?get_set_ids, ?Hg; eauto.
Qed.

Lemma collect_other c c' line genUi :
  c <> c' -> get_ids c' (collect c line genUi) = get_ids c' genUi.
Proof.
  intros Hne. rewrite collect_cases.
  destruct (get_ids c genUi), (second_token line);
    rewrite ?get_set_ids_other by assumption; reflexivity.
Qed.

Lemma category_eq_dec (c c' : category) : {c = c'} + {c <> c'}.
Proof. decide equality. Qed.

(** A field of [genUi], once an array, stays one. *)
Lemma filter_line_keeps_Some c genUi line :
  is_Some (get_ids c genUi) -> is_Some (get_ids c (fst (filter_line genUi line))).
Proof.
  intros H. rewrite filter_line_category.
  destruct (category_of line) as [c'|]; [|exact H]. cbn [fst].
  destruct (category_eq_dec c' c) as [->|Hne].
  - apply collect_is_Some.
  - now rewrite collect_other.
Qed.

Lemma filter_lines_cons genUi line rest :
  filter_lines genUi (line :: rest)
  = (fst (filter_lines (fst (filter_line genUi line)) rest),
     if snd (filter_line genUi line)
     then line :: snd (filter_lines (fst (filter_line genUi line)) rest)
     else snd (filter_lines (fst (filter_line genUi line)) rest)).
Proof.
  cbn [filter_lines]. destruct (filter_line genUi line) as [g keep].
  cbn [fst snd]. destruct (filter_lines g rest). reflexivity.
Qed.

Lemma filter_lines_keeps_Some c lines : forall genUi,
  is_Some (get_ids c genUi) -> is_Some (get_ids c (fst (filter_lines genUi lines))).
Proof.
  induction lines as [|line rest IH]; intros genUi H; [exact H|].
  rewrite filter_lines_cons. cbn [fst]. apply IH. now apply filter_line_keeps_Some.
Qed.

(** A reference line of category [c] turns the field of [c] into an array. *)
Lemma filter_lines_reference c line lines : forall genUi,
  In line lines -> category_of line = Some c ->
  is_Some (get_ids c (fst (filter_lines genUi lines))).
Proof.
  induction lines as [|x rest IH]; intros genUi Hin Hc; [destruct Hin|].
  rewrite filter_lines_cons. cbn [fst]. destruct Hin as [-> | Hin].
  - apply filter_lines_keeps_Some. rewrite filter_line_category, Hc. cbn [fst].
    apply collect_is_Some.
  - now apply IH.
Qed.

(** The lines that pass are those that take no branch. *)
Lemma filter_lines_kept lines : forall genUi,
  snd (filter_lines genUi lines) = List.filter is_kept lines.
Proof.
  induction lines as [|x rest IH]; intros genUi; [reflexivity|].
  rewrite filter_lines_cons. cbn [snd List.filter]. rewrite IH.
  rewrite filter_line_category. unfold is_kept.
  destruct (category_of x); reflexivity.
Qed.

(** When no reference line of [c] has an identifier the field of [c] does not
    grow. *)
Lemma filter_lines_no_identifier c lines : forall genUi,
  (forall l, In l lines -> category_of l = Some c -> second_token l = None) ->
  get_ids c genUi = None \/ get_ids c genUi = Some [] ->
  get_ids c (fst (filter_lines genUi lines)) = None \/
  get_ids c (fst (filter_lines genUi lines)) = Some [].
Proof.
  induction lines as [|x rest IH]; intros genUi Hno Hg; [exact Hg|].
  rewrite filter_lines_cons. cbn [fst].
  apply IH; [intros l Hl; apply Hno; now right|].
  rewrite filter_line_category.
  destruct (category_of x) as [c'|] eqn:Hx; [|exact Hg]. cbn [fst].
  destruct (category_eq_dec c' c) as [->|Hne].
  - rewrite collect_cases, (Hno x (or_introl eq_refl) Hx).
    destruct Hg as [Hg|Hg]; rewrite Hg; [|now right].
    rewrite get_set_ids. now right.
  - now rewrite collect_other.
Qed.

(** Without reference lines the filter changes nothing. *)
Lemma filter_lines_no_reference lines : forall genUi,
  (forall l, In l lines -> category_of l = None) ->
  filter_lines genUi lines = (genUi, lines).
Proof.
  induction lines as [|x rest IH]; intros genUi Hno; [reflexivity|].
  rewrite filter_lines_cons, filter_line_category.
  rewrite (Hno x (or_introl eq_refl)). cbn [fst snd].
  rewrite IH by (intros l Hl; apply Hno; now right). reflexivity.
Qed.

Lemma editGenUi_string input :
  input <> EmptyString ->
  editGenUi (VStr input)
  = ([], Normal {| tsx := VStr (rewrite_category Views (collected_ids input)
                                 (rewrite_category Sections (collected_ids input)
                                    (join nl (kept_lines input))));
                   ids := collected_ids input |}).
Proof.
  intros Hin. unfold editGenUi, falsy. cbn [truthy].
  apply is_empty_false in Hin. rewrite Hin. cbn [negb].
  unfold editGenUi_try, call_split, collected_ids, kept_lines.
  cbv beta iota delta [bind ret].
  destruct (filter_lines no_ids (split LF input)) as [genUi kept]. reflexivity.
Qed.

(** A text without reference lines is returned as it is, with both fields of
    [ids] false. *)
Lemma editGenUi_no_reference input :
  (forall l, In l (split LF input) -> category_of l = None) ->
  outcome (editGenUi (VStr input)) = Normal {| tsx := VStr input; ids := no_ids |}.
Proof.
  intros Hno. destruct input as [|c input]; [reflexivity|].
  rewrite editGenUi_string by discriminate.
  unfold collected_ids, kept_lines. rewrite filter_lines_no_reference by assumption.
  cbn [fst snd outcome]. unfold rewrite_category. cbn [get_ids no_ids sections views].
  now rewrite join_split.
Qed.

(** ** edit.genUi: the substitution *)

Section AppendFacts.
Implicit Types (a b c p str : string) (x y : ascii).

Lemma str_app_cons x a b : String x a +:+ b = String x (a +:+ b).
Proof. reflexivity. Qed.

Lemma str_app_assoc a b c : (a +:+ b) +:+ c = a +:+ (b +:+ c).
Proof.
  induction a as [|x a IH]; [reflexivity|]. rewrite !str_app_cons. now rewrite IH.
Qed.

Lemma str_app_nil_r a : a +:+ EmptyString = a.
Proof.
  induction a as [|x a IH]; [reflexivity|]. rewrite str_app_cons. now rewrite IH.
Qed.

Lemma prefix_cons_neq x y p str :
  x <> y -> String.prefix (String x p) (String y str) = false.
Proof.
  intros H. cbn [String.prefix]. destruct (ascii_dec x y); [contradiction | reflexivity].
Qed.

End AppendFacts.

(** A pattern that starts with [<] matches nowhere in a prefix without [<]:
    the prefix is copied. *)
Lemma replaceAll_from_keeps_prefix p : forall before id tpl rest,
  no_char LT p = true ->
  replaceAll_from (String LT id) tpl before 0 (p +:+ rest)
  = p +:+ replaceAll_from (String LT id) tpl (before +:+ p) 0 rest.
Proof.
  induction p as [|x p IH]; intros before id tpl rest Hp.
  - now rewrite str_app_nil_r.
  - cbn [no_char] in Hp. apply andb_true_iff in Hp as [Hx Hp].
    rewrite !str_app_cons. cbn [replaceAll_from].
    rewrite prefix_cons_neq.
    + rewrite IH by assumption. rewrite str_app_assoc. reflexivity.
    + intros <-. unfold LT in Hx. now rewrite Ascii.eqb_refl in Hx.
Qed.

Lemma substitute_keeps_prefix c p rest id :
  no_char LT p = true ->
  exists rest', substitute c (p +:+ rest) id = p +:+ rest'.
Proof.
  intros Hp. unfold substitute, replaceAll.
  change ("<" +:+ id) with (String LT id).
  rewrite replaceAll_from_keeps_prefix by assumption. eauto.
Qed.

Lemma fold_substitute_keeps_prefix c p collected : forall rest,
  no_char LT p = true ->
  exists rest', fold_left (substitute c) collected (p +:+ rest) = p +:+ rest'.
Proof.
  induction collected as [|id collected IH]; intros rest Hp; [now exists rest|].
  cbn [fold_left].
  destruct (substitute_keeps_prefix c p rest id Hp) as [rest1 ->]. now apply IH.
Qed.

(** After its branch a category with an array has its import line in front. *)
Lemma rewrite_category_import c genUi collected newTsx :
  get_ids c genUi = Some collected ->
  exists after, rewrite_category c genUi newTsx = import_line c +:+ nl +:+ after.
Proof.
  intros Hg. unfold rewrite_category. rewrite Hg.
  destruct (fold_substitute_keeps_prefix c (import_line c +:+ nl) collected newTsx)
    as [after Hafter]; [now destruct c|].
  exists after. rewrite !str_app_assoc in Hafter. exact Hafter.
Qed.

(** The branch of views leaves the import line of sections where it is. *)
Lemma rewrite_views_keeps_import genUi after :
  exists before after',
    rewrite_category Views genUi (import_line Sections +:+ nl +:+ after)
    = before +:+ import_line Sections +:+ nl +:+ after' /\
    (before = EmptyString \/ before = import_line Views +:+ nl).
Proof.
  unfold rewrite_category. destruct (get_ids Views genUi) as [collected|].
  - destruct (fold_substitute_keeps_prefix Views
                (import_line Views +:+ nl +:+ import_line Sections +:+ nl)
                collected after) as [after' Hafter]; [reflexivity|].
    exists (import_line Views +:+ nl), after'. split; [|now right].
    rewrite !str_app_assoc in Hafter. exact Hafter.
  - exists EmptyString, after. split; [reflexivity | now left].
Qed.

(** It fails when another reference line of the category gives an
    identifier: the array is not empty. *)
Lemma reference_without_identifier_gives_empty_fails :
  ~ reference_without_identifier_gives_empty.
Proof.
  intros H.
  destruct (H (text_of ["import Hero '@/components/sections/Hero'";
                        "@/components/sections/"; "<Hero/>"]%string)
              "@/components/sections/"%string Sections)
    as (result & Hresult & Hids).
  - right. left. reflexivity.
  - reflexivity.
  - reflexivity.
  - vm_compute in Hresult. injection Hresult as <-. discriminate Hids.
Qed.

(** A reference line made of the token alone. *)
Example editGenUi_token_alone :
  outcome (editGenUi (VStr (text_of ["@/components/sections/"; "<a>"]%string)))
  = Normal {| tsx := VStr (text_of ["import GenUiSection from '@/p0/genui/GenUiSection';";
                                    "<a>"]%string);
              ids := {| sections := Some []; views := None |} |}.
Proof. reflexivity. Qed.

(** ** edit.genUi run on its own output *)

(** C5, at [dollar_source].  In the replacement text [$'] stands for what
    follows the match, so the first run writes the token of sections into
    its output; run on that output, [edit.genUi] finds a reference line,
    returns [ids.sections] as an array and a different text. *)
Theorem editGenUi_dollar_not_idempotent :
  outcome (editGenUi (VStr dollar_source))
  = Normal {| tsx := VStr dollar_output;
              ids := {| sections := Some ["@/components/s$'"%string]; views := None |} |} /\
  outcome (editGenUi (VStr dollar_output))
  = Normal {| tsx := VStr (text_of [import_line Sections; import_line Sections]);
              ids := {| sections :=
                          Some ["id=" +:+ quoted "@/components/sections/" +:+ "ections/"];
                        views := None |} |} /\
  outcome (editGenUi (VStr dollar_output))
  <> Normal {| tsx := VStr dollar_output; ids := no_ids |}.
Proof.
  split; [reflexivity|]. split; [reflexivity|]. discriminate.
Qed.

(** *** Identifiers without a dollar sign *)

Section OccurrenceFacts.
Implicit Types (needle u v p str : string) (x y : ascii).

Lemma no_char_app x u v : no_char x (u +:+ v) = no_char x u && no_char x v.
Proof.
  induction u as [|y u IH]; [reflexivity|].
  rewrite str_app_cons. cbn [no_char]. rewrite IH. apply andb_assoc.
Qed.

Lemma includes_cons needle y str :
  includes needle (String y str)
  = String.prefix needle (String y str) || includes needle str.
Proof. reflexivity. Qed.

Lemma includes_nil needle :
  includes needle EmptyString = String.prefix needle EmptyString.
Proof. cbn [includes]. apply orb_false_r. Qed.

Lemma includes_false_prefix needle str :
  includes needle str = false -> String.prefix needle str = false.
Proof.
  destruct str; [rewrite includes_nil | rewrite includes_cons]; intros H; auto.
  now apply orb_false_iff in H.
Qed.

Lemma includes_false_tail needle y str :
  includes needle (String y str) = false -> includes needle str = false.
Proof. rewrite includes_cons. intros H. now apply orb_false_iff in H. Qed.

Lemma includes_false_drop needle n : forall str,
  includes needle str = false -> includes needle (drop_chars n str) = false.
Proof.
  induction n as [|n IH]; intros str H; [exact H|].
  destruct str as [|y str]; [exact H|]. cbn [drop_chars].
  apply IH. now apply includes_false_tail in H.
Qed.

Lemma prefix_nil_r needle :
  String.prefix needle EmptyString = is_empty needle.
Proof. now destruct needle. Qed.

Lemma prefix_nil_l str : String.prefix EmptyString str = true.
Proof. now destruct str. Qed.

Lemma prefix_cons_cons x y u str :
  String.prefix (String x u) (String y str)
  = if ascii_dec x y then String.prefix u str else false.
Proof. reflexivity. Qed.

(** A needle without [x] does not reach beyond an [x]. *)
Lemma prefix_barrier x needle : forall u v,
  no_char x needle = true ->
  String.prefix needle (u +:+ String x v) = String.prefix needle u.
Proof.
  induction needle as [|a needle IH]; intros u v Hn.
  - now rewrite !prefix_nil_l.
  - cbn [no_char] in Hn. apply andb_true_iff in Hn as [Ha Hn].
    destruct u as [|y u].
    + change (EmptyString +:+ String x v) with (String x v).
      rewrite prefix_cons_cons. destruct (ascii_dec a x) as [->|]; [|reflexivity].
      now rewrite Ascii.eqb_refl in Ha.
    + rewrite str_app_cons, !prefix_cons_cons.
      destruct (ascii_dec a y); [now apply IH | reflexivity].
Qed.

Lemma includes_barrier x needle u v :
  no_char x needle = true ->
  includes needle (u +:+ String x v) = includes needle u || includes needle v.
Proof.
  intros Hn. induction u as [|y u IH].
  - change (EmptyString +:+ String x v) with (String x v).
    rewrite includes_cons, includes_nil.
    now rewrite <- (prefix_barrier x needle EmptyString v Hn).
  - rewrite str_app_cons, !includes_cons, IH.
    rewrite <- str_app_cons, prefix_barrier by assumption.
    now rewrite orb_assoc.
Qed.

Lemma prefix_upto x needle : forall str,
  no_char x needle = true ->
  String.prefix needle str = String.prefix needle (upto x str).
Proof.
  induction needle as [|a needle IH]; intros str Hn.
  - now rewrite !prefix_nil_l.
  - cbn [no_char] in Hn. apply andb_true_iff in Hn as [Ha Hn].
    destruct str as [|y str]; [reflexivity|]. cbn [upto].
    destruct (Ascii.eqb_spec y x) as [->|Hy].
    + rewrite !prefix_cons_cons. destruct (ascii_dec a x) as [->|]; [|reflexivity].
      now rewrite Ascii.eqb_refl in Ha.
    + rewrite !prefix_cons_cons. destruct (ascii_dec a y); [now apply IH | reflexivity].
Qed.

Lemma prefix_split p : forall str,
  String.prefix p str = true -> exists rest, str = p +:+ rest.
Proof.
  induction p as [|a p IH]; intros str H; [now exists str|].
  destruct str as [|y str]; [discriminate|].
  rewrite prefix_cons_cons in H. destruct (ascii_dec a y) as [->|]; [|discriminate].
  destruct (IH _ H) as [rest ->]. now exists rest.
Qed.

Lemma prefix_app_l needle : forall u v,
  String.prefix needle u = true -> String.prefix needle (u +:+ v) = true.
Proof.
  induction needle as [|a needle IH]; intros u v H; [apply prefix_nil_l|].
  destruct u as [|y u]; [discriminate|].
  rewrite str_app_cons, prefix_cons_cons in *.
  destruct (ascii_dec a y); [now apply IH | discriminate].
Qed.

Lemma includes_app_l needle u v :
  includes needle u = true -> includes needle (u +:+ v) = true.
Proof.
  induction u as [|y u IH]; intros H.
  - rewrite includes_nil in H. destruct needle; [|discriminate].
    change (EmptyString +:+ v) with v. destruct v; reflexivity.
  - rewrite str_app_cons, includes_cons. rewrite includes_cons in H.
    apply orb_true_iff in H as [H|H]; apply orb_true_iff.
    + left. rewrite <- str_app_cons. now apply prefix_app_l.
    + right. now apply IH.
Qed.

(** Joined lines contain a needle without line feed exactly when one of
    them does. *)
Lemma includes_join needle (l : list string) :
  no_char LF needle = true -> is_empty needle = false ->
  includes needle (join nl l) = existsb (includes needle) l.
Proof.
  intros Hn Hne. induction l as [|a l IH].
  - cbn [join existsb]. now rewrite includes_nil, prefix_nil_r.
  - destruct l as [|b l].
    + cbn [join existsb]. now rewrite orb_false_r.
    + change (join nl (a :: b :: l)) with (a +:+ String LF (join nl (b :: l))).
      rewrite includes_barrier by assumption. now rewrite IH.
Qed.

Lemma includes_line needle line str :
  no_char LF needle = true -> is_empty needle = false ->
  In line (split LF str) -> includes needle str = false ->
  includes needle line = false.
Proof.
  intros Hn Hne Hin Hstr. rewrite <- (join_split str) in Hstr.
  rewrite includes_join in Hstr by assumption.
  destruct (includes needle line) eqn:Hl; [|reflexivity].
  assert (existsb (includes needle) (split LF str) = true); [|congruence].
  apply existsb_exists. eauto.
Qed.

End OccurrenceFacts.

Section LiteralReplacement.
Implicit Types (pat tpl before rest needle id : string).

(** Replacement text without a dollar sign stands for itself. *)
Lemma getSubstitution_literal matched before after tpl :
  no_char DOLLAR tpl = true -> getSubstitution matched before after tpl = tpl.
Proof.
  induction tpl as [|x tpl IH]; intros H; [reflexivity|].
  cbn [no_char] in H. apply andb_true_iff in H as [Hx H].
  cbn [getSubstitution]. unfold is_char. fold DOLLAR.
  apply negb_true_iff in Hx. rewrite Hx. now rewrite IH.
Qed.

Lemma replaceAll_from_before pat tpl :
  no_char DOLLAR tpl = true ->
  forall rest skip before before',
    replaceAll_from pat tpl before skip rest
    = replaceAll_from pat tpl before' skip rest.
Proof.
  intros Htpl. induction rest as [|x rest IH]; intros skip before before';
    [reflexivity|].
  cbn [replaceAll_from]. destruct skip as [|skip]; [|apply IH].
  destruct (String.prefix pat (String x rest)).
  - rewrite !getSubstitution_literal by assumption. f_equal. apply IH.
  - f_equal. apply IH.
Qed.

Lemma replaceAll_from_skip pat tpl :
  no_char DOLLAR tpl = true ->
  forall skip rest before,
    replaceAll_from pat tpl before skip rest
    = replaceAll_from pat tpl before 0 (drop_chars skip rest).
Proof.
  intros Htpl. induction skip as [|skip IH]; intros rest before; [reflexivity|].
  destruct rest as [|x rest]; [reflexivity|].
  cbn [replaceAll_from drop_chars]. rewrite IH.
  now apply replaceAll_from_before.
Qed.

Lemma length_drop_chars n : forall str,
  (String.length (drop_chars n str) <= String.length str - n)%nat.
Proof.
  induction n as [|n IH]; intros str; [cbn [drop_chars]; lia|].
  destruct str as [|x str]; [cbn; lia|]. cbn [drop_chars String.length].
  specialize (IH str). lia.
Qed.

(** The heart of the matter.  [needle] has neither [<] nor a double quote
    and does not occur in [wrapper id=]; replacing the occurrences of [<id]
    by [<wrapper id="id"] in a text without [needle] gives a text without
    [needle], with the same characters up to the first [<]. *)
Lemma replaceAll_from_free needle wrap id :
  let pat := String LT id in
  let tpl := String LT (wrap +:+ " id=" +:+ quoted id) in
  no_char LT needle = true -> no_char DQUOTE needle = true ->
  is_empty needle = false ->
  no_char DOLLAR tpl = true ->
  includes needle (wrap +:+ " id=") = false ->
  forall n rest before,
    (String.length rest <= n)%nat ->
    includes needle rest = false ->
    includes needle (replaceAll_from pat tpl before 0 rest) = false /\
    upto LT (replaceAll_from pat tpl before 0 rest) = upto LT rest.
Proof.
  intros pat tpl Hlt Hdq Hne Htpl Hwrap.
  induction n as [|n IH]; intros rest before Hlen Hfree.
  { destruct rest; [|cbn in Hlen; lia]. split; [exact Hfree | reflexivity]. }
  destruct rest as [|x rest]; [split; [exact Hfree | reflexivity]|].
  cbn [replaceAll_from].
  destruct (String.prefix pat (String x rest)) eqn:Hp.
  - rewrite getSubstitution_literal by assumption.
    rewrite replaceAll_from_skip by assumption.
    assert (x = LT) as ->.
    { unfold pat in Hp. rewrite prefix_cons_cons in Hp.
      now destruct (ascii_dec LT x). }
    set (tail := replaceAll_from pat tpl _ 0 _).
    assert (Htail : includes needle tail = false).
    { apply IH.
      - pose proof (length_drop_chars (String.length pat - 1) rest).
        cbn [String.length] in Hlen. lia.
      - apply includes_false_drop. now apply includes_false_tail in Hfree. }
    assert (Hid : includes needle id = false).
    { destruct (includes needle id) eqn:E; [|reflexivity].
      destruct (prefix_split _ _ Hp) as [rest' Hrest].
      unfold pat in Hrest. rewrite Hrest in Hfree.
      rewrite str_app_cons, includes_cons in Hfree.
      apply orb_false_iff in Hfree as [_ Hfree].
      now rewrite includes_app_l in Hfree. }
    split; [|reflexivity].
    unfold tpl, quoted. rewrite str_app_cons.
    change (String LT ((wrap +:+ " id=" +:+ String DQUOTE (id +:+ String DQUOTE EmptyString))
                       +:+ tail))
      with (EmptyString +:+
            String LT ((wrap +:+ " id=" +:+ String DQUOTE (id +:+ String DQUOTE EmptyString))
                       +:+ tail)).
    rewrite includes_barrier by assumption.
    rewrite includes_nil, prefix_nil_r, Hne. cbn [orb].
    rewrite <- (str_app_assoc wrap), str_app_assoc.
    rewrite str_app_cons. rewrite includes_barrier by assumption.
    rewrite Hwrap. cbn [orb].
    rewrite str_app_assoc, str_app_cons. change (EmptyString +:+ tail) with tail.
    rewrite includes_barrier by assumption. now rewrite Hid, Htail.
  - destruct (IH rest (before +:+ String x EmptyString)) as [Hfree' Hupto].
    { cbn [String.length] in Hlen. lia. }
    { now apply includes_false_tail in Hfree. }
    split.
    + rewrite includes_cons, Hfree', orb_false_r.
      rewrite (prefix_upto LT) by assumption. cbn [upto]. rewrite Hupto.
      change (if Ascii.eqb x LT then String LT EmptyString else String x (upto LT rest))
        with (upto LT (String x rest)).
      rewrite <- prefix_upto by assumption.
      now apply includes_false_prefix.
    + cbn [upto]. now rewrite Hupto.
Qed.

End LiteralReplacement.

Lemma token_facts c :
  no_char LT (token c) = true /\ no_char DQUOTE (token c) = true /\
  no_char LF (token c) = true /\ is_empty (token c) = false.
Proof. destruct c; repeat split; reflexivity. Qed.

Lemma category_none_free line :
  category_of line = None <-> reference_free line.
Proof.
  unfold category_of, reference_free. split.
  - intros H c. destruct line as [|x line]; [now destruct c|].
    cbn [is_empty] in H.
    destruct (includes (token Sections) (String x line)) eqn:Hs; [discriminate|].
    destruct (includes (token Views) (String x line)) eqn:Hv; [discriminate|].
    now destruct c.
  - intros H. rewrite (H Sections), (H Views). now destruct (is_empty line).
Qed.

Lemma reference_free_lines str :
  reference_free str -> forall l, In l (split LF str) -> category_of l = None.
Proof.
  intros H l Hl. apply category_none_free. intros c.
  destruct (token_facts c) as (_ & _ & Hlf & Hne).
  now apply (includes_line (token c) l str).
Qed.

Lemma reference_free_kept input : reference_free (join nl (kept_lines input)).
Proof.
  intros c. destruct (token_facts c) as (_ & _ & Hlf & Hne).
  rewrite includes_join by assumption.
  destruct (existsb _ _) eqn:E; [|reflexivity].
  apply existsb_exists in E as (l & Hl & Hinc).
  unfold kept_lines in Hl. rewrite filter_lines_kept in Hl.
  apply filter_In in Hl as [_ Hk]. unfold is_kept in Hk.
  destruct (category_of l) eqn:Hc; [discriminate|].
  apply category_none_free in Hc. now rewrite Hc in Hinc.
Qed.

Lemma reference_free_import c str :
  reference_free str -> reference_free (import_line c +:+ nl +:+ str).
Proof.
  intros H c'. destruct (token_facts c') as (_ & _ & Hlf & _).
  change (import_line c +:+ nl +:+ str) with (import_line c +:+ String LF str).
  rewrite includes_barrier by assumption. rewrite (H c').
  now destruct c, c'.
Qed.

Lemma reference_free_substitute c id str :
  no_char DOLLAR id = true ->
  reference_free str -> reference_free (substitute c str id).
Proof.
  intros Hid H c'. destruct (token_facts c') as (Hlt & Hdq & _ & Hne).
  unfold substitute, replaceAll.
  change ("<" +:+ id) with (String LT id).
  change ("<" +:+ wrapper c +:+ " id=" +:+ quoted id)
    with (String LT (wrapper c +:+ " id=" +:+ quoted id)).
  apply (replaceAll_from_free (token c') (wrapper c) id Hlt Hdq Hne)
    with (n := String.length str); auto.
  - cbn [no_char]. unfold quoted.
    rewrite !no_char_app. cbn [no_char]. rewrite no_char_app, Hid.
    now destruct c.
  - now destruct c, c'.
Qed.

Lemma reference_free_rewrite c genUi str :
  (forall collected id, get_ids c genUi = Some collected -> In id collected ->
                        no_char DOLLAR id = true) ->
  reference_free str -> reference_free (rewrite_category c genUi str).
Proof.
  intros Hids H. unfold rewrite_category.
  destruct (get_ids c genUi) as [collected|]; [|exact H].
  specialize (fun id => Hids collected id eq_refl). apply (reference_free_import c) in H.
  revert H. generalize (import_line c +:+ nl +:+ str).
  induction collected as [|id collected IH]; intros str' H; [exact H|].
  cbn [fold_left]. apply IH.
  - intros id' Hin. apply Hids. now right.
  - apply reference_free_substitute; [|exact H].
    apply Hids. now left.
Qed.

(** When no collected identifier has a dollar sign, a second run returns the
    output of the first as it is, with both fields of [ids] false. *)
Lemma editGenUi_idempotent_without_dollar input first :
  (forall c collected id,
     get_ids c (collected_ids input) = Some collected -> In id collected ->
     no_char DOLLAR id = true) ->
  outcome (editGenUi (VStr input)) = Normal first ->
  outcome (editGenUi (tsx first)) = Normal {| tsx := tsx first; ids := no_ids |}.
Proof.
  intros Hids. destruct input as [|x input]; [now intros [= <-]|].
  rewrite editGenUi_string by discriminate. cbn [outcome snd]. intros [= <-].
  cbn [tsx]. apply editGenUi_no_reference, reference_free_lines.
  apply reference_free_rewrite; [apply Hids|].
  apply reference_free_rewrite; [apply Hids|].
  apply reference_free_kept.
Qed.

Example editGenUi_twice :
  let input :=
    text_of ["import Hero from '@/components/sections/Hero'";
             "import Card from '@/components/views/Card'";
             "<Hero a/>"; "<Card/><Hero>"]%string in
  exists first,
    outcome (editGenUi (VStr input)) = Normal first /\
    ids first = {| sections := Some ["Hero"%string]; views := Some ["Card"%string] |} /\
    outcome (editGenUi (tsx first)) = Normal {| tsx := tsx first; ids := no_ids |}.
Proof.
  intros input. eexists. split; [reflexivity|]. split; [reflexivity|].
  apply (editGenUi_idempotent_without_dollar input); [|reflexivity].
  intros c collected id Hc Hid. destruct c; injection Hc as <-;
    destruct Hid as [<- | []]; reflexivity.
Qed.

(** ** The marker pattern *)

Section MarkerPattern.
Implicit Types (p : ascii -> bool) (str line : string).

Lemma span_app p str : str = fst (span p str) +:+ snd (span p str).
Proof.
  induction str as [|x str IH]; [reflexivity|]. cbn [span].
  destruct (p x); [|reflexivity].
  destruct (span p str) as [run rest]. cbn [fst snd] in *.
  now rewrite str_app_cons, <- IH.
Qed.

Lemma span_run p str : all_chars p (fst (span p str)) = true.
Proof.
  induction str as [|x str IH]; [reflexivity|]. cbn [span].
  destruct (p x) eqn:Hx; [|reflexivity].
  destruct (span p str) as [run rest]. cbn [fst all_chars] in *.
  now rewrite Hx, IH.
Qed.

Lemma span_rest p str :
  match snd (span p str) with
  | EmptyString => True
  | String x _ => p x = false
  end.
Proof.
  induction str as [|x str IH]; [exact I|]. cbn [span].
  destruct (p x) eqn:Hx; [|exact Hx].
  destruct (span p str) as [run rest]. exact IH.
Qed.

(** What the two groups are when the pattern [([^:]+):(.+)] matches at the
    start of a string. *)
Lemma groups_at_shape str (g1 g2 : string) :
  groups_at str = Some (g1, g2) ->
  exists after,
    str = g1 +:+ ":" +:+ g2 +:+ after /\
    all_chars (fun c => negb (is_char c ":")) g1 = true /\ g1 <> EmptyString /\
    all_chars (fun c => negb (is_line_terminator c)) g2 = true /\ g2 <> EmptyString /\
    match after with
    | EmptyString => True
    | String x _ => is_line_terminator x = true
    end.
Proof.
  unfold groups_at.
  pose proof (span_app (fun c => negb (is_char c ":")) str) as Happ1.
  pose proof (span_run (fun c => negb (is_char c ":")) str) as Hrun1.
  destruct (span (fun c => negb (is_char c ":")) str) as [run1 rest1].
  cbn [fst snd] in *.
  destruct (is_empty run1) eqn:He1; [discriminate|].
  destruct rest1 as [|x rest2]; [discriminate|].
  destruct (is_char x ":") eqn:Hx; [|discriminate].
  pose proof (span_app (fun c => negb (is_line_terminator c)) rest2) as Happ2.
  pose proof (span_run (fun c => negb (is_line_terminator c)) rest2) as Hrun2.
  pose proof (span_rest (fun c => negb (is_line_terminator c)) rest2) as Hrest2.
  destruct (span (fun c => negb (is_line_terminator c)) rest2) as [run2 after].
  cbn [fst snd] in *.
  destruct (is_empty run2) eqn:He2; [discriminate|].
  intros [= <- <-]. exists after.
  apply Ascii.eqb_eq in Hx. subst x.
  split; [now rewrite Happ1, Happ2|].
  split; [exact Hrun1|]. split; [now apply is_empty_false|].
  split; [exact Hrun2|]. split; [now apply is_empty_false|].
  destruct after as [|y after]; [exact I|].
  now apply negb_false_iff in Hrest2.
Qed.

Lemma match_need_unfold line :
  match_need line
  = match (if String.prefix "@need:" line
           then groups_at (drop_chars 6 line) else None) with
    | Some groups => Some groups
    | None =>
        match line with
        | EmptyString => None
        | String _ line' => match_need line'
        end
    end.
Proof. destruct line; reflexivity. Qed.

(** A match of [/@need:([^:]+):(.+)/]: the line reads [@need:], a type
    without colon, a colon, and a description that runs to the end of the
    line or to the first line terminator. *)
Lemma match_need_shape line : forall g1 g2 : string,
  match_need line = Some (g1, g2) ->
  exists before after,
    line = before +:+ "@need:" +:+ g1 +:+ ":" +:+ g2 +:+ after /\
    all_chars (fun c => negb (is_char c ":")) g1 = true /\ g1 <> EmptyString /\
    all_chars (fun c => negb (is_line_terminator c)) g2 = true /\ g2 <> EmptyString /\
    match after with
    | EmptyString => True
    | String x _ => is_line_terminator x = true
    end.
Proof.
  induction line as [|x line IH]; intros g1 g2; rewrite match_need_unfold.
  - discriminate.
  - destruct (String.prefix "@need:" (String x line)) eqn:Hp.
    + destruct (groups_at (drop_chars 6 (String x line))) as [[h1 h2]|] eqn:Hg.
      * intros [= <- <-]. destruct (prefix_split _ _ Hp) as [rest Hrest].
        rewrite Hrest in Hg. change (drop_chars 6 ("@need:" +:+ rest)) with rest in Hg.
        destruct (groups_at_shape _ _ _ Hg) as (after & -> & Hshape).
        exists EmptyString, after. split; [exact Hrest | exact Hshape].
      * intros H. destruct (IH _ _ H) as (before & after & -> & Hshape).
        exists (String x before), after. split; [reflexivity | exact Hshape].
    + intros H. destruct (IH _ _ H) as (before & after & -> & Hshape).
      exists (String x before), after. split; [reflexivity | exact Hshape].
Qed.

(** A line without [@need:] has no match. *)
Lemma match_need_absent line :
  includes "@need:" line = false -> match_need line = None.
Proof.
  induction line as [|x line IH]; intros H; rewrite match_need_unfold.
  - reflexivity.
  - rewrite includes_cons in H. apply orb_false_iff in H as [Hp H].
    rewrite Hp. now apply IH.
Qed.

End MarkerPattern.

(** ** What the marker pattern matches *)

Section NeedMatch.
Implicit Types (p : ascii -> bool) (str line ty desc rest before after : string).

Lemma span_exact p run rest :
  all_chars p run = true ->
  match rest with EmptyString => True | String x _ => p x = false end ->
  span p (run +:+ rest) = (run, rest).
Proof.
  intros Hrun Hrest. induction run as [|x run IH].
  - change (EmptyString +:+ rest) with rest.
    destruct rest as [|y rest]; [reflexivity|]. cbn [span]. now rewrite Hrest.
  - cbn [all_chars] in Hrun. apply andb_true_iff in Hrun as [Hx Hrun].
    rewrite str_app_cons. cbn [span]. now rewrite Hx, IH.
Qed.

Lemma line_end_span after :
  line_end after ->
  match after with
  | EmptyString => True
  | String x _ => negb (is_line_terminator x) = false
  end.
Proof. destruct after as [|x after]; [auto|]. cbn. now intros ->. Qed.

(** The two groups are found where the pattern matches. *)
Lemma groups_at_complete ty desc after :
  ty <> EmptyString -> all_chars (fun c => negb (is_char c ":")) ty = true ->
  desc <> EmptyString ->
  all_chars (fun c => negb (is_line_terminator c)) desc = true ->
  line_end after ->
  groups_at (ty +:+ ":" +:+ desc +:+ after) = Some (ty, desc).
Proof.
  intros Hty Hcolon Hdesc Hterm Hend. unfold groups_at.
  rewrite (span_exact _ ty (":" +:+ desc +:+ after) Hcolon) by reflexivity.
  apply is_empty_false in Hty. rewrite Hty.
  change (":" +:+ desc +:+ after) with (String ":" (desc +:+ after)).
  cbn [is_char Ascii.eqb Bool.eqb].
  rewrite (span_exact _ desc after Hterm) by now apply line_end_span.
  apply is_empty_false in Hdesc. now rewrite Hdesc.
Qed.

Lemma prefix_refl_app needle rest : String.prefix needle (needle +:+ rest) = true.
Proof.
  induction needle as [|x needle IH]; [apply prefix_nil_l|].
  rewrite str_app_cons, prefix_cons_cons.
  destruct (ascii_dec x x); [exact IH | contradiction].
Qed.

Lemma need_here_groups str ty desc :
  need_here str ty desc ->
  String.prefix "@need:" str = true /\ groups_at (drop_chars 6 str) = Some (ty, desc).
Proof.
  intros (after & -> & Hty & Hcolon & Hdesc & Hterm & Hend).
  split; [apply prefix_refl_app|].
  change (drop_chars 6 ("@need:" +:+ ty +:+ ":" +:+ desc +:+ after))
    with (ty +:+ ":" +:+ desc +:+ after).
  now apply groups_at_complete.
Qed.

Lemma groups_need_here str ty desc :
  String.prefix "@need:" str = true ->
  groups_at (drop_chars 6 str) = Some (ty, desc) ->
  need_here str ty desc.
Proof.
  intros Hp Hg. destruct (prefix_split _ _ Hp) as [rest ->].
  change (drop_chars 6 ("@need:" +:+ rest)) with rest in Hg.
  destruct (groups_at_shape _ _ _ Hg) as (after & -> & Hcolon & Hty & Hterm & Hdesc & Hend).
  exists after. repeat split; assumption.
Qed.

(** The model of [String.prototype.match] finds what the pattern matches,
    at the leftmost place. *)
Lemma match_need_complete line ty desc :
  need_match line ty desc -> match_need line = Some (ty, desc).
Proof.
  intros (before & rest & -> & Hhere & Hleft).
  induction before as [|x before IH].
  - change (EmptyString +:+ rest) with rest.
    destruct (need_here_groups _ _ _ Hhere) as [Hp Hg].
    rewrite match_need_unfold, Hp, Hg. reflexivity.
  - rewrite str_app_cons, match_need_unfold.
    assert (Hnone : (if String.prefix "@need:" (String x (before +:+ rest))
                     then groups_at (drop_chars 6 (String x (before +:+ rest)))
                     else None) = None).
    { destruct (String.prefix "@need:" (String x (before +:+ rest))) eqn:Hp;
        [|reflexivity].
      destruct (groups_at (drop_chars 6 (String x (before +:+ rest))))
        as [[h1 h2]|] eqn:Hg; [|reflexivity].
      pose proof (groups_need_here _ _ _ Hp Hg) as Hearlier.
      specialize (Hleft EmptyString (String x (before +:+ rest)) h1 h2 eq_refl Hearlier).
      cbn in Hleft. lia. }
    rewrite Hnone. apply IH.
    intros before' rest' ty' desc' Heq Hh.
    specialize (Hleft (String x before') rest' ty' desc').
    rewrite !str_app_cons, Heq in Hleft. specialize (Hleft eq_refl Hh).
    cbn [String.length] in Hleft. lia.
Qed.

Lemma match_need_sound line : forall ty desc,
  match_need line = Some (ty, desc) -> need_match line ty desc.
Proof.
  induction line as [|x line IH]; intros ty desc; rewrite match_need_unfold.
  - discriminate.
  - destruct (if String.prefix "@need:" (String x line)
              then groups_at (drop_chars 6 (String x line)) else None)
      as [[h1 h2]|] eqn:Hhere.
    + intros [= <- <-]. exists EmptyString, (String x line).
      split; [reflexivity|]. split.
      * destruct (String.prefix "@need:" (String x line)) eqn:Hp; [|discriminate].
        now apply groups_need_here.
      * intros. cbn. lia.
    + intros Hm. destruct (IH _ _ Hm) as (before & rest & -> & Hh & Hleft).
      exists (String x before), rest. split; [reflexivity|]. split; [exact Hh|].
      intros before' rest' ty' desc' Heq Hh'.
      destruct before' as [|y before'].
      * exfalso. change (EmptyString +:+ rest') with rest' in Heq. subst rest'.
        destruct (need_here_groups _ _ _ Hh') as [Hp Hg].
        rewrite Hp, Hg in Hhere. discriminate.
      * rewrite !str_app_cons in Heq. injection Heq as <- Heq.
        specialize (Hleft before' rest' ty' desc' Heq Hh').
        cbn [String.length]. lia.
Qed.

Lemma match_need_iff line ty desc :
  match_need line = Some (ty, desc) <-> need_match line ty desc.
Proof. split; [apply match_need_sound | apply match_need_complete]. Qed.

Lemma has_marker_iff line :
  has_marker line = true <-> exists ty desc, need_match line ty desc.
Proof.
  unfold has_marker. split.
  - destruct (match_need line) as [[ty desc]|] eqn:E; [|discriminate].
    intros _. exists ty, desc. now apply match_need_sound.
  - intros (ty & desc & H). now rewrite (match_need_complete _ _ _ H).
Qed.

Lemma malformed_iff line :
  malformed line = true <->
  exists ty desc, need_match line ty desc /\ (all_ws ty = true \/ all_ws desc = true).
Proof.
  unfold malformed. split.
  - destruct (match_need line) as [[ty desc]|] eqn:E; [|discriminate].
    rewrite !trim_empty. intros H. apply orb_true_iff in H.
    exists ty, desc. split; [now apply match_need_sound | exact H].
  - intros (ty & desc & H & Hws). rewrite (match_need_complete _ _ _ H).
    rewrite !trim_empty. now apply orb_true_iff.
Qed.

(** A line without match: no group is found. *)
Lemma match_need_none line :
  (forall ty desc, ~ need_match line ty desc) -> match_need line = None.
Proof.
  intros H. destruct (match_need line) as [[ty desc]|] eqn:E; [|reflexivity].
  destruct (H ty desc). now apply match_need_sound.
Qed.

(** With [@need:] once in the line, the match is decided where it stands. *)
Lemma match_need_sole before : forall line rest,
  sole_marker line before rest -> match_need line = groups_at rest.
Proof.
  induction before as [|x before IH]; intros line rest (-> & Hbefore & Hrest).
  - change (EmptyString +:+ "@need:" +:+ rest) with ("@need:" +:+ rest).
    rewrite match_need_unfold, prefix_refl_app.
    change (drop_chars 6 ("@need:" +:+ rest)) with rest.
    destruct (groups_at rest) as [groups|]; [reflexivity|].
    change ("@need:" +:+ rest) with (String "@" ("need:" +:+ rest)).
    apply match_need_absent.
    change ("need:" +:+ rest)
      with (String "n" (String "e" (String "e" (String "d" (String ":" rest))))).
    rewrite !includes_cons in *.
    rewrite !prefix_cons_neq by discriminate. exact Hrest.
  - rewrite includes_cons in Hbefore. apply orb_false_iff in Hbefore as [Hp Hbefore].
    rewrite str_app_cons, match_need_unfold.
    assert (Hq : String.prefix "@need:" (String x (before +:+ "@need:" +:+ rest)) = false).
    { change "@need:"%string with (String "@" "need:") in Hp |- * at 1.
      rewrite prefix_cons_cons in Hp |- *.
      destruct (ascii_dec "@" x); [|reflexivity].
      change ("@need:" +:+ rest) with (String "@" ("need:" +:+ rest)).
      now rewrite prefix_barrier by reflexivity. }
    rewrite Hq. apply IH. repeat split; assumption.
Qed.

Lemma groups_at_incomplete rest : incomplete_marker rest -> groups_at rest = None.
Proof.
  intros (ty & tail & -> & Hcolon & Hcase). unfold groups_at.
  destruct Hcase as [-> | [[-> [t ->]] | [after [-> Hend]]]].
  - rewrite (span_exact _ ty EmptyString Hcolon) by exact I.
    now destruct (is_empty ty).
  - reflexivity.
  - rewrite (span_exact _ ty (String ":" after) Hcolon) by reflexivity.
    destruct (is_empty ty); [reflexivity|]. cbn [is_char Ascii.eqb Bool.eqb].
    destruct after as [|y after]; [reflexivity|].
    unfold line_end in Hend. cbn [span]. now rewrite Hend.
Qed.

End NeedMatch.

Section TrimSpec.
Implicit Types (str t l r : string).

Lemma trimStart_app_ws l str : all_ws l = true -> trimStart (l +:+ str) = trimStart str.
Proof.
  induction l as [|c l IH]; [reflexivity|]. cbn [all_ws]. intros H.
  apply andb_true_iff in H as [Hc Hl]. rewrite str_app_cons. cbn [trimStart].
  rewrite Hc. now apply IH.
Qed.

Lemma trimEnd_ws r : all_ws r = true -> trimEnd r = EmptyString.
Proof.
  intros H. rewrite <- trimEnd_empty in H. now destruct (trimEnd r).
Qed.

Lemma trimEnd_app_ws str r : all_ws r = true -> trimEnd (str +:+ r) = trimEnd str.
Proof.
  intros Hr. induction str as [|c str IH].
  - change (EmptyString +:+ r) with r. now apply trimEnd_ws.
  - rewrite str_app_cons. cbn [trimEnd]. now rewrite IH.
Qed.

Lemma trimEnd_bare t :
  (forall c t', t = t' +:+ String c EmptyString -> is_ws c = false) -> trimEnd t = t.
Proof.
  induction t as [|c t IH]; intros H; [reflexivity|]. cbn [trimEnd].
  destruct t as [|d t].
  - cbn [trimEnd]. now rewrite (H c EmptyString eq_refl).
  - rewrite IH; [reflexivity|].
    intros c' t' Heq. apply (H c' (String c t')). now rewrite str_app_cons, <- Heq.
Qed.

(** [trim] removes the white space at the two ends and nothing else. *)
Lemma trim_spec str t : trimmed_of str t -> trim str = t.
Proof.
  intros (l & r & -> & Hl & Hr & Hstart & Hend). unfold trim.
  rewrite trimStart_app_ws by assumption.
  destruct t as [|c t].
  - change (EmptyString +:+ r) with r.
    assert (E : trimStart r = EmptyString).
    { clear -Hr. induction r as [|x r IH]; [reflexivity|].
      cbn [all_ws] in Hr. apply andb_true_iff in Hr as [Hx Hr].
      cbn [trimStart]. rewrite Hx. now apply IH. }
    now rewrite E.
  - rewrite str_app_cons. cbn [trimStart]. rewrite (Hstart c t eq_refl).
    rewrite <- str_app_cons, trimEnd_app_ws by assumption.
    now apply trimEnd_bare.
Qed.

Lemma str_snoc_inj str1 : forall str2 x y,
  str1 +:+ String x EmptyString = str2 +:+ String y EmptyString -> x = y.
Proof.
  induction str1 as [|a str1 IH]; intros [|b str2] x y H.
  - now injection H.
  - rewrite str_app_cons in H. injection H as _ H. now destruct str2.
  - rewrite str_app_cons in H. injection H as _ H. now destruct str1.
  - rewrite !str_app_cons in H. injection H as _ H. now apply IH in H.
Qed.

(** A string that starts and ends with characters other than white space. *)
Lemma edges_bare_intro c middle e :
  is_ws c = false -> is_ws e = false ->
  edges_bare (String c (middle +:+ String e EmptyString)).
Proof.
  intros Hc He. split.
  - intros c' t' [= <- _]. exact Hc.
  - intros c' t' H. rewrite <- str_app_cons in H.
    apply str_snoc_inj in H. now subst c'.
Qed.

End TrimSpec.

(** ** extract.decorators: records and skipped lines *)

(** The line at index [i] gives no record and no warning when the pattern
    finds nothing on it. *)
Lemma extractCodeDecorators_unmatched code i line records :
  at_index (split LF code) i = Some line ->
  match_need line = None ->
  outcome (extractCodeDecorators (VStr code)) = Normal records ->
  ~ In (warn_invalid_decorator i) (output (extractCodeDecorators (VStr code))) /\
  forall d, In d records -> lineNumber d <> i + 1.
Proof.
  intros Hline Hnone. rewrite extractCodeDecorators_string.
  destruct code as [|c code].
  { cbn. intros [= <-]. split; [intros [H|[]]; discriminate H | intros d []]. }
  cbn [is_empty outcome output fst snd]. intros [= <-].
  apply at_index_Some in Hline as [Hi Hline]. split.
  - intros (k & line' & Hk & Hj & Hm)%warnings_of_origin.
    assert (k = Z.to_nat i) by lia. subst k.
    change (split LF (String c code) !! Z.to_nat i = Some line') in Hk.
    assert (line' = line) by congruence. subst line'.
    unfold malformed in Hm. now rewrite Hnone in Hm.
  - intros d (k & line' & Hk & Hd)%records_of_origin Hnum.
    apply decorator_at_lineNumber in Hd as (Hn & _ & Hm).
    assert (k = Z.to_nat i) by lia. subst k.
    change (split LF (String c code) !! Z.to_nat i = Some line') in Hk.
    assert (line' = line) by congruence. subst line'.
    unfold has_marker in Hm. now rewrite Hnone in Hm.
Qed.

(** C4.  For every source text and every line, at index [i] from 0, on which
    the marker pattern matches, its groups being [ty] and [desc], with [t]
    and [d] what is left of them once the white space at their ends is
    removed, neither being empty, [extract.decorators] returns a record with
    type [t] and description [d], [lineNumber] equal to [i + 1], and as
    snippet the elision marker, the lines from [max 0 (i - 5)] up to but
    excluding [min (number of lines) (i + 15 + 1)] joined with line feeds,
    and the elision marker again, each on its own line.  The records are in
    ascending order of [lineNumber]. *)
Theorem extractCodeDecorators_record code i line ty desc t d :
  let lines := split LF code in
  at_index lines i = Some line ->
  need_match line ty desc ->
  trimmed_of ty t -> trimmed_of desc d ->
  t <> EmptyString -> d <> EmptyString ->
  exists records,
    outcome (extractCodeDecorators (VStr code)) = Normal records /\
    In {| type := t;
          description := d;
          snippet :=
            elision +:+ nl
            +:+ join nl (slice lines (Z.max 0 (i - 5)) (Z.min (len lines) (i + 15 + 1)))
            +:+ nl +:+ elision;
          lineNumber := i + 1 |} records /\
    StronglySorted Z.lt (map lineNumber records).
Proof.
  intros lines Hline Hmatch Ht Hd Hne1 Hne2.
  apply match_need_complete in Hmatch. apply trim_spec in Ht, Hd.
  rewrite extractCodeDecorators_string.
  destruct code as [|c code].
  { apply at_index_Some in Hline as [_ Hl]. cbn in Hl.
    destruct (Z.to_nat i); [injection Hl as <-; discriminate Hmatch | discriminate Hl]. }
  cbn [is_empty]. fold lines. eexists. split; [reflexivity|].
  split; [|apply records_of_sorted].
  apply at_index_Some in Hline as [Hi Hline].
  apply (records_of_In lines lines 0 (Z.to_nat i) line); [exact Hline|].
  rewrite Z.add_0_l, Z2Nat.id by lia.
  unfold decorator_at, window. rewrite Hmatch, Ht, Hd.
  apply is_empty_false in Hne1, Hne2. rewrite Hne1, Hne2. reflexivity.
Qed.

(** The marker on line 10 of a text of 30 lines, with white space around
    the type and the description: the fields come without it, the snippet is
    made of lines 5 to 25. *)
Lemma extractCodeDecorators_record_witness :
  exists records,
    outcome (extractCodeDecorators (VStr spaced_source)) = Normal records /\
    In {| type := "api";
          description := "fetch user data";
          snippet :=
            elision +:+ nl
            +:+ text_of (repeat "a"%string 5 ++ ["// @need: api :  fetch user data "%string]
                         ++ repeat "b"%string 15)
            +:+ nl +:+ elision;
          lineNumber := 10 |} records /\
    StronglySorted Z.lt (map lineNumber records).
Proof.
  apply (extractCodeDecorators_record spaced_source 9
           "// @need: api :  fetch user data " " api " "  fetch user data "
           "api" "fetch user data").
  - reflexivity.
  - apply match_need_sound. reflexivity.
  - exists " "%string, " "%string. split; [reflexivity|].
    split; [reflexivity|]. split; [reflexivity|].
    apply (edges_bare_intro "a" "p" "i"); reflexivity.
  - exists "  "%string, " "%string. split; [reflexivity|].
    split; [reflexivity|]. split; [reflexivity|].
    apply (edges_bare_intro "f" "etch user dat" "a"); reflexivity.
  - discriminate.
  - discriminate.
Defined.

(** C8, as amended.  [extract.decorators] always completes normally with an
    array.  A line on which the pattern matches with a type or a description
    made of white space only is skipped with a warning: no record carries
    its line number.  A line on which the pattern matches nowhere is skipped
    without a warning; such is a line whose only [@need:] is followed by no
    type, no second colon or no description.  The number of records is the
    number of lines on which the pattern matches minus the number of those
    with a blank type or description, so one malformed marker among [n]
    leaves [n - 1] records. *)
Theorem extractCodeDecorators_skips_malformed :
  (forall code : value, exists records,
     outcome (extractCodeDecorators code) = Normal records) /\
  (forall code i line ty desc records,
     at_index (split LF code) i = Some line ->
     need_match line ty desc ->
     all_ws ty = true \/ all_ws desc = true ->
     outcome (extractCodeDecorators (VStr code)) = Normal records ->
     In (warn_invalid_decorator i) (output (extractCodeDecorators (VStr code))) /\
     forall d, In d records -> lineNumber d <> i + 1) /\
  (forall code i line records,
     at_index (split LF code) i = Some line ->
     (forall ty desc, ~ need_match line ty desc) ->
     outcome (extractCodeDecorators (VStr code)) = Normal records ->
     ~ In (warn_invalid_decorator i) (output (extractCodeDecorators (VStr code))) /\
     forall d, In d records -> lineNumber d <> i + 1) /\
  (forall code i line before rest records,
     at_index (split LF code) i = Some line ->
     sole_marker line before rest ->
     incomplete_marker rest ->
     outcome (extractCodeDecorators (VStr code)) = Normal records ->
     ~ In (warn_invalid_decorator i) (output (extractCodeDecorators (VStr code))) /\
     forall d, In d records -> lineNumber d <> i + 1) /\
  (forall code records,
     outcome (extractCodeDecorators (VStr code)) = Normal records ->
     length records
     = (count_if has_marker (split LF code) - count_if malformed (split LF code))%nat) /\
  (forall line,
     (has_marker line = true <-> exists ty desc, need_match line ty desc) /\
     (malformed line = true <->
      exists ty desc, need_match line ty desc /\
                      (all_ws ty = true \/ all_ws desc = true))).
Proof.
  split; [|split; [|split; [|split; [|split]]]].
  - intros code. unfold extractCodeDecorators.
    destruct (falsy code); [eexists; reflexivity|].
    unfold extractCodeDecorators_try.
    destruct code; try (eexists; reflexivity);
      unfold call_split, bind, ret; rewrite forEach_from_records;
      eexists; reflexivity.
  - intros code i line ty desc records Hline Hmatch Hblank.
    assert (Hmal : malformed line = true).
    { apply malformed_iff. now exists ty, desc. }
    rewrite extractCodeDecorators_string.
    destruct code as [|c code].
    { apply at_index_Some in Hline as [_ Hl]. cbn in Hl.
      destruct (Z.to_nat i); [injection Hl as <-; discriminate Hmal | discriminate Hl]. }
    cbn [is_empty outcome output fst snd]. intros [= <-].
    apply at_index_Some in Hline as [Hi Hline]. split.
    + replace i with (0 + Z.of_nat (Z.to_nat i)) by lia.
      now apply (warnings_of_In _ 0 _ line).
    + intros d' (k & line' & Hk & Hd)%records_of_origin Hnum.
      apply decorator_at_lineNumber in Hd as (Hn & Hm & _).
      assert (k = Z.to_nat i) by lia. subst k.
      change (split LF (String c code) !! Z.to_nat i = Some line') in Hk.
      congruence.
  - intros code i line records Hline Hnone.
    apply (extractCodeDecorators_unmatched code i line records Hline).
    now apply match_need_none.
  - intros code i line before rest records Hline Hsole Hinc.
    apply (extractCodeDecorators_unmatched code i line records Hline).
    rewrite (match_need_sole before line rest Hsole).
    now apply groups_at_incomplete.
  - intros code records. rewrite extractCodeDecorators_string.
    destruct code as [|c code].
    + cbn. intros [= <-]. reflexivity.
    + cbn [is_empty outcome snd]. intros [= <-]. apply records_of_length.
  - intros line. split; [apply has_marker_iff | apply malformed_iff].
Qed.

(** Four markers, the third with a blank type, the fourth without
    description: two records, one warning, for line 3. *)
Lemma extractCodeDecorators_skips_malformed_witness :
  let code :=
    text_of ["@need:api:users"; "x"; "// @need: :orders"; "@need:db:rows";
             "@need:api:"]%string in
  let records :=
    [{| type := "api"; description := "users";
        snippet := window (split LF code) 0; lineNumber := 1 |};
     {| type := "db"; description := "rows";
        snippet := window (split LF code) 3; lineNumber := 4 |}] in
  (In (warn_invalid_decorator 2) (output (extractCodeDecorators (VStr code))) /\
   forall d, In d records -> lineNumber d <> 2 + 1) /\
  (~ In (warn_invalid_decorator 4) (output (extractCodeDecorators (VStr code))) /\
   forall d, In d records -> lineNumber d <> 4 + 1) /\
  length records = (3 - 1)%nat.
Proof.
  intros code records.
  destruct extractCodeDecorators_skips_malformed as (_ & Hskip & _ & Hsole & Hcount & _).
  split; [|split].
  - apply (Hskip code 2 "// @need: :orders"%string " "%string "orders"%string records).
    + reflexivity.
    + apply match_need_sound. reflexivity.
    + now left.
    + reflexivity.
  - apply (Hsole code 4 "@need:api:"%string EmptyString "api:"%string records).
    + reflexivity.
    + split; [reflexivity|]. split; reflexivity.
    + exists "api"%string, ":"%string. split; [reflexivity|]. split; [reflexivity|].
      right. right. exists EmptyString. split; [reflexivity | exact I].
    + reflexivity.
  - apply (Hcount code records). reflexivity.
Defined.

(** ** Further properties: extract.backticks *)

Section TrimFacts.
Implicit Types (str : string).

Lemma trimEnd_idempotent str : trimEnd (trimEnd str) = trimEnd str.
Proof.
  induction str as [|x str IH]; [reflexivity|]. cbn [trimEnd].
  destruct (trimEnd str) as [|y t] eqn:E.
  - destruct (is_ws x) eqn:Hx; [reflexivity|]. cbn [trimEnd]. now rewrite Hx.
  - cbn [trimEnd]. cbn [trimEnd] in IH. now rewrite IH.
Qed.

Lemma trimStart_head str :
  match trimStart str with
  | EmptyString => True
  | String x _ => is_ws x = false
  end.
Proof.
  induction str as [|x str IH]; [exact I|]. cbn [trimStart].
  destruct (is_ws x) eqn:Hx; [exact IH | exact Hx].
Qed.

Lemma trimEnd_head x str :
  is_ws x = false -> exists t, trimEnd (String x str) = String x t.
Proof.
  intros Hx. cbn [trimEnd]. destruct (trimEnd str); [rewrite Hx|]; eauto.
Qed.

(** Trimming what is trimmed changes nothing. *)
Lemma trim_idempotent str : trim (trim str) = trim str.
Proof.
  unfold trim. pose proof (trimStart_head str) as Hhead.
  destruct (trimStart str) as [|x t]; [reflexivity|].
  destruct (trimEnd_head x t Hhead) as [u Hu]. rewrite Hu.
  cbn [trimStart]. rewrite Hhead, <- Hu. apply trimEnd_idempotent.
Qed.

End TrimFacts.

(** Checking by evaluation that [p] holds on no line before [i] or after
    [j]. *)
Lemma within_check (p : string -> bool) lines i j :
  0 <= i ->
  forallb (fun line => negb (p line)) (take (Z.to_nat i) lines) = true ->
  forallb (fun line => negb (p line)) (drop (Z.to_nat (j + 1)) lines) = true ->
  forall k line, at_index lines k = Some line -> p line = true -> i <= k <= j.
Proof.
  intros Hi Hbefore Hafter k line [Hk Hline]%at_index_Some Hp.
  rewrite forallb_forall in Hbefore, Hafter.
  destruct (Z.lt_ge_cases k i) as [Hlt|Hge].
  - assert (Hin : In line (take (Z.to_nat i) lines)).
    { apply list_elem_of_In, list_elem_of_lookup. exists (Z.to_nat k).
      now rewrite lookup_take_lt by lia. }
    apply Hbefore in Hin. now rewrite Hp in Hin.
  - destruct (Z.lt_ge_cases j k) as [Hjk|Hkj]; [|lia].
    assert (Hin : In line (drop (Z.to_nat (j + 1)) lines)).
    { apply list_elem_of_In, list_elem_of_lookup.
      exists (Z.to_nat k - Z.to_nat (j + 1))%nat. rewrite lookup_drop.
      rewrite <- Hline. f_equal. lia. }
    apply Hafter in Hin. now rewrite Hp in Hin.
Qed.

(** X1.  [extract.backticks] takes everything between the first and the
    last marker line of the text: marker lines that stand between the two
    are part of the content.  With the first marker line at [i] and the last
    at [j], [i < j], it returns the lines strictly between them joined with
    line feeds and trimmed, and [null] when that is the empty string. *)
Theorem extractBackticks_first_to_last input i j :
  let lines := split LF input in
  0 <= i < j ->
  (exists li, at_index lines i = Some li /\ marker_line li = true) ->
  (exists lj, at_index lines j = Some lj /\ marker_line lj = true) ->
  (forall k line, at_index lines k = Some line -> marker_line line = true ->
                  i <= k <= j) ->
  outcome (extractBackticks (VStr input))
  = let content := trim (join nl (slice lines (i + 1) j)) in
    Normal (if is_empty content then None else Some {| text := content |}).
Proof.
  intros lines Hij (li & Hli & Pi) (lj & Hlj & Pj) Hrange.
  apply at_index_Some in Hli as [_ Hli]. apply at_index_Some in Hlj as [_ Hlj].
  pose proof (extractBackticks_between input (Z.to_nat i) (Z.to_nat j) li lj
                Hli Hlj Pi Pj) as H.
  cbv zeta in H.
  replace (Z.of_nat (Z.to_nat i)) with i in H by lia.
  replace (Z.of_nat (Z.to_nat j)) with j in H by lia.
  apply H; [|lia].
  intros k x Hk Px.
  assert (Hat : at_index lines (Z.of_nat k) = Some x) by now rewrite at_index_of_nat.
  specialize (Hrange _ _ Hat Px). lia.
Qed.

(** Two fenced blocks in one text: the result runs from the first fence to
    the last and holds the two fences in between. *)
Lemma extractBackticks_first_to_last_witness :
  outcome (extractBackticks
             (VStr (text_of ["intro"; "```js"; "a"; "```"; "b"; "```py"; "c"; "```"; ""])))
  = Normal (Some {| text := text_of ["a"; "```"; "b"; "```py"; "c"] |}).
Proof.
  apply (extractBackticks_first_to_last
           (text_of ["intro"; "```js"; "a"; "```"; "b"; "```py"; "c"; "```"; ""]) 1 7).
  - lia.
  - exists "```js"%string. split; reflexivity.
  - exists "```"%string. split; reflexivity.
  - apply within_check; [lia | reflexivity | reflexivity].
Defined.

(** X2.  A result of [extract.backticks] that is not [null] comes from a
    string, and its text is not empty and has no white space at either end
    (trimming it again changes nothing). *)
Theorem extractBackticks_result_trimmed input r :
  outcome (extractBackticks input) = Normal (Some r) ->
  is_string input = true /\ text r <> EmptyString /\ trim (text r) = text r.
Proof.
  unfold extractBackticks.
  destruct (is_string input) eqn:Hs; [|cbn [negb]; rewrite orb_true_r; discriminate].
  destruct input as [| |b|n| |str|str|elems|fields]; try discriminate Hs.
  unfold falsy. cbn [truthy negb]. rewrite negb_involutive, orb_false_r.
  destruct (is_empty str) eqn:Hstr; [discriminate|].
  rewrite extractBackticks_try_string. cbv zeta.
  destruct (_ =? -1); [discriminate|].
  destruct (_ =? -1); [discriminate|].
  destruct (_ <=? _); [discriminate|].
  destruct (is_empty (trim _)) eqn:He; [discriminate|].
  cbn. intros [= <-]. cbn [text].
  split; [reflexivity|]. split; [now apply is_empty_false | apply trim_idempotent].
Qed.

Lemma extractBackticks_result_trimmed_witness :
  is_string (VStr (text_of ["```"; "  x  "; "```"])) = true /\
  text {| text := "x" |} <> EmptyString /\
  trim (text {| text := "x" |}) = text {| text := "x" |}.
Proof.
  apply (extractBackticks_result_trimmed (VStr (text_of ["```"; "  x  "; "```"]))).
  reflexivity.
Defined.

(** X3.  [extract.backticks] never throws, whatever value it is given.  It
    writes exactly one error to the console when it returns [null] and
    nothing when it returns a result; on an input that is not a string the
    result is [null]. *)
Theorem extractBackticks_console input :
  (exists r, outcome (extractBackticks input) = Normal r) /\
  (outcome (extractBackticks input) = Normal None ->
   exists e, output (extractBackticks input) = [ConsoleError tag_extract e]) /\
  (forall r, outcome (extractBackticks input) = Normal (Some r) ->
             output (extractBackticks input) = []) /\
  (is_string input = false -> outcome (extractBackticks input) = Normal None).
Proof.
  unfold extractBackticks.
  destruct (falsy input || negb (is_string input)) eqn:Hin.
  - split; [eexists; reflexivity|]. split; [intros _; eexists; reflexivity|].
    split; [discriminate | reflexivity].
  - apply orb_false_iff in Hin as [_ Hs]. apply negb_false_iff in Hs.
    destruct input; try discriminate.
    rewrite extractBackticks_try_string. cbv zeta.
    repeat match goal with
           | |- context [if ?b then _ else _] => destruct b
           end;
      cbv beta iota delta [try_catch ret throw bind log outcome output fst snd app];
      (split; [eexists; reflexivity|];
       split; [first [discriminate | intros _; eexists; reflexivity]|];
       split; [first [discriminate | reflexivity] | discriminate]).
Qed.

(** ** Further properties: extract.backticksMultiple *)

(** X4.  A label whose opening fence is found from the cursor on, but with no
    fence on any later line, is skipped with the warning about the closing
    backticks: the loop goes on with the next label and the state as it was,
    so an unclosed block is never returned and does not move the cursor. *)
Theorem for_delimiters_unclosed lines delim rest st o :
  0 <= cursor st ->
  first_from (includes (fence +:+ delim)) lines (cursor st) o ->
  none_from (includes fence) lines (o + 1) ->
  for_delimiters lines (delim :: rest) st
  = (let! _ := log (warn_no_closing delim) in for_delimiters lines rest st).
Proof.
  intros Hc Hopen Hnone. rewrite for_delimiters_cons. cbv zeta.
  pose proof Hopen as (Ho & (lo & Hlo & _) & _).
  apply at_index_lt_len in Hlo.
  destruct (Z.leb_spec (len lines) (cursor st)); [lia|].
  rewrite (findIndex_first_from _ _ _ _ Hc Hopen).
  destruct (Z.eqb_spec (o - cursor st) (-1)); [lia|].
  rewrite (slice_from_slice_from lines (cursor st) (o - cursor st)) by lia.
  replace (cursor st + (o - cursor st)) with o by lia.
  rewrite (slice_from_slice_from lines o 1) by lia.
  rewrite findIndex_none_from by (auto; lia). reflexivity.
Qed.

Lemma for_delimiters_unclosed_witness :
  for_delimiters ["text"; "```a"; "1"; "2"]%string ["a"]%string start
  = ([warn_no_closing "a"], Normal start).
Proof.
  rewrite (for_delimiters_unclosed _ "a"%string [] start 1).
  - reflexivity.
  - cbn. lia.
  - eapply first_from_check; [cbn; lia | reflexivity | reflexivity | reflexivity].
  - apply none_from_check; [lia | reflexivity].
Defined.

Lemma obj_set_origin key delim v (o : gmap string string) :
  is_Some (obj_set delim v o !! key) ->
  is_Some (o !! key) \/ (key = delim /\ delim <> "__proto__"%string).
Proof.
  unfold obj_set. destruct (String.eqb_spec delim "__proto__") as [|Hd]; [now left|].
  destruct (decide (delim = key)) as [->|Hne].
  - intros _. right. split; [reflexivity | exact Hd].
  - rewrite lookup_insert_ne by assumption. now left.
Qed.

(** What the loop leaves in [found] was there before or belongs to one of
    the labels. *)
Lemma for_delimiters_keys delims : forall lines st key,
  is_Some (found (final_state lines delims st) !! key) ->
  is_Some (found st !! key) \/ (In key delims /\ key <> "__proto__"%string).
Proof.
  unfold final_state.
  induction delims as [|delim rest IH]; intros lines st key; [now left|].
  rewrite for_delimiters_cons. cbv zeta.
  destruct (len lines <=? cursor st); [now left|].
  assert (Hskip : forall ev,
             is_Some (found match outcome (let! _ := log ev in
                                           for_delimiters lines rest st) with
                            | Normal st' => st'
                            | Throw _ => start
                            end !! key) ->
             is_Some (found st !! key) \/
             (In key (delim :: rest) /\ key <> "__proto__"%string)).
  { intros ev. rewrite outcome_log_bind. intros H.
    destruct (IH _ _ _ H) as [H'|[H1 H2]]; [now left | right; split; [now right | exact H2]]. }
  destruct (_ =? -1); [apply Hskip|].
  destruct (_ =? -1); [apply Hskip|].
  intros H. destruct (IH _ _ _ H) as [H'|[H1 H2]].
  - cbn [found] in H'. destruct (obj_set_origin _ _ _ _ H') as [H0|[-> Hd]].
    + now left.
    + right. split; [now left | exact Hd].
  - right. split; [now right | exact H2].
Qed.

(** On a [String] object the loop runs on the string it wraps, also when
    that string is empty: the object is truthy. *)
Lemma extractBackticksMultiple_result_object str delims :
  delims <> [] ->
  outcome (extractBackticksMultiple (VStrObj str) (Labels delims))
  = let m := found (final_state (split LF str) delims start) in
    Normal (if 0 <? keys_length m then Some m else None).
Proof.
  intros Hd. unfold extractBackticksMultiple.
  assert (E2 : (len (elements (Labels delims)) =? 0) = false).
  { destruct delims; [congruence|]. reflexivity. }
  rewrite E2. cbn [falsy truthy negb isArray orb].
  unfold extractBackticksMultiple_try, call_split, final_state. simpl elements.
  destruct (for_delimiters_normal delims (split LF str) start) as [st' Hst'].
  fold start. unfold bind at 1. unfold ret at 1.
  destruct (for_delimiters (split LF str) delims start) as [out r].
  simpl in Hst'. subst r. reflexivity.
Qed.

(** A result other than [null] is the final mapping of the loop over the
    text (a string, or the string a [String] object wraps) and a non-empty
    array of labels. *)
Lemma extractBackticksMultiple_some input delims m :
  outcome (extractBackticksMultiple input delims) = Normal (Some m) ->
  exists str labels,
    (input = VStr str \/ input = VStrObj str) /\ delims = Labels labels /\
    m = found (final_state (split LF str) labels start) /\ m <> ∅.
Proof.
  intros Hm.
  destruct (falsy input || negb (isArray delims) || (len (elements delims) =? 0))
    eqn:Hinv.
  { unfold extractBackticksMultiple in Hm. rewrite Hinv in Hm. discriminate. }
  apply orb_false_iff in Hinv as [Hinv Hlen].
  apply orb_false_iff in Hinv as [Hfalsy Harr].
  destruct delims as [v|labels]; [discriminate|]. simpl elements in *.
  assert (Hl : labels <> []) by (destruct labels; [discriminate | congruence]).
  assert (Hfin : forall str,
            outcome (extractBackticksMultiple input (Labels labels))
            = (let m := found (final_state (split LF str) labels start) in
               Normal (if 0 <? keys_length m then Some m else None)) ->
            m = found (final_state (split LF str) labels start) /\ m <> ∅).
  { intros str E. rewrite E in Hm. cbv zeta in Hm.
    destruct (0 <? keys_length _) eqn:Hk; [|discriminate].
    injection Hm as <-. split; [reflexivity|].
    intros H. apply keys_length_zero in H. congruence. }
  destruct input as [| | | | |str|str| |];
    try (unfold extractBackticksMultiple in Hm; rewrite Hfalsy in Hm;
         destruct labels; [congruence | discriminate Hm]).
  - assert (Hs : str <> EmptyString) by (destruct str; [discriminate | congruence]).
    exists str, labels. split; [now left|]. split; [reflexivity|].
    apply Hfin. now apply extractBackticksMultiple_result.
  - exists str, labels. split; [now right|]. split; [reflexivity|].
    apply Hfin. now apply extractBackticksMultiple_result_object.
Qed.

(** X5.  Every key of the mapping [extract.backticksMultiple] returns is one
    of the labels it was given, and is never [__proto__]. *)
Theorem extractBackticksMultiple_keys input delims m key :
  outcome (extractBackticksMultiple input delims) = Normal (Some m) ->
  is_Some (m !! key) ->
  In key (elements delims) /\ key <> "__proto__"%string.
Proof.
  intros Hm Hkey.
  destruct (extractBackticksMultiple_some _ _ _ Hm) as (str & labels & _ & -> & -> & _).
  destruct (for_delimiters_keys _ _ _ _ Hkey) as [H|H]; [|exact H].
  cbn in H. rewrite lookup_empty in H. now destruct H.
Qed.

Lemma extractBackticksMultiple_keys_witness :
  In "b"%string ["a"; "b"]%string /\ "b"%string <> "__proto__"%string.
Proof.
  apply (extractBackticksMultiple_keys
           (VStr (text_of ["```b"; "2"; "```"]%string)) (Labels ["a"; "b"]%string)
           (obj_set "b" "2" ∅) "b"%string).
  - vm_compute. reflexivity.
  - vm_compute. eauto.
Defined.

Lemma slice_before_findIndex (p : string -> bool) (l : list string) :
  let k := findIndex p (slice_from l 1) in
  k <> -1 -> Forall (fun y => p y = false) (slice l 1 (k + 1)).
Proof.
  intros k Hk. subst k.
  destruct l as [|x l].
  { exfalso. apply Hk. reflexivity. }
  assert (Hlen : len (x :: l) = len l + 1) by (unfold len; cbn [length]; lia).
  assert (Hpos : 0 <= len l) by (unfold len; lia).
  rewrite slice_from_drop in * by lia.
  change (drop (Z.to_nat 1) (x :: l)) with l in *.
  destruct (findIndex_inv p l) as [[H _]|(l1 & y & l2 & -> & Hall & _ & Hidx)];
    [congruence|].
  rewrite Hidx.
  assert (Hl1 : len (l1 ++ y :: l2) = len l1 + 1 + len l2).
  { unfold len. rewrite length_app. cbn [length]. lia. }
  assert (0 <= len l1 /\ 0 <= len l2) by (unfold len; lia).
  rewrite slice_take_drop by lia.
  change (drop (Z.to_nat 1) (x :: l1 ++ y :: l2)) with (l1 ++ y :: l2).
  replace (Z.to_nat (len l1 + 1 - 1)) with (length l1) by (unfold len; lia).
  rewrite take_app_length. exact Hall.
Qed.

Lemma obj_set_Forall (P : string -> Prop) delim v (o : gmap string string) :
  P v -> map_Forall (fun _ => P) o -> map_Forall (fun _ => P) (obj_set delim v o).
Proof.
  intros Hv Ho. unfold obj_set. destruct (String.eqb delim "__proto__"); [exact Ho|].
  now apply map_Forall_insert_2.
Qed.

(** The bodies stored by the loop contain no fence when those that were
    there before contain none. *)
Lemma for_delimiters_bodies delims : forall lines st,
  map_Forall (fun _ body => includes fence body = false) (found st) ->
  map_Forall (fun _ body => includes fence body = false)
             (found (final_state lines delims st)).
Proof.
  unfold final_state.
  induction delims as [|delim rest IH]; intros lines st Hst; [exact Hst|].
  rewrite for_delimiters_cons. cbv zeta.
  destruct (len lines <=? cursor st); [exact Hst|].
  destruct (_ =? -1); [rewrite outcome_log_bind; now apply IH|].
  destruct (Z.eqb_spec (findIndex (includes fence)
    (slice_from (slice_from (slice_from lines (cursor st))
       (findIndex (includes (fence +:+ delim)) (slice_from lines (cursor st)))) 1))
    (-1)) as [|Hk]; [rewrite outcome_log_bind; now apply IH|].
  apply IH. cbn [found]. apply obj_set_Forall; [|exact Hst].
  rewrite includes_join by reflexivity.
  apply slice_before_findIndex in Hk.
  induction Hk as [|y l Hy _ IHl]; [reflexivity|].
  cbn [existsb]. rewrite Hy. exact IHl.
Qed.

(** X6.  No block body returned by [extract.backticksMultiple] contains a
    triple backtick: a body stops before the first line with a fence after
    its opening line. *)
Theorem extractBackticksMultiple_bodies input delims m key body :
  outcome (extractBackticksMultiple input delims) = Normal (Some m) ->
  m !! key = Some body ->
  includes fence body = false.
Proof.
  intros Hm Hkey.
  destruct (extractBackticksMultiple_some _ _ _ Hm) as (str & labels & _ & -> & -> & _).
  refine (for_delimiters_bodies labels (split LF str) start _ key body Hkey).
  cbn. apply map_Forall_empty.
Qed.

Lemma extractBackticksMultiple_bodies_witness :
  includes fence (text_of ["1"; "2"]%string) = false.
Proof.
  apply (extractBackticksMultiple_bodies
           (VStr (text_of ["```a"; "1"; "2"; "```"; "```a"; "3"; "```"]%string))
           (Labels ["a"]%string)
           (obj_set "a" (text_of ["1"; "2"]%string) ∅) "a"%string).
  - vm_compute. reflexivity.
  - vm_compute. reflexivity.
Defined.

(** A label outside the list leaves its key as it was. *)
Lemma for_delimiters_other_keys delims : forall lines st key,
  ~ In key delims ->
  found (final_state lines delims st) !! key = found st !! key.
Proof.
  unfold final_state.
  induction delims as [|delim rest IH]; intros lines st key Hkey; [reflexivity|].
  assert (Hne : delim <> key) by (intros ->; apply Hkey; now left).
  assert (Hrest : ~ In key rest) by (intros H; apply Hkey; now right).
  rewrite for_delimiters_cons. cbv zeta.
  destruct (len lines <=? cursor st); [reflexivity|].
  destruct (_ =? -1); [rewrite outcome_log_bind; now apply IH|].
  destruct (_ =? -1); [rewrite outcome_log_bind; now apply IH|].
  rewrite IH by assumption. cbn [found]. unfold obj_set.
  destruct (String.eqb delim "__proto__"); [reflexivity|].
  now rewrite lookup_insert_ne.
Qed.

(** X7.  When the first label, other than [__proto__] and not repeated among
    the later ones, opens a block at line [o] that is closed at line [c],
    the result is a mapping that gives this label the lines strictly between
    [o] and [c], joined by newlines. *)
Theorem extractBackticksMultiple_first_block input delim rest o c :
  let lines := split LF input in
  delim <> "__proto__"%string ->
  ~ In delim rest ->
  first_from (includes (fence +:+ delim)) lines 0 o ->
  first_from (includes fence) lines (o + 1) c ->
  exists m,
    outcome (extractBackticksMultiple (VStr input) (Labels (delim :: rest)))
    = Normal (Some m) /\
    m !! delim = Some (join nl (slice lines (o + 1) c)).
Proof.
  intros lines Hd Hrest Hopen Hclose.
  assert (Hin : input <> EmptyString).
  { intros ->. destruct Hopen as (_ & (lo & Hlo & Hinc) & _).
    apply at_index_Some in Hlo as [Ho Hlo]. cbn in Hlo.
    destruct (Z.to_nat o); [|discriminate]. injection Hlo as <-. discriminate. }
  rewrite extractBackticksMultiple_result by (auto; discriminate). cbv zeta.
  fold lines.
  assert (Hval : found (final_state lines (delim :: rest) start) !! delim
                 = Some (join nl (slice lines (o + 1) c))).
  { unfold final_state.
    rewrite (for_delimiters_hit lines delim rest start o c) by (auto; reflexivity).
    fold (final_state lines rest
            {| found := obj_set delim (join nl (slice lines (o + 1) c)) (found start);
               cursor := c + 1 |}).
    rewrite for_delimiters_other_keys by assumption. cbn [found].
    now apply obj_set_lookup. }
  destruct (0 <? keys_length _) eqn:Hk.
  - eexists. split; [reflexivity | exact Hval].
  - apply keys_length_zero in Hk. rewrite Hk, lookup_empty in Hval. discriminate.
Qed.

Lemma extractBackticksMultiple_first_block_witness :
  exists m,
    outcome (extractBackticksMultiple
               (VStr (text_of ["intro"; "```yaml"; "a: 1"; "b: 2"; "```"; "```js"; "x"; "```"]%string))
               (Labels ["yaml"; "js"]%string))
    = Normal (Some m) /\
    m !! "yaml"%string = Some (text_of ["a: 1"; "b: 2"]%string).
Proof.
  apply (extractBackticksMultiple_first_block
           (text_of ["intro"; "```yaml"; "a: 1"; "b: 2"; "```"; "```js"; "x"; "```"]%string)
           "yaml"%string ["js"]%string 1 4).
  - discriminate.
  - intros [H|[]]. discriminate.
  - eapply first_from_check; [cbn; lia | reflexivity | reflexivity | reflexivity].
  - eapply first_from_check; [cbn; lia | reflexivity | reflexivity | reflexivity].
Defined.

Lemma output_log_bind {A} (ev : event) (m : M A) :
  output (let! _ := log ev in m) = ev :: output m.
Proof. unfold bind, log. destruct m as [out [a|e]]; reflexivity. Qed.

(** The loop writes nothing but warnings about its labels. *)
Lemma for_delimiters_output delims : forall lines st,
  Forall (label_warning delims) (output (for_delimiters lines delims st)).
Proof.
  induction delims as [|delim rest IH]; intros lines st; [constructor|].
  assert (Hrest : forall st', Forall (label_warning (delim :: rest))
                                (output (for_delimiters lines rest st'))).
  { intros st'. eapply List.Forall_impl; [|apply IH].
    intros ev (d & Hd & Hev). exists d. split; [now right | exact Hev]. }
  rewrite for_delimiters_cons. cbv zeta.
  destruct (len lines <=? cursor st); [constructor|].
  destruct (_ =? -1).
  { rewrite output_log_bind. constructor; [|apply Hrest].
    exists delim. split; [now left | now left]. }
  destruct (_ =? -1); [|apply Hrest].
  rewrite output_log_bind. constructor; [|apply Hrest].
  exists delim. split; [now left | now right].
Qed.

(** X8.  [extract.backticksMultiple] completes normally on every argument.
    When the text has no method [split] (it is a primitive other than a
    string, an array or a plain object), or an argument is invalid (falsy
    text, labels that are not an array or an empty array), it returns [null]
    and writes exactly one [console.error].  On a truthy text that has the
    method (a non-empty string, or a [String] object) and a non-empty array
    of labels it writes no [console.error]: every line of its log is the
    warning about a missing opening or closing fence of one of the labels.
    A [String] object that wraps a non-empty string is treated as that
    string. *)
Theorem extractBackticksMultiple_console input delims :
  (exists r, outcome (extractBackticksMultiple input delims) = Normal r) /\
  (has_split input = false \/ falsy input = true \/
   isArray delims = false \/ elements delims = [] ->
   outcome (extractBackticksMultiple input delims) = Normal None /\
   exists e, output (extractBackticksMultiple input delims) = [ConsoleError tag_extract e]) /\
  (has_split input = true -> falsy input = false ->
   isArray delims = true -> elements delims <> [] ->
   Forall (label_warning (elements delims))
          (output (extractBackticksMultiple input delims))) /\
  (forall str,
     input = VStrObj str -> str <> EmptyString ->
     extractBackticksMultiple input delims = extractBackticksMultiple (VStr str) delims).
Proof.
  match goal with
  | |- ?A /\ ?B /\ ?C /\ _ =>
      cut (A /\ B /\ C);
      [intros (H1 & H2 & H3); refine (conj H1 (conj H2 (conj H3 _)))|]
  end.
  { intros str -> Hne. unfold extractBackticksMultiple, falsy. cbn [truthy].
    apply is_empty_false in Hne. now rewrite Hne. }
  destruct (falsy input || negb (isArray delims) || (len (elements delims) =? 0))
    eqn:Hinv.
  { unfold extractBackticksMultiple. rewrite Hinv.
    split; [eexists; reflexivity|]. split.
    - intros _. split; [reflexivity | eexists; reflexivity].
    - intros _ Hf Ha Hl. rewrite Hf, Ha in Hinv.
      destruct (elements delims); [congruence | discriminate]. }
  pose proof Hinv as Hinv'.
  apply orb_false_iff in Hinv' as [Hinv' Hlen].
  apply orb_false_iff in Hinv' as [Hfalsy Harr].
  apply negb_false_iff in Harr.
  assert (Hl : elements delims <> []).
  { destruct (elements delims); [discriminate | congruence]. }
  assert (Hstr : forall str,
            input = VStr str \/ input = VStrObj str ->
            (exists r, outcome (extractBackticksMultiple input delims) = Normal r) /\
            Forall (label_warning (elements delims))
                   (output (extractBackticksMultiple input delims))).
  { intros str Hin. unfold extractBackticksMultiple. rewrite Hinv.
    assert (E : extractBackticksMultiple_try input (elements delims)
                = extractBackticksMultiple_try (VStr str) (elements delims)).
    { destruct Hin as [-> | ->]; reflexivity. }
    rewrite E. unfold extractBackticksMultiple_try, call_split.
    pose proof (for_delimiters_output (elements delims) (split LF str)
                  {| found := ∅; cursor := 0 |}) as Hout.
    destruct (for_delimiters_normal (elements delims) (split LF str)
                {| found := ∅; cursor := 0 |}) as [st' Hst'].
    cbv beta iota delta [bind ret try_catch].
    destruct (for_delimiters (split LF str) (elements delims) _) as [out r].
    cbn [outcome output fst snd] in *. subst r.
    cbn [app outcome output fst snd].
    split; [eexists; reflexivity|]. rewrite ?app_nil_r. exact Hout. }
  destruct input as [| | | | |str|str| |];
    try (unfold extractBackticksMultiple; rewrite Hinv;
         split; [eexists; reflexivity|]; split;
         [intros _; split; [reflexivity | eexists; reflexivity]
         |intros Hs; discriminate Hs]).
  - destruct (Hstr str (or_introl eq_refl)) as [Hnormal Hout].
    split; [exact Hnormal|]. split; [|intros _ _ _ _; exact Hout].
    intros [Hs|[Hf|[Ha|He]]]; [discriminate Hs | congruence | congruence | contradiction].
  - destruct (Hstr str (or_intror eq_refl)) as [Hnormal Hout].
    split; [exact Hnormal|]. split; [|intros _ _ _ _; exact Hout].
    intros [Hs|[Hf|[Ha|He]]]; [discriminate Hs | congruence | congruence | contradiction].
Qed.

(** ** Further properties: edit.genUi *)

Section NewSet.
Implicit Types (l acc : list string) (x y : string).

Local Abbreviation add :=
  (fun acc x => if existsb (String.eqb x) acc then acc else acc ++ [x]).

Lemma existsb_eqb_In x acc : existsb (String.eqb x) acc = true <-> In x acc.
Proof.
  rewrite existsb_exists. split.
  - intros (y & Hy & Heq). apply String.eqb_eq in Heq. now subst y.
  - intros H. exists x. split; [exact H | apply String.eqb_refl].
Qed.

Lemma fold_add_In l : forall acc y,
  In y (fold_left add l acc) <-> In y acc \/ In y l.
Proof.
  induction l as [|x l IH]; intros acc y; cbn [fold_left].
  - cbn. tauto.
  - rewrite IH. destruct (existsb (String.eqb x) acc) eqn:E.
    + apply existsb_eqb_In in E. cbn [In]. split; [tauto|].
      intros [H|[<-|H]]; tauto.
    + rewrite in_app_iff. cbn [In]. tauto.
Qed.

Lemma fold_add_NoDup l : forall acc, NoDup acc -> NoDup (fold_left add l acc).
Proof.
  induction l as [|x l IH]; intros acc Hacc; cbn [fold_left]; [exact Hacc|].
  apply IH. destruct (existsb (String.eqb x) acc) eqn:E; [exact Hacc|].
  apply NoDup_app. split; [exact Hacc|]. split; [|apply NoDup_singleton].
  intros y Hy Hyx. apply list_elem_of_singleton in Hyx. subst y.
  apply list_elem_of_In, existsb_eqb_In in Hy. congruence.
Qed.

Lemma fold_add_id l : forall acc, NoDup (acc ++ l) -> fold_left add l acc = acc ++ l.
Proof.
  induction l as [|x l IH]; intros acc H; cbn [fold_left].
  - now rewrite app_nil_r.
  - assert (E : existsb (String.eqb x) acc = false).
    { destruct (existsb (String.eqb x) acc) eqn:E; [|reflexivity].
      apply existsb_eqb_In, list_elem_of_In in E.
      apply NoDup_app in H as (_ & H & _). exfalso. apply (H x E). now left. }
    rewrite E. rewrite IH; rewrite <- app_assoc; [reflexivity | exact H].
Qed.

(** [[...new Set(l)]] has no duplicate and the elements of [l]. *)
Lemma new_Set_NoDup l : NoDup (new_Set l).
Proof. apply fold_add_NoDup. constructor. Qed.

Lemma new_Set_In l y : In y (new_Set l) <-> In y l.
Proof. unfold new_Set. rewrite fold_add_In. cbn. tauto. Qed.

Lemma new_Set_snoc_idem l x : new_Set (new_Set l ++ [x]) = new_Set (l ++ [x]).
Proof.
  unfold new_Set at 1 3. rewrite !fold_left_app. cbn [fold_left].
  change (fold_left add l []) with (new_Set l).
  rewrite (fold_add_id (new_Set l) []); [reflexivity | apply new_Set_NoDup].
Qed.

End NewSet.

Lemma in_category_iff c line : in_category c line = true <-> category_of line = Some c.
Proof.
  unfold in_category. destruct (category_of line) as [[]|]; destruct c;
    split; intros H; congruence.
Qed.

Lemma reference_ids_cons c line rest :
  reference_ids c (line :: rest)
  = (if in_category c line then
       match second_token line with Some id => [id] | None => [] end
     else []) ++ reference_ids c rest.
Proof. reflexivity. Qed.

Lemma reference_ids_In c lines id :
  In id (reference_ids c lines) <->
  exists line, In line lines /\ category_of line = Some c /\ second_token line = Some id.
Proof.
  unfold reference_ids. rewrite in_flat_map. split.
  - intros (line & Hline & Hid). exists line. split; [exact Hline|].
    destruct (in_category c line) eqn:Hc; [|destruct Hid].
    apply in_category_iff in Hc. split; [exact Hc|].
    destruct (second_token line); [|destruct Hid].
    destruct Hid as [->|[]]. reflexivity.
  - intros (line & Hline & Hc & Hid). exists line. split; [exact Hline|].
    apply in_category_iff in Hc. rewrite Hc, Hid. now left.
Qed.

(** The field of a category that is an array is extended with the
    identifiers of the reference lines of the category. *)
Lemma filter_lines_ids c lines : forall genUi collected,
  get_ids c genUi = Some (new_Set collected) ->
  get_ids c (fst (filter_lines genUi lines))
  = Some (new_Set (collected ++ reference_ids c lines)).
Proof.
  induction lines as [|line rest IH]; intros genUi collected Hg.
  - cbn. now rewrite app_nil_r.
  - rewrite filter_lines_cons. cbn [fst]. rewrite filter_line_category.
    rewrite reference_ids_cons.
    destruct (category_of line) as [c'|] eqn:Hc; cbn [fst].
    + destruct (category_eq_dec c' c) as [->|Hne].
      * apply in_category_iff in Hc. rewrite Hc, collect_cases, Hg.
        destruct (second_token line) as [id|].
        -- rewrite new_Set_snoc_idem, app_assoc. apply IH, get_set_ids.
        -- apply IH, Hg.
      * assert (Hn : in_category c line = false).
        { destruct (in_category c line) eqn:E; [|reflexivity].
          apply in_category_iff in E. congruence. }
        rewrite Hn. apply IH. now rewrite collect_other.
    + assert (Hn : in_category c line = false).
      { destruct (in_category c line) eqn:E; [|reflexivity].
        apply in_category_iff in E. congruence. }
      rewrite Hn. apply IH, Hg.
Qed.

Lemma filter_lines_ids_none c lines : forall genUi,
  get_ids c genUi = None ->
  get_ids c (fst (filter_lines genUi lines))
  = if existsb (in_category c) lines
    then Some (new_Set (reference_ids c lines)) else None.
Proof.
  induction lines as [|line rest IH]; intros genUi Hg; [exact Hg|].
  rewrite filter_lines_cons. cbn [fst existsb]. rewrite filter_line_category.
  rewrite reference_ids_cons.
  destruct (category_of line) as [c'|] eqn:Hc; cbn [fst].
  - destruct (category_eq_dec c' c) as [->|Hne].
    + apply in_category_iff in Hc. rewrite Hc, collect_cases, Hg. cbn [orb].
      destruct (second_token line) as [id|].
      * apply (filter_lines_ids c rest _ [id]). now rewrite get_set_ids.
      * apply (filter_lines_ids c rest _ []). now rewrite get_set_ids.
    + assert (Hn : in_category c line = false).
      { destruct (in_category c line) eqn:E; [|reflexivity].
        apply in_category_iff in E. congruence. }
      rewrite Hn. apply IH. now rewrite collect_other.
  - assert (Hn : in_category c line = false).
    { destruct (in_category c line) eqn:E; [|reflexivity].
      apply in_category_iff in E. congruence. }
    rewrite Hn. apply IH, Hg.
Qed.

(** What the filter leaves in [genUi]. *)
Lemma collected_ids_spec input c :
  get_ids c (collected_ids input)
  = if existsb (in_category c) (split LF input)
    then Some (new_Set (reference_ids c (split LF input))) else None.
Proof. apply filter_lines_ids_none. now destruct c. Qed.

Lemma editGenUi_empty :
  editGenUi (VStr EmptyString)
  = ([ConsoleError tag_genui (Error "> invalid : null or missing tsx input")],
     Normal {| tsx := VStr EmptyString; ids := no_ids |}).
Proof. reflexivity. Qed.

(** X9.  On a text, the field of [ids] of a category is [false] when no
    line takes the branch of that category in the filter; otherwise it is
    the array of the identifiers of the lines that do, in the order of the
    lines, each kept at its first occurrence only. *)
Theorem editGenUi_ids input c :
  exists result,
    outcome (editGenUi (VStr input)) = Normal result /\
    get_ids c (ids result)
    = if existsb (in_category c) (split LF input)
      then Some (new_Set (reference_ids c (split LF input))) else None.
Proof.
  destruct (string_dec input EmptyString) as [->|Hin].
  - rewrite editGenUi_empty. eexists. split; [reflexivity|]. now destruct c.
  - rewrite editGenUi_string by assumption. eexists. split; [reflexivity|].
    apply collected_ids_spec.
Qed.

(** X10.  An array in [ids] has no duplicate and no empty string, and holds
    exactly the second space-separated elements of the lines that take the
    branch of its category. *)
Theorem editGenUi_ids_distinct input result c collected :
  outcome (editGenUi (VStr input)) = Normal result ->
  get_ids c (ids result) = Some collected ->
  NoDup collected /\
  ~ In EmptyString collected /\
  forall id,
    In id collected <->
    exists line, In line (split LF input) /\ category_of line = Some c /\
                 at_index (split SPACE line) 1 = Some id /\ id <> EmptyString.
Proof.
  intros Hres Hc.
  assert (Hin : input <> EmptyString).
  { intros ->. rewrite editGenUi_empty in Hres. injection Hres as <-.
    destruct c; discriminate. }
  rewrite editGenUi_string in Hres by assumption. injection Hres as <-.
  cbn [ids] in Hc. rewrite collected_ids_spec in Hc.
  destruct (existsb _ _); [|discriminate]. injection Hc as <-.
  assert (Hmem : forall id,
    In id (new_Set (reference_ids c (split LF input))) <->
    exists line, In line (split LF input) /\ category_of line = Some c /\
                 at_index (split SPACE line) 1 = Some id /\ id <> EmptyString).
  { intros id. rewrite new_Set_In, reference_ids_In. unfold second_token.
    split; intros (line & Hline & Hcat & Hid); exists line;
      (split; [exact Hline|]; split; [exact Hcat|]).
    - destruct (at_index (split SPACE line) 1) as [id'|]; [|discriminate].
      destruct (is_empty id') eqn:He; [discriminate|]. injection Hid as ->.
      split; [reflexivity | now apply is_empty_false].
    - destruct Hid as [-> Hne]. apply is_empty_false in Hne. now rewrite Hne. }
  split; [apply new_Set_NoDup|]. split; [|exact Hmem].
  intros H. apply Hmem in H as (_ & _ & _ & _ & H). now apply H.
Qed.

Lemma editGenUi_ids_distinct_witness :
  NoDup ["Hero"; "Card"]%string /\
  ~ In EmptyString ["Hero"; "Card"]%string /\
  forall id,
    In id ["Hero"; "Card"]%string <->
    exists line,
      In line (split LF (text_of ["import Hero from '@/components/sections/Hero'";
                                  "import Card from '@/components/sections/Card'";
                                  "import Hero from '@/components/sections/Hero2'";
                                  "<Hero/>"]%string)) /\
      category_of line = Some Sections /\
      at_index (split SPACE line) 1 = Some id /\ id <> EmptyString.
Proof.
  eapply (editGenUi_ids_distinct _ _ Sections); reflexivity.
Defined.

(** X11.  A text, other than the empty string, in which neither token occurs
    is returned as it is, with both fields of [ids] false and nothing
    written to the console. *)
Theorem editGenUi_reference_free_unchanged input :
  input <> EmptyString ->
  reference_free input ->
  editGenUi (VStr input) = ([], Normal {| tsx := VStr input; ids := no_ids |}).
Proof.
  intros Hin Hfree. rewrite editGenUi_string by assumption.
  unfold collected_ids, kept_lines.
  rewrite filter_lines_no_reference by now apply reference_free_lines.
  cbn [fst snd]. unfold rewrite_category. cbn [get_ids no_ids sections views].
  now rewrite join_split.
Qed.

Lemma editGenUi_reference_free_unchanged_witness :
  editGenUi (VStr (text_of ["import React from 'react';"; ""; "<Hero/>"]%string))
  = ([], Normal {| tsx := VStr (text_of ["import React from 'react';"; ""; "<Hero/>"]%string);
                   ids := no_ids |}).
Proof.
  apply editGenUi_reference_free_unchanged.
  - discriminate.
  - intros c. destruct c; reflexivity.
Defined.

(** X12.  The text returned for a text other than the empty string starts
    with the import line of views when some line takes the branch of views,
    followed by the import line of sections when some line takes the branch
    of sections: the substitutions leave both import lines as they are. *)
Theorem editGenUi_imports input :
  input <> EmptyString ->
  exists result rest,
    outcome (editGenUi (VStr input)) = Normal result /\
    tsx result
    = VStr (import_head Views (split LF input)
            +:+ import_head Sections (split LF input) +:+ rest).
Proof.
  intros Hin. rewrite editGenUi_string by assumption.
  cbn [outcome snd]. unfold rewrite_category, import_head.
  rewrite !collected_ids_spec.
  destruct (existsb (in_category Sections) (split LF input));
    destruct (existsb (in_category Views) (split LF input)).
  - destruct (fold_substitute_keeps_prefix Sections (import_line Sections +:+ nl)
                (new_Set (reference_ids Sections (split LF input)))
                (join nl (kept_lines input))) as [rest1 H1]; [reflexivity|].
    rewrite !str_app_assoc in H1. rewrite H1.
    destruct (fold_substitute_keeps_prefix Views
                (import_line Views +:+ nl +:+ import_line Sections +:+ nl)
                (new_Set (reference_ids Views (split LF input))) rest1)
      as [rest2 H2]; [reflexivity|].
    rewrite !str_app_assoc in H2. rewrite H2.
    eexists. exists rest2. split; [reflexivity|]. cbn [tsx]. now rewrite !str_app_assoc.
  - destruct (fold_substitute_keeps_prefix Sections (import_line Sections +:+ nl)
                (new_Set (reference_ids Sections (split LF input)))
                (join nl (kept_lines input))) as [rest1 H1]; [reflexivity|].
    rewrite !str_app_assoc in H1. rewrite H1.
    eexists. exists rest1. split; [reflexivity|]. cbn [tsx]. now rewrite !str_app_assoc.
  - destruct (fold_substitute_keeps_prefix Views (import_line Views +:+ nl)
                (new_Set (reference_ids Views (split LF input)))
                (join nl (kept_lines input))) as [rest1 H1]; [reflexivity|].
    rewrite !str_app_assoc in H1. rewrite H1.
    eexists. exists rest1. split; [reflexivity|]. cbn [tsx]. now rewrite !str_app_assoc.
  - eexists. exists (join nl (kept_lines input)). split; reflexivity.
Qed.

Lemma editGenUi_imports_witness :
  exists result rest,
    outcome (editGenUi (VStr (text_of ["import Hero from '@/components/sections/Hero'";
                                       "import Card from '@/components/views/Card'";
                                       "<Hero a/>"; "<Card/>"]%string)))
    = Normal result /\
    tsx result
    = VStr (import_line Views +:+ nl +:+ import_line Sections +:+ nl +:+ rest).
Proof.
  apply (editGenUi_imports
           (text_of ["import Hero from '@/components/sections/Hero'";
                     "import Card from '@/components/views/Card'";
                     "<Hero a/>"; "<Card/>"]%string)).
  discriminate.
Defined.

(** X13.  When no identifier named by a reference line contains a dollar
    sign, neither token occurs in the text [edit.genUi] returns, and
    [edit.genUi] run on that text returns it unchanged with both fields of
    [ids] false. *)
Theorem editGenUi_second_run input result :
  (forall line c id,
     In line (split LF input) -> category_of line = Some c ->
     second_token line = Some id -> no_char DOLLAR id = true) ->
  outcome (editGenUi (VStr input)) = Normal result ->
  exists out,
    tsx result = VStr out /\
    reference_free out /\
    outcome (editGenUi (VStr out)) = Normal {| tsx := VStr out; ids := no_ids |}.
Proof.
  intros Hids Hres.
  destruct (string_dec input EmptyString) as [->|Hin].
  { rewrite editGenUi_empty in Hres. injection Hres as <-.
    exists EmptyString. split; [reflexivity|]. split; [|reflexivity].
    intros c. now destruct c. }
  rewrite editGenUi_string in Hres by assumption. injection Hres as <-.
  eexists. split; [reflexivity|].
  assert (Hdollar : forall c collected id,
            get_ids c (collected_ids input) = Some collected -> In id collected ->
            no_char DOLLAR id = true).
  { intros c collected id Hc Hid. rewrite collected_ids_spec in Hc.
    destruct (existsb _ _); [|discriminate]. injection Hc as <-.
    apply new_Set_In, reference_ids_In in Hid as (line & Hline & Hcat & Htok).
    exact (Hids line c id Hline Hcat Htok). }
  assert (Hfree : reference_free
                    (rewrite_category Views (collected_ids input)
                       (rewrite_category Sections (collected_ids input)
                          (join nl (kept_lines input))))).
  { apply reference_free_rewrite; [apply Hdollar|].
    apply reference_free_rewrite; [apply Hdollar|].
    apply reference_free_kept. }
  split; [exact Hfree|].
  apply editGenUi_no_reference, reference_free_lines, Hfree.
Qed.

Lemma editGenUi_second_run_witness :
  exists out,
    VStr (text_of [import_line Sections;
                   "<GenUiSection id=" +:+ quoted "Hero" +:+ " a/>"]) = VStr out /\
    reference_free out /\
    outcome (editGenUi (VStr out)) = Normal {| tsx := VStr out; ids := no_ids |}.
Proof.
  apply (editGenUi_second_run
           (text_of ["import Hero from '@/components/sections/Hero'"; "<Hero a/>"]%string)
           {| tsx := VStr (text_of [import_line Sections;
                                    "<GenUiSection id=" +:+ quoted "Hero" +:+ " a/>"]);
              ids := {| sections := Some ["Hero"%string]; views := None |} |}).
  - intros line c id [<-|[<-|[]]] Hc Hid; [|discriminate Hc].
    vm_compute in Hid. injection Hid as <-. reflexivity.
  - reflexivity.
Defined.

(** On a [String] object the transform runs on the string it wraps, also
    when that string is empty. *)
Lemma editGenUi_object str :
  editGenUi (VStrObj str)
  = ([], Normal {| tsx := VStr (rewrite_category Views (collected_ids str)
                                 (rewrite_category Sections (collected_ids str)
                                    (join nl (kept_lines str))));
                   ids := collected_ids str |}).
Proof.
  unfold editGenUi, falsy. cbn [truthy negb].
  unfold editGenUi_try, call_split, collected_ids, kept_lines.
  cbv beta iota delta [bind ret].
  destruct (filter_lines no_ids (split LF str)) as [genUi kept]. reflexivity.
Qed.

(** X14.  [edit.genUi] completes normally on every argument.  On a truthy
    argument that has the method [split] (a string other than the empty
    string, or a [String] object) it writes nothing to the console; a
    [String] object that wraps a non-empty string is treated as that string.
    On a truthy argument without that method (a primitive other than a
    string, an array, a plain object) the call [tsx.split] throws a
    [TypeError], one [console.error] is written and the argument itself is
    returned with both fields of [ids] false.  On a falsy argument one
    [console.error] is written. *)
Theorem editGenUi_console input :
  (exists result, outcome (editGenUi input) = Normal result) /\
  (falsy input = false -> has_split input = true -> output (editGenUi input) = []) /\
  (falsy input = false -> has_split input = false ->
   outcome (editGenUi_try input) = Throw (TypeError "tsx.split is not a function") /\
   outcome (editGenUi input) = Normal {| tsx := input; ids := no_ids |} /\
   output (editGenUi input)
   = [ConsoleError tag_genui (TypeError "tsx.split is not a function")]) /\
  (falsy input = true ->
   exists e, output (editGenUi input) = [ConsoleError tag_genui e]) /\
  (forall str,
     input = VStrObj str -> str <> EmptyString ->
     editGenUi input = editGenUi (VStr str)).
Proof.
  match goal with
  | |- ?A /\ ?B /\ ?C /\ ?D /\ _ =>
      cut (A /\ B /\ C /\ D);
      [intros (H1 & H2 & H3 & H4);
       refine (conj H1 (conj H2 (conj H3 (conj H4 _))))|]
  end.
  { intros str -> Hne. rewrite editGenUi_object, editGenUi_string by assumption.
    reflexivity. }
  destruct (falsy input) eqn:Hf.
  { unfold editGenUi. rewrite Hf.
    split; [eexists; reflexivity|]. split; [discriminate|]. split; [discriminate|].
    intros _. eexists. reflexivity. }
  destruct input as [| | | | |str|str| |];
    try (unfold editGenUi; rewrite Hf;
         split; [eexists; reflexivity|]; split; [intros _ Hs; discriminate Hs|];
         split; [|discriminate];
         intros _ _; split; [reflexivity|];
         split; reflexivity).
  - assert (Hin : str <> EmptyString) by (intros ->; discriminate Hf).
    rewrite editGenUi_string by assumption.
    split; [eexists; reflexivity|]. split; [reflexivity|].
    split; [intros _ Hs; discriminate Hs | discriminate].
  - rewrite editGenUi_object.
    split; [eexists; reflexivity|]. split; [reflexivity|].
    split; [intros _ Hs; discriminate Hs | discriminate].
Qed.

(** ** edit.genUi: reference lines without identifier *)

Lemma category_of_includes line c :
  category_of line = Some c -> includes (token c) line = true.
Proof.
  unfold category_of. destruct (is_empty line); [discriminate|].
  destruct (includes (token Sections) line) eqn:Hs; [now intros [= <-]|].
  destruct (includes (token Views) line) eqn:Hv; [now intros [= <-] | discriminate].
Qed.

Lemma reference_ids_none c lines :
  (forall l, In l lines -> category_of l = Some c -> second_token l = None) ->
  reference_ids c lines = [].
Proof.
  intros H. destruct (reference_ids c lines) as [|id ids] eqn:E; [reflexivity|].
  assert (Hid : In id (reference_ids c lines)) by (rewrite E; now left).
  apply reference_ids_In in Hid as (l & Hl & Hc & Htok).
  rewrite (H l Hl Hc) in Htok. discriminate.
Qed.

(** Without identifiers a branch only puts its import line in front. *)
Lemma rewrite_category_no_identifier c input newTsx :
  (forall l, In l (split LF input) -> category_of l = Some c -> second_token l = None) ->
  rewrite_category c (collected_ids input) newTsx
  = import_head c (split LF input) +:+ newTsx.
Proof.
  intros H. unfold rewrite_category, import_head. rewrite collected_ids_spec.
  destruct (existsb (in_category c) (split LF input)); [|reflexivity].
  rewrite reference_ids_none by assumption. cbn [new_Set fold_left].
  now rewrite str_app_assoc.
Qed.

(** With a dollar sign in an identifier the substitution can write a
    reference line that the filter has dropped back into the text: here the
    second line of the text is the second line of the result. *)
Example editGenUi_dropped_line_copied :
  at_index (split LF copied_source) 1 = Some copied_line /\
  category_of copied_line = Some Sections /\
  second_token copied_line = None /\
  outcome (editGenUi (VStr copied_source))
  = Normal {| tsx := VStr (text_of [import_line Sections; copied_line]);
              ids := {| sections := Some ["@/components/s$'"%string];
                        views := None |} |}.
Proof.
  split; [vm_compute; reflexivity|].
  split; [vm_compute; reflexivity|].
  split; vm_compute; reflexivity.
Qed.

(** C10, as amended.  When some line of the text takes the branch of a
    category (it contains the path-prefix token of the category, and for
    views not the token of sections, which is checked first) and
    [line.split(" ")] gives no identifier for it, [edit.genUi] drops the
    line in its filter, the field of the category in [ids] is an array and
    not [false], and the import line of the category is in front of the
    text (behind the import line of views when the category is sections and
    views has an array too).  When no identifier named by a reference line
    has a dollar sign, the line is not among the lines of the text returned,
    and no line of that text contains a token.  When no reference line of
    the category gives an identifier, the array is empty and the branch of
    the category only puts the import line in front; when no reference line
    at all gives one, the text returned is the import lines followed by the
    lines that are not reference lines: no tag is substituted. *)
Theorem editGenUi_reference_without_identifier input line c :
  In line (split LF input) ->
  category_of line = Some c ->
  second_token line = None ->
  exists newTsx collected,
    outcome (editGenUi (VStr input))
    = Normal {| tsx := VStr newTsx; ids := collected_ids input |} /\
    ~ In line (kept_lines input) /\
    get_ids c (collected_ids input) = Some collected /\
    (exists before after,
       newTsx = before +:+ import_line c +:+ nl +:+ after /\
       (before = EmptyString \/ (c = Sections /\ before = import_line Views +:+ nl))) /\
    ((forall l c' id, In l (split LF input) -> category_of l = Some c' ->
                      second_token l = Some id -> no_char DOLLAR id = true) ->
     ~ In line (split LF newTsx) /\
     forall l c', In l (split LF newTsx) -> includes (token c') l = false) /\
    ((forall l, In l (split LF input) -> category_of l = Some c ->
                second_token l = None) ->
     collected = [] /\
     forall newTsx0,
       rewrite_category c (collected_ids input) newTsx0
       = import_line c +:+ nl +:+ newTsx0) /\
    ((forall l c', In l (split LF input) -> category_of l = Some c' ->
                   second_token l = None) ->
     newTsx = import_head Views (split LF input)
              +:+ import_head Sections (split LF input)
              +:+ join nl (List.filter is_kept (split LF input))).
Proof.
  intros Hin Hc Hid.
  assert (Hne : input <> EmptyString).
  { intros ->. destruct Hin as [<- | []]. discriminate. }
  destruct (filter_lines_reference c line (split LF input) no_ids Hin Hc)
    as [collected Hcollected].
  fold (collected_ids input) in Hcollected.
  eexists. exists collected. rewrite editGenUi_string by assumption.
  split; [reflexivity|].
  split; [|split; [exact Hcollected|split; [|split; [|split]]]].
  - unfold kept_lines. rewrite filter_lines_kept.
    intros [_ Hk]%filter_In. unfold is_kept in Hk. now rewrite Hc in Hk.
  - destruct c.
    + destruct (rewrite_category_import Sections _ _ (join nl (kept_lines input))
                  Hcollected) as [after ->].
      destruct (rewrite_views_keeps_import (collected_ids input) after)
        as (before & after' & -> & Hb).
      exists before, after'. split; [reflexivity|]. destruct Hb; auto.
    + destruct (rewrite_category_import Views _ _
                  (rewrite_category Sections (collected_ids input)
                     (join nl (kept_lines input))) Hcollected) as [after ->].
      exists EmptyString, after. split; [reflexivity | now left].
  - intros Hids.
    assert (Hdollar : forall c' ids id,
              get_ids c' (collected_ids input) = Some ids -> In id ids ->
              no_char DOLLAR id = true).
    { intros c' ids id Hc' Hi. rewrite collected_ids_spec in Hc'.
      destruct (existsb _ _); [|discriminate]. injection Hc' as <-.
      apply new_Set_In, reference_ids_In in Hi as (l & Hl & Hcat & Htok).
      exact (Hids l c' id Hl Hcat Htok). }
    assert (Hfree : reference_free
                      (rewrite_category Views (collected_ids input)
                         (rewrite_category Sections (collected_ids input)
                            (join nl (kept_lines input))))).
    { apply reference_free_rewrite; [apply Hdollar|].
      apply reference_free_rewrite; [apply Hdollar|].
      apply reference_free_kept. }
    assert (Hlines : forall l c',
              In l (split LF (rewrite_category Views (collected_ids input)
                                (rewrite_category Sections (collected_ids input)
                                   (join nl (kept_lines input))))) ->
              includes (token c') l = false).
    { intros l c' Hl. destruct (token_facts c') as (_ & _ & Hlf & Hnonempty).
      exact (includes_line (token c') l _ Hlf Hnonempty Hl (Hfree c')). }
    split; [|exact Hlines].
    intros Hl. apply category_of_includes in Hc.
    rewrite (Hlines line c Hl) in Hc. discriminate.
  - intros Hall.
    assert (collected = []) as ->.
    { destruct (filter_lines_no_identifier c (split LF input) no_ids Hall)
        as [H|H]; [left; now destruct c | |]; fold (collected_ids input) in H;
        congruence. }
    split; [reflexivity|]. intros newTsx0.
    unfold rewrite_category. now rewrite Hcollected.
  - intros Hall.
    rewrite !rewrite_category_no_identifier by (intros l Hl; now apply Hall).
    unfold kept_lines. now rewrite filter_lines_kept.
Qed.

(** A reference line made of the token alone, before a tag. *)
Lemma editGenUi_reference_without_identifier_witness :
  exists newTsx collected,
    outcome (editGenUi (VStr (text_of ["@/components/sections/"; "<a>"]%string)))
    = Normal {| tsx := VStr newTsx;
                ids := collected_ids (text_of ["@/components/sections/"; "<a>"]%string) |} /\
    ~ In "@/components/sections/"%string
         (kept_lines (text_of ["@/components/sections/"; "<a>"]%string)) /\
    get_ids Sections (collected_ids (text_of ["@/components/sections/"; "<a>"]%string))
    = Some collected /\
    (exists before after,
       newTsx = before +:+ import_line Sections +:+ nl +:+ after /\
       (before = EmptyString \/
        (Sections = Sections /\ before = import_line Views +:+ nl))) /\
    ((forall l c' id,
        In l (split LF (text_of ["@/components/sections/"; "<a>"]%string)) ->
        category_of l = Some c' -> second_token l = Some id ->
        no_char DOLLAR id = true) ->
     ~ In "@/components/sections/"%string (split LF newTsx) /\
     forall l c', In l (split LF newTsx) -> includes (token c') l = false) /\
    ((forall l, In l (split LF (text_of ["@/components/sections/"; "<a>"]%string)) ->
                category_of l = Some Sections -> second_token l = None) ->
     collected = [] /\
     forall newTsx0,
       rewrite_category Sections
         (collected_ids (text_of ["@/components/sections/"; "<a>"]%string)) newTsx0
       = import_line Sections +:+ nl +:+ newTsx0) /\
    ((forall l c',
        In l (split LF (text_of ["@/components/sections/"; "<a>"]%string)) ->
        category_of l = Some c' -> second_token l = None) ->
     newTsx = import_head Views (split LF (text_of ["@/components/sections/"; "<a>"]%string))
              +:+ import_head Sections
                    (split LF (text_of ["@/components/sections/"; "<a>"]%string))
              +:+ join nl (List.filter is_kept
                             (split LF (text_of ["@/components/sections/"; "<a>"]%string)))).
Proof.
  apply (editGenUi_reference_without_identifier
           (text_of ["@/components/sections/"; "<a>"]%string)
           "@/components/sections/" Sections).
  - left. reflexivity.
  - reflexivity.
  - reflexivity.
Defined.

(** ** Further properties: extract.decorators *)

Section SplitJoin.
Implicit Types (x str : string) (l : list string).

Lemma split_line x : no_char LF x = true -> split LF x = [x].
Proof.
  induction x as [|c x IH]; [reflexivity|]. cbn [no_char split]. intros H.
  apply andb_true_iff in H as [Hc Hx]. apply negb_true_iff in Hc.
  now rewrite Hc, IH.
Qed.

Lemma split_app_line x str :
  no_char LF x = true -> split LF (x +:+ String LF str) = x :: split LF str.
Proof.
  induction x as [|c x IH]; intros H.
  - change (EmptyString +:+ String LF str) with (String LF str).
    cbn [split]. now rewrite Ascii.eqb_refl.
  - rewrite str_app_cons. cbn [split]. cbn [no_char] in H.
    apply andb_true_iff in H as [Hc Hx]. apply negb_true_iff in Hc.
    now rewrite Hc, IH.
Qed.

(** [split] undoes [join] on lines without line feed. *)
Lemma split_join l :
  l <> [] -> Forall (fun x => no_char LF x = true) l -> split LF (join nl l) = l.
Proof.
  induction l as [|x l IH]; [congruence|]. intros _ H.
  apply Forall_cons in H as [Hx Hl]. destruct l as [|y l].
  - now apply split_line.
  - change (join nl (x :: y :: l)) with (x +:+ String LF (join nl (y :: l))).
    rewrite split_app_line by assumption. now rewrite IH.
Qed.

Lemma split_no_char str : Forall (fun x => no_char LF x = true) (split LF str).
Proof.
  induction str as [|c str IH]; cbn [split].
  - constructor; [reflexivity | constructor].
  - destruct (Ascii.eqb c LF) eqn:E; [constructor; [reflexivity | exact IH]|].
    destruct (split LF str) as [|w ws].
    + constructor; [|constructor]. cbn [no_char]. now rewrite E.
    + apply Forall_cons in IH as [Hw Hws]. constructor; [|exact Hws].
      cbn [no_char]. now rewrite E.
Qed.

Lemma join_snoc l x : l <> [] -> join nl (l ++ [x]) = join nl l +:+ nl +:+ x.
Proof.
  induction l as [|y l IH]; [congruence|]. intros _. destruct l as [|z l].
  - reflexivity.
  - change (join nl ((y :: z :: l) ++ [x]))
      with (y +:+ nl +:+ join nl ((z :: l) ++ [x])).
    rewrite IH by discriminate.
    change (join nl (y :: z :: l)) with (y +:+ nl +:+ join nl (z :: l)).
    now rewrite !str_app_assoc.
Qed.

Lemma all_chars_trimStart p str :
  all_chars p str = true -> all_chars p (trimStart str) = true.
Proof.
  induction str as [|c str IH]; [reflexivity|]. cbn [trimStart]. intros H.
  destruct (is_ws c); [|exact H]. cbn [all_chars] in H.
  apply andb_true_iff in H as [_ H]. now apply IH.
Qed.

Lemma all_chars_trimEnd p str :
  all_chars p str = true -> all_chars p (trimEnd str) = true.
Proof.
  induction str as [|c str IH]; [reflexivity|]. cbn [trimEnd all_chars]. intros H.
  apply andb_true_iff in H as [Hc H]. specialize (IH H).
  destruct (trimEnd str) as [|y t].
  - destruct (is_ws c); [reflexivity|]. cbn [all_chars]. now rewrite Hc.
  - cbn [all_chars] in *. now rewrite Hc, IH.
Qed.

Lemma all_chars_trim p str : all_chars p str = true -> all_chars p (trim str) = true.
Proof. intros H. now apply all_chars_trimEnd, all_chars_trimStart. Qed.

End SplitJoin.

(** The lines of the context window of line [i]. *)
Lemma window_slice (lines : list string) i line :
  at_index lines i = Some line ->
  let a := Z.max 0 (i - 5) in
  let w := slice lines a (Z.min (len lines) (i + 15 + 1)) in
  len w = Z.min (len lines) (i + 16) - a /\
  1 <= len w <= 21 /\
  forall k, 0 <= k < len w -> at_index w k = at_index lines (a + k).
Proof.
  intros Hi a w. apply at_index_lt_len in Hi.
  assert (Hw : w = take (Z.to_nat (Z.min (len lines) (i + 15 + 1) - a))
                        (drop (Z.to_nat a) lines)).
  { subst w. apply slice_take_drop; lia. }
  assert (Hlen : len w = Z.min (len lines) (i + 16) - a).
  { rewrite Hw. unfold len in *. rewrite length_take, length_drop. lia. }
  split; [exact Hlen|]. split; [lia|].
  intros k Hk. rewrite Hw. unfold at_index.
  destruct (Z.ltb_spec k 0); [lia|]. destruct (Z.ltb_spec (a + k) 0); [lia|].
  rewrite lookup_take_lt by lia. rewrite lookup_drop. f_equal. lia.
Qed.

(** Every record comes from a line on which the pattern matches with a type
    and a description that do not trim to the empty string. *)
Lemma extractCodeDecorators_origin str records d :
  outcome (extractCodeDecorators (VStr str)) = Normal records ->
  In d records ->
  exists i line g1 g2,
    at_index (split LF str) i = Some line /\
    match_need line = Some (g1, g2) /\
    trim g1 <> EmptyString /\ trim g2 <> EmptyString /\
    d = {| type := trim g1; description := trim g2;
           snippet := window (split LF str) i; lineNumber := i + 1 |}.
Proof.
  intros Hres Hd. rewrite extractCodeDecorators_string in Hres.
  destruct (is_empty str); cbn [outcome snd] in Hres; injection Hres as <-;
    [destruct Hd|].
  apply records_of_origin in Hd as (k & line & Hk & Hdec).
  exists (Z.of_nat k), line. unfold decorator_at in Hdec.
  destruct (match_need line) as [[g1 g2]|]; [|discriminate].
  destruct (is_empty (trim g1)) eqn:H1; [discriminate|].
  destruct (is_empty (trim g2)) eqn:H2; [discriminate|].
  cbn [orb] in Hdec. injection Hdec as <-. exists g1, g2.
  rewrite at_index_of_nat. apply is_empty_false in H1, H2.
  split; [exact Hk|]. split; [reflexivity|]. split; [exact H1|].
  split; [exact H2 | reflexivity].
Qed.

Lemma extractCodeDecorators_no_split code :
  has_split code = false ->
  outcome (extractCodeDecorators code) = Normal [] /\
  exists e, output (extractCodeDecorators code) = [ConsoleError tag_decorators e].
Proof.
  intros Hs. unfold extractCodeDecorators.
  destruct (falsy code); [split; [reflexivity | eexists; reflexivity]|].
  destruct code; try discriminate Hs; split; try reflexivity; eexists; reflexivity.
Qed.

(** On a [String] object the scan runs on the string it wraps, also when
    that string is empty. *)
Lemma extractCodeDecorators_object str :
  extractCodeDecorators (VStrObj str)
  = (warnings_of 0 (split LF str),
     Normal (records_of (split LF str) 0 (split LF str))).
Proof.
  unfold extractCodeDecorators, falsy. cbn [truthy negb].
  unfold extractCodeDecorators_try, call_split, bind, ret.
  rewrite forEach_from_records. reflexivity.
Qed.

Lemma extractCodeDecorators_object_string str :
  str <> EmptyString ->
  extractCodeDecorators (VStrObj str) = extractCodeDecorators (VStr str).
Proof.
  intros Hne. rewrite extractCodeDecorators_object, extractCodeDecorators_string.
  apply is_empty_false in Hne. now rewrite Hne.
Qed.

(** X15.  Every record [extract.decorators] returns belongs to a line of the
    text (the argument when it is a string, the string it wraps when it is a
    [String] object): the line at [lineNumber - 1] reads [@need:], then a
    run without colon, a colon, and a run without line terminator; [type]
    and [description] are these two runs trimmed.  Both fields are non-empty
    and have no white space at either end, and [type] contains no colon. *)
Theorem extractCodeDecorators_sound code records d :
  outcome (extractCodeDecorators code) = Normal records ->
  In d records ->
  exists str line before g1 g2 after,
    (code = VStr str \/ code = VStrObj str) /\
    at_index (split LF str) (lineNumber d - 1) = Some line /\
    line = before +:+ "@need:" +:+ g1 +:+ ":" +:+ g2 +:+ after /\
    all_chars (fun c => negb (is_line_terminator c)) g2 = true /\
    type d = trim g1 /\ description d = trim g2 /\
    type d <> EmptyString /\ description d <> EmptyString /\
    trim (type d) = type d /\ trim (description d) = description d /\
    all_chars (fun c => negb (is_char c ":")) (type d) = true.
Proof.
  intros Hres Hd.
  destruct (has_split code) eqn:Hs.
  2:{ destruct (extractCodeDecorators_no_split code Hs) as [H _].
      rewrite H in Hres. injection Hres as <-. destruct Hd. }
  assert (Hcode : exists str,
            (code = VStr str \/ code = VStrObj str) /\
            outcome (extractCodeDecorators (VStr str)) = Normal records).
  { destruct code as [| | | | |str|str| |]; try discriminate Hs.
    - exists str. split; [now left | exact Hres].
    - exists str. split; [now right|].
      destruct (string_dec str EmptyString) as [->|Hne].
      + rewrite extractCodeDecorators_object in Hres. injection Hres as <-.
        destruct Hd.
      + now rewrite <- extractCodeDecorators_object_string. }
  destruct Hcode as (str & Hcode & Hstr).
  destruct (extractCodeDecorators_origin str records d Hstr Hd)
    as (i & line & g1 & g2 & Hline & Hm & H1 & H2 & ->).
  destruct (match_need_shape line g1 g2 Hm)
    as (before & after & Hshape & Hg1 & _ & Hg2 & _ & _).
  exists str, line, before, g1, g2, after. cbn [lineNumber type description].
  replace (i + 1 - 1) with i by lia.
  split; [exact Hcode|]. split; [exact Hline|]. split; [exact Hshape|].
  split; [exact Hg2|]. split; [reflexivity|]. split; [reflexivity|].
  split; [exact H1|]. split; [exact H2|].
  split; [apply trim_idempotent|]. split; [apply trim_idempotent|].
  now apply all_chars_trim.
Qed.

Lemma extractCodeDecorators_sound_witness :
  exists str line before g1 g2 after,
    (VStr (text_of ["a"; "// @need: api :fetch: user data "; "b"]%string) = VStr str \/
     VStr (text_of ["a"; "// @need: api :fetch: user data "; "b"]%string) = VStrObj str) /\
    at_index (split LF str) (2 - 1) = Some line /\
    line = before +:+ "@need:" +:+ g1 +:+ ":" +:+ g2 +:+ after /\
    all_chars (fun c => negb (is_line_terminator c)) g2 = true /\
    "api"%string = trim g1 /\ "fetch: user data"%string = trim g2 /\
    "api"%string <> EmptyString /\ "fetch: user data"%string <> EmptyString /\
    trim "api" = "api"%string /\ trim "fetch: user data" = "fetch: user data"%string /\
    all_chars (fun c => negb (is_char c ":")) "api" = true.
Proof.
  apply (extractCodeDecorators_sound
           (VStr (text_of ["a"; "// @need: api :fetch: user data "; "b"]%string))
           [{| type := "api"; description := "fetch: user data";
               snippet := window ["a"; "// @need: api :fetch: user data "; "b"]%string 1;
               lineNumber := 2 |}]
           {| type := "api"; description := "fetch: user data";
              snippet := window ["a"; "// @need: api :fetch: user data "; "b"]%string 1;
              lineNumber := 2 |}).
  - vm_compute. reflexivity.
  - now left.
Defined.

(** X16.  The snippet of a record, split at line feeds, is the elision
    marker, the lines of the window, and the elision marker.  The window
    holds the lines of the text from index [max 0 (i - 5)] to index
    [min (number of lines) (i + 16) - 1], [i] being the index of the line of
    the record: between 1 and 21 lines, the line of the record among
    them. *)
Theorem extractCodeDecorators_snippet_lines str records d :
  outcome (extractCodeDecorators (VStr str)) = Normal records ->
  In d records ->
  let lines := split LF str in
  let i := lineNumber d - 1 in
  let a := Z.max 0 (i - 5) in
  exists w,
    split LF (snippet d) = elision :: w ++ [elision] /\
    len w = Z.min (len lines) (i + 16) - a /\
    1 <= len w <= 21 /\
    (forall k, 0 <= k < len w -> at_index w k = at_index lines (a + k)) /\
    is_Some (at_index lines i) /\
    at_index w (i - a) = at_index lines i.
Proof.
  intros Hres Hd.
  destruct (extractCodeDecorators_origin str records d Hres Hd)
    as (i' & line & g1 & g2 & Hline & _ & _ & _ & ->).
  cbn [lineNumber snippet]. replace (i' + 1 - 1) with i' by lia.
  set (lines := split LF str) in *. set (a := Z.max 0 (i' - 5)).
  destruct (window_slice lines i' line Hline) as (Hlen & Hbound & Hat).
  fold a in Hlen, Hbound, Hat.
  set (w := slice lines a (Z.min (len lines) (i' + 15 + 1))) in *.
  pose proof (at_index_lt_len _ _ _ Hline) as Hi.
  assert (Hne : w <> []).
  { intros E. rewrite E in Hbound. unfold len in Hbound. cbn in Hbound. lia. }
  exists w. split.
  - unfold window. fold lines. fold a. fold w.
    assert (E : elision +:+ nl +:+ join nl w +:+ nl +:+ elision
                = join nl (elision :: w ++ [elision])).
    { destruct w as [|x w']; [congruence|].
      change (join nl (elision :: (x :: w') ++ [elision]))
        with (elision +:+ nl +:+ join nl ((x :: w') ++ [elision])).
      now rewrite join_snoc by discriminate. }
    rewrite E. apply split_join; [discriminate|].
    constructor; [reflexivity|]. apply Forall_app. split.
    + subst w. unfold slice. apply Forall_take, Forall_drop. apply split_no_char.
    + constructor; [reflexivity | constructor].
  - split; [exact Hlen|]. split; [exact Hbound|]. split; [exact Hat|].
    split; [rewrite Hline; eauto|].
    rewrite Hat by lia. f_equal. lia.
Qed.

Lemma extractCodeDecorators_snippet_lines_witness :
  exists w,
    split LF (window (split LF sample_source) 9) = elision :: w ++ [elision] /\
    len w = Z.min (len (split LF sample_source)) (10 - 1 + 16) - Z.max 0 (10 - 1 - 5) /\
    1 <= len w <= 21 /\
    (forall k, 0 <= k < len w ->
               at_index w k = at_index (split LF sample_source) (Z.max 0 (10 - 1 - 5) + k)) /\
    is_Some (at_index (split LF sample_source) (10 - 1)) /\
    at_index w (10 - 1 - Z.max 0 (10 - 1 - 5)) = at_index (split LF sample_source) (10 - 1).
Proof.
  apply (extractCodeDecorators_snippet_lines sample_source
           [{| type := "api"; description := "fetch user data";
               snippet := window (split LF sample_source) 9; lineNumber := 10 |}]
           {| type := "api"; description := "fetch user data";
              snippet := window (split LF sample_source) 9; lineNumber := 10 |}).
  - vm_compute. reflexivity.
  - now left.
Defined.

Lemma warnings_of_length rest : forall index,
  length (warnings_of index rest) = count_if malformed rest.
Proof.
  unfold count_if. induction rest as [|line rest IH]; intros index; [reflexivity|].
  cbn [warnings_of List.filter]. destruct (malformed line); cbn [length]; now rewrite IH.
Qed.

Lemma warnings_of_shape rest : forall index ev,
  In ev (warnings_of index rest) -> exists j, ev = warn_invalid_decorator j.
Proof.
  induction rest as [|line rest IH]; intros index ev; [intros []|].
  cbn [warnings_of]. destruct (malformed line); [|apply IH].
  intros [<-|H]; [eauto | now apply IH in H].
Qed.

(** X17.  On an argument without the method [split] (a primitive other
    than a string, an array, a plain object), or the empty string,
    [extract.decorators] returns the empty array and writes one
    [console.error].  On any other string it writes no [console.error]: its
    log holds exactly one warning for each malformed line, with the number
    of that line.  A [String] object that wraps a non-empty string is
    treated as that string. *)
Theorem extractCodeDecorators_console code :
  (has_split code = false \/ code = VStr EmptyString ->
   outcome (extractCodeDecorators code) = Normal [] /\
   exists e, output (extractCodeDecorators code) = [ConsoleError tag_decorators e]) /\
  (forall str,
     code = VStr str -> str <> EmptyString ->
     (forall ev,
        In ev (output (extractCodeDecorators code)) <->
        exists i line, at_index (split LF str) i = Some line /\
                       malformed line = true /\ ev = warn_invalid_decorator i) /\
     length (output (extractCodeDecorators code)) = count_if malformed (split LF str)) /\
  (forall str,
     code = VStrObj str -> str <> EmptyString ->
     extractCodeDecorators code = extractCodeDecorators (VStr str)).
Proof.
  split; [|split].
  - intros [Hs| ->]; [now apply extractCodeDecorators_no_split|].
    split; [reflexivity | eexists; reflexivity].
  - intros str -> Hne. rewrite extractCodeDecorators_string.
    apply is_empty_false in Hne. rewrite Hne. cbn [output fst].
    split; [|apply warnings_of_length].
    intros ev. split.
    + intros Hev. destruct (warnings_of_shape _ _ _ Hev) as [j ->].
      apply warnings_of_origin in Hev as (k & line & Hk & -> & Hm).
      exists (Z.of_nat k), line. rewrite at_index_of_nat. cbn. auto.
    + intros (i & line & Hi & Hm & ->).
      apply at_index_Some in Hi as [Hi Hk].
      replace i with (0 + Z.of_nat (Z.to_nat i)) by lia.
      now apply (warnings_of_In _ 0 (Z.to_nat i) line).
  - intros str -> Hne. now apply extractCodeDecorators_object_string.
Qed.

Lemma records_of_no_match lines rest : forall index,
  (forall line, In line rest -> match_need line = None) ->
  records_of lines index rest = [].
Proof.
  induction rest as [|line rest IH]; intros index H; [reflexivity|].
  cbn [records_of]. unfold decorator_at. rewrite (H line) by now left.
  apply IH. intros l Hl. apply H. now right.
Qed.

Lemma warnings_of_no_match rest : forall index,
  (forall line, In line rest -> match_need line = None) ->
  warnings_of index rest = [].
Proof.
  induction rest as [|line rest IH]; intros index H; [reflexivity|].
  cbn [warnings_of]. unfold malformed. rewrite (H line) by now left.
  apply IH. intros l Hl. apply H. now right.
Qed.

(** X18.  A text, other than the empty string, in which [@need:] does not
    occur gives the empty array and writes nothing to the console. *)
Theorem extractCodeDecorators_no_marker str :
  str <> EmptyString ->
  includes "@need:" str = false ->
  extractCodeDecorators (VStr str) = ([], Normal []).
Proof.
  intros Hne Hinc. rewrite extractCodeDecorators_string.
  apply is_empty_false in Hne. rewrite Hne.
  assert (H : forall line, In line (split LF str) -> match_need line = None).
  { intros line Hline. apply match_need_absent.
    now apply (includes_line "@need:" line str). }
  now rewrite records_of_no_match, warnings_of_no_match.
Qed.

Lemma extractCodeDecorators_no_marker_witness :
  extractCodeDecorators (VStr (text_of ["// need: api: users"; "@ need:x:y"; ""]%string))
  = ([], Normal []).
Proof.
  apply extractCodeDecorators_no_marker; [discriminate | reflexivity].
Defined.

(** ** Further properties: parse.yaml *)

(** X19.  Whatever the decoder does, [parse.yaml] never returns
    [undefined]; it writes exactly one [console.error] when it returns
    [null] and nothing otherwise.  A value the decoder returns that is
    neither [null] nor [undefined] is returned even when it is falsy
    ([false], [0], the empty string). *)
Theorem parseYaml_console (yaml_parse : value -> completion value) generated :
  outcome (parseYaml yaml_parse generated) <> Normal VUndefined /\
  (outcome (parseYaml yaml_parse generated) = Normal VNull ->
   exists e, output (parseYaml yaml_parse generated) = [ConsoleError tag_yaml e]) /\
  (outcome (parseYaml yaml_parse generated) <> Normal VNull ->
   output (parseYaml yaml_parse generated) = [] /\
   outcome (parseYaml yaml_parse generated)
   = yaml_parse (get_field generated "text")).
Proof.
  unfold parseYaml.
  destruct (falsy generated || falsy (get_field generated "text")).
  { split; [discriminate|]. split; [eexists; reflexivity|].
    intros H. now contradiction H. }
  unfold parseYaml_try.
  destruct (yaml_parse (get_field generated "text")) as [v|e] eqn:Hy.
  - destruct v; cbn;
      (split; [discriminate|]); split;
      try (intros _; eexists; reflexivity); try discriminate;
      try (intros H; now contradiction H); intros _; split; reflexivity.
  - cbn. split; [discriminate|]. split; [eexists; reflexivity|].
    intros H. now contradiction H.
Qed.

(** ** Further properties: extract.backticksMultiple, label after label *)

(** On a non-empty text and a non-empty array of labels the function logs
    what the loop logs and returns what the loop has found. *)
Lemma extractBackticksMultiple_run input delims :
  input <> EmptyString -> delims <> [] ->
  extractBackticksMultiple (VStr input) (Labels delims)
  = (output (for_delimiters (split LF input) delims start),
     let m := found (final_state (split LF input) delims start) in
     Normal (if 0 <? keys_length m then Some m else None)).
Proof.
  intros Hin Hd. unfold extractBackticksMultiple.
  assert (E1 : falsy (VStr input) = false) by (destruct input; [congruence | reflexivity]).
  assert (E2 : (len (elements (Labels delims)) =? 0) = false).
  { destruct delims; [congruence|]. reflexivity. }
  rewrite E1, E2. cbn [isArray negb orb].
  unfold extractBackticksMultiple_try, call_split, final_state. cbn [elements].
  destruct (for_delimiters_normal delims (split LF input) start) as [st' Hst'].
  fold start. cbv beta iota delta [bind ret try_catch].
  destruct (for_delimiters (split LF input) delims start) as [out r].
  cbn [outcome output fst snd] in *. subst r. cbn [app].
  now rewrite app_nil_r.
Qed.

Lemma blocks_final input delims :
  input <> EmptyString -> delims <> [] ->
  blocks input delims = found (final_state (split LF input) delims start).
Proof.
  intros Hin Hd. unfold blocks. rewrite extractBackticksMultiple_run by assumption.
  cbn [outcome snd]. cbv zeta.
  destruct (0 <? keys_length _) eqn:Hk; [reflexivity|].
  apply keys_length_zero in Hk. now rewrite Hk.
Qed.

Lemma extractBackticksMultiple_no_label input :
  outcome (extractBackticksMultiple (VStr input) (Labels [])) = Normal None.
Proof.
  unfold extractBackticksMultiple. cbn [isArray elements negb].
  change (len (@nil string) =? 0) with true. now rewrite orb_true_r.
Qed.

Lemma blocks_no_label input : blocks input [] = ∅.
Proof. unfold blocks. now rewrite extractBackticksMultiple_no_label. Qed.

Lemma blocks_no_text delims : blocks EmptyString delims = ∅.
Proof. reflexivity. Qed.

(** What is found does not depend on what was found before. *)
Lemma for_delimiters_found_union delims : forall lines found0 cur,
  found (final_state lines delims {| found := found0; cursor := cur |})
  = found (final_state lines delims {| found := ∅; cursor := cur |}) ∪ found0.
Proof.
  unfold final_state.
  induction delims as [|delim rest IH]; intros lines found0 cur.
  - cbn. now rewrite (left_id_L ∅ (∪)).
  - rewrite !for_delimiters_cons. cbv zeta. cbn [cursor found].
    destruct (len lines <=? cur); [cbn; now rewrite (left_id_L ∅ (∪))|].
    destruct (_ =? -1); [rewrite !outcome_log_bind; apply IH|].
    destruct (_ =? -1); [rewrite !outcome_log_bind; apply IH|].
    rewrite IH. symmetry. rewrite IH. rewrite <- (assoc_L (∪)). f_equal.
    unfold obj_set. destruct (String.eqb delim "__proto__").
    + now rewrite (left_id_L ∅ (∪)).
    + now rewrite insert_empty, <- insert_union_singleton_l.
Qed.

(** The loop run from a cursor is the loop run from the start on the lines
    from the cursor on. *)
Lemma for_delimiters_suffix delims : forall (before remaining : list string) found0 k,
  0 <= k ->
  found (final_state (before ++ remaining) delims
           {| found := found0; cursor := len before + k |})
  = found (final_state remaining delims {| found := found0; cursor := k |}).
Proof.
  unfold final_state.
  induction delims as [|delim rest IH]; intros before remaining found0 k Hk;
    [reflexivity|].
  rewrite !for_delimiters_cons. cbv zeta. cbn [cursor found].
  pose proof (len_nonneg before) as Hb. pose proof (len_nonneg remaining) as Hr.
  rewrite len_app.
  destruct (Z.leb_spec (len remaining) k);
    destruct (Z.leb_spec (len before + len remaining) (len before + k));
    try lia; [reflexivity|].
  assert (Hs : slice_from (before ++ remaining) (len before + k)
               = slice_from remaining k).
  { rewrite !slice_from_drop by (rewrite ?len_app; lia).
    replace (Z.to_nat (len before + k)) with (length before + Z.to_nat k)%nat
      by (unfold len; lia).
    apply drop_app_add. }
  rewrite Hs.
  set (firstLine := findIndex _ (slice_from remaining k)).
  destruct (Z.eqb_spec firstLine (-1)); [rewrite !outcome_log_bind; now apply IH|].
  set (lastLine := findIndex _ _).
  destruct (Z.eqb_spec lastLine (-1)); [rewrite !outcome_log_bind; now apply IH|].
  pose proof (findIndex_range (includes (fence +:+ delim)) (slice_from remaining k)) as Hf.
  pose proof (findIndex_range (includes fence)
                (slice_from (slice_from (slice_from remaining k) firstLine) 1)) as Hl.
  fold firstLine in Hf. fold lastLine in Hl.
  replace (len before + k + firstLine + lastLine + 2)
    with (len before + (k + firstLine + lastLine + 2)) by lia.
  apply IH. lia.
Qed.

(** On one empty line no label is found. *)
Lemma for_delimiters_blank delims :
  found (final_state [EmptyString] delims start) = ∅.
Proof.
  unfold final_state. induction delims as [|delim rest IH]; [reflexivity|].
  rewrite for_delimiters_miss.
  - now rewrite outcome_log_bind.
  - change (0 <= 0 < 1). lia.
  - apply none_from_check; [change (0 <= 0); lia | reflexivity].
Qed.

Lemma join_empty (l : list string) :
  join nl l = EmptyString -> l = [] \/ l = [EmptyString].
Proof.
  destruct l as [|x [|y l]]; [now left | cbn [join]; intros ->; now right|].
  change (join nl (x :: y :: l)) with (x +:+ String LF (join nl (y :: l))).
  destruct x; [|rewrite str_app_cons]; discriminate.
Qed.

(** X20.  When the opening fence of the first label is on no line of the
    text, the label is skipped: the function writes the warning about the
    missing opening fence first and returns what it returns for the labels
    that follow, found from the same place. *)
Theorem extractBackticksMultiple_miss input delim rest :
  input <> EmptyString ->
  none_from (includes (fence +:+ delim)) (split LF input) 0 ->
  outcome (extractBackticksMultiple (VStr input) (Labels (delim :: rest)))
  = outcome (extractBackticksMultiple (VStr input) (Labels rest)) /\
  blocks input (delim :: rest) = blocks input rest /\
  output (extractBackticksMultiple (VStr input) (Labels (delim :: rest)))
  = warn_no_opening delim
    :: match rest with
       | [] => []
       | _ => output (extractBackticksMultiple (VStr input) (Labels rest))
       end.
Proof.
  intros Hin Hnone.
  assert (Hstep : for_delimiters (split LF input) (delim :: rest) start
                  = (let! _ := log (warn_no_opening delim) in
                     for_delimiters (split LF input) rest start)).
  { apply for_delimiters_miss; [|exact Hnone]. cbn [cursor start].
    pose proof (split_nonempty LF input) as Hne. unfold len.
    destruct (split LF input); [congruence | cbn [length]; lia]. }
  assert (Hout : outcome (extractBackticksMultiple (VStr input) (Labels (delim :: rest)))
                 = outcome (extractBackticksMultiple (VStr input) (Labels rest))).
  { rewrite extractBackticksMultiple_run by (auto; discriminate).
    cbn [outcome snd]. unfold final_state. rewrite Hstep, outcome_log_bind.
    destruct rest as [|delim' rest];
      [now rewrite extractBackticksMultiple_no_label|].
    now rewrite extractBackticksMultiple_run by (auto; discriminate). }
  split; [exact Hout|]. split; [unfold blocks; now rewrite Hout|].
  rewrite extractBackticksMultiple_run by (auto; discriminate).
  cbn [output fst]. rewrite Hstep. fold (output (let! _ := log (warn_no_opening delim) in
    for_delimiters (split LF input) rest start)).
  rewrite output_log_bind. f_equal.
  destruct rest as [|delim' rest]; [reflexivity|].
  now rewrite extractBackticksMultiple_run by (auto; discriminate).
Qed.

Lemma extractBackticksMultiple_miss_witness :
  outcome (extractBackticksMultiple (VStr (text_of ["```a"; "1"; "```"]%string))
             (Labels ["b"; "a"]%string))
  = outcome (extractBackticksMultiple (VStr (text_of ["```a"; "1"; "```"]%string))
               (Labels ["a"]%string)) /\
  blocks (text_of ["```a"; "1"; "```"]%string) ["b"; "a"]%string
  = blocks (text_of ["```a"; "1"; "```"]%string) ["a"]%string /\
  output (extractBackticksMultiple (VStr (text_of ["```a"; "1"; "```"]%string))
            (Labels ["b"; "a"]%string))
  = warn_no_opening "b"
    :: output (extractBackticksMultiple (VStr (text_of ["```a"; "1"; "```"]%string))
                 (Labels ["a"]%string)).
Proof.
  apply (extractBackticksMultiple_miss (text_of ["```a"; "1"; "```"]%string)
           "b"%string ["a"%string]).
  - discriminate.
  - apply none_from_check; [lia | reflexivity].
Defined.

(** X21.  When the first label, other than [__proto__], opens a block at
    line [o] that is closed at line [c], the mapping returned holds the
    lines strictly between [o] and [c], joined with line feeds, under that
    label, and besides it what the function returns for the labels that
    follow on the text after line [c]: the later labels are looked for in
    the remaining text only, and a later label of the same name takes the
    place of the first. *)
Theorem extractBackticksMultiple_hit_then_rest input delim rest o c :
  let lines := split LF input in
  delim <> "__proto__"%string ->
  first_from (includes (fence +:+ delim)) lines 0 o ->
  first_from (includes fence) lines (o + 1) c ->
  blocks input (delim :: rest)
  = blocks (join nl (slice_from lines (c + 1))) rest
    ∪ {[ delim := join nl (slice lines (o + 1) c) ]}.
Proof.
  intros lines Hd Hopen Hclose.
  assert (Hin : input <> EmptyString).
  { intros ->. destruct Hopen as (_ & (lo & Hlo & Hinc) & _).
    apply at_index_Some in Hlo as [Ho Hlo]. cbn in Hlo.
    destruct (Z.to_nat o); [|discriminate]. injection Hlo as <-. discriminate. }
  rewrite blocks_final by (auto; discriminate). fold lines.
  unfold final_state at 1.
  rewrite (for_delimiters_hit lines delim rest start o c) by (auto; reflexivity).
  fold (final_state lines rest
          {| found := obj_set delim (join nl (slice lines (o + 1) c)) (found start);
             cursor := c + 1 |}).
  rewrite for_delimiters_found_union. cbn [found start].
  unfold obj_set at 1. destruct (String.eqb_spec delim "__proto__"); [contradiction|].
  rewrite insert_empty. f_equal.
  pose proof Hclose as (Hoc & (lc & Hlc & _) & _).
  apply at_index_lt_len in Hlc.
  rewrite slice_from_drop by lia.
  assert (Hlen : len (take (Z.to_nat (c + 1)) lines) = c + 1).
  { unfold len in *. rewrite length_take. lia. }
  pose proof (for_delimiters_suffix rest (take (Z.to_nat (c + 1)) lines)
                (drop (Z.to_nat (c + 1)) lines) ∅ 0 (Z.le_refl 0)) as Hsuffix.
  rewrite take_drop, Hlen, Z.add_0_r in Hsuffix. fold start in Hsuffix.
  rewrite Hsuffix. clear Hsuffix.
  set (remaining := drop (Z.to_nat (c + 1)) lines).
  destruct rest as [|delim' rest]; [now rewrite blocks_no_label|].
  destruct (string_dec (join nl remaining) EmptyString) as [Hempty|Hempty].
  - rewrite Hempty, blocks_no_text.
    destruct (join_empty _ Hempty) as [E | E]; rewrite E.
    + unfold final_state.
      now rewrite for_delimiters_past_end by (change (0 <= 0); lia).
    + apply for_delimiters_blank.
  - rewrite blocks_final by (auto; discriminate).
    rewrite split_join; [reflexivity | |].
    + intros E. rewrite E in Hempty. now apply Hempty.
    + subst remaining. apply Forall_drop, split_no_char.
Qed.

Lemma extractBackticksMultiple_hit_then_rest_witness :
  blocks (text_of ["```b"; "0"; "```"; "```a"; " 1"; "```"; "```b"; "2"; "```"]%string)
         ["a"; "b"]%string
  = blocks (text_of ["```b"; "2"; "```"]%string) ["b"]%string
    ∪ {[ "a"%string := " 1"%string ]}.
Proof.
  apply (extractBackticksMultiple_hit_then_rest
           (text_of ["```b"; "0"; "```"; "```a"; " 1"; "```"; "```b"; "2"; "```"]%string)
           "a"%string ["b"%string] 3 5).
  - discriminate.
  - eapply first_from_check; [cbn; lia | reflexivity | reflexivity | reflexivity].
  - eapply first_from_check; [cbn; lia | reflexivity | reflexivity | reflexivity].
Defined.
